(** * PDF upload and vector search: a shallow embedding of the backend

    The development follows the Python sources of the backend:

    - [utils/hybrid_search.py]  (module [HybridSearch]): keyword scoring,
      proximity bonus, hybrid score, re-ranking and the search fallback;
    - [utils/qdrant_client.py]  (module [QdrantClient]): the vector store
      gateway, whose methods catch every exception and answer with a
      falsy value;
    - [utils/pdf_processor.py], [routers/document.py] (module
      [DocumentRouter]): the two ingestion handlers and the search handler.

    Modelling conventions.

    - Python [str] is [string]; text is taken to be ASCII, so [lower] maps
      'A'..'Z' to 'a'..'z' and [split] cuts at the ASCII characters for
      which [str.isspace] holds.
    - Python [float] arithmetic is abstracted by the class [Num].  Two
      instances are given: [float_Num], IEEE binary64 as CPython computes
      it, and [Q_Num], exact rational arithmetic, on which the bound
      theorems are stated.  The class [Ordered] says what sorting needs
      of the comparisons; both instances have it.
    - A Python [dict] with string keys is a [gmap string value].
    - Code that can raise lives in the error monad [exc]; [try]/[except
      Exception] is [try_except].  Handlers that also change the stores
      live in the state-and-error monad [stexc], with [try_].
    - The relational store, the upload directory and the vector store are
      finite maps and lists inside one [World]; their primitive operations
      (commit, write, remove) succeed.  What the external services answer
      (PDF text extraction, page rendering, the embedding model, the
      vector store, and the database when it compares an id with a value
      that is not an integer) is supplied by a [Backend] record. *)

From Stdlib Require Import ZArith QArith Floats Lqa Permutation Sorted Ascii String.
From stdpp Require Import gmap strings list pretty.

Set Warnings "-inexact-float,-register-all".
#[local] Open Scope Z_scope.

(* ===================================================================== *)
(** * Python values, strings and exceptions                               *)
(* ===================================================================== *)

Module Py.

(** Exceptions that the modelled code raises or catches.  All of them are
    subclasses of [Exception]. *)
Inductive exception :=
| Exception (msg : string)
| AttributeError (msg : string)
| TypeError (msg : string)
| HTTPException (status_code : Z) (detail : string).

(** Result of running code that may raise. *)
Inductive exc (A : Type) :=
| Ok (a : A)
| Raise (e : exception).
Arguments Ok {A} a.
Arguments Raise {A} e.

#[global] Instance exc_ret : MRet exc := fun _ a => Ok a.
#[global] Instance exc_bind : MBind exc := fun _ _ f m =>
  match m with
  | Ok a => f a
  | Raise e => Raise e
  end.

(** [try: body except Exception as e: handler e]. *)
Definition try_except {A} (body : exc A) (handler : exception -> exc A) : exc A :=
  match body with
  | Ok a => Ok a
  | Raise e => handler e
  end.

(** A loop whose body may raise: the first exception aborts the loop. *)
Fixpoint for_each {A B} (body : A -> exc B) (l : list A) : exc (list B) :=
  match l with
  | [] => Ok []
  | x :: r => y ← body x; ys ← for_each body r; Ok (y :: ys)
  end.

Definition is_Ok {A} (m : exc A) : bool :=
  match m with Ok _ => true | Raise _ => false end.

(** ** Strings *)

Definition is_upper (c : ascii) : bool :=
  let n := nat_of_ascii c in (65 <=? n)%nat && (n <=? 90)%nat.

Definition lower_char (c : ascii) : ascii :=
  if is_upper c then ascii_of_nat (nat_of_ascii c + 32) else c.

(** [s.lower()] *)
Fixpoint lower (s : string) : string :=
  match s with
  | EmptyString => EmptyString
  | String c r => String (lower_char c) (lower r)
  end.

(** [c.isspace()] on ASCII: TAB, LF, VT, FF, CR, FS, GS, RS, US, space. *)
Definition isspace (c : ascii) : bool :=
  let n := nat_of_ascii c in
  ((9 <=? n)%nat && (n <=? 13)%nat) || ((28 <=? n)%nat && (n <=? 32)%nat).

Definition is_empty_str (s : string) : bool :=
  match s with EmptyString => true | _ => false end.

(** [s.split()] with no argument: maximal runs of non-space characters.
    [cur] is the word being read. *)
Fixpoint split_go (cur : string) (s : string) : list string :=
  match s with
  | EmptyString => if is_empty_str cur then [] else [cur]
  | String c r =>
      if isspace c
      then (if is_empty_str cur then split_go EmptyString r
            else cur :: split_go EmptyString r)
      else split_go (cur +:+ String c EmptyString) r
  end.

Definition split (s : string) : list string := split_go EmptyString s.

(** [s.startswith(p)] *)
Fixpoint startswith (s p : string) : bool :=
  match p, s with
  | EmptyString, _ => true
  | String _ _, EmptyString => false
  | String a p', String b s' => if Ascii.eqb a b then startswith s' p' else false
  end.

(** [sub in s] *)
Fixpoint contains (sub s : string) : bool :=
  startswith s sub ||
  match s with
  | EmptyString => false
  | String _ r => contains sub r
  end.

(** [s.find(sub, start)] for [start >= 0].  [find_from s sub start i] reads
    the suffix [s] of the text that begins at index [i]. *)
Fixpoint find_from (s sub : string) (start : nat) (i : Z) {struct s} : Z :=
  match start, s with
  | O, EmptyString => if startswith s sub then i else -1
  | O, String _ r => if startswith s sub then i else find_from r sub O (i + 1)
  | S _, EmptyString => -1
  | S k, String _ r => find_from r sub k (i + 1)
  end.

Definition find (s sub : string) (start : Z) : Z :=
  find_from s sub (Z.to_nat start) 0.

(** [s[n:]] *)
Fixpoint drop_str (n : nat) (s : string) : string :=
  match n, s with
  | O, _ => s
  | S _, EmptyString => EmptyString
  | S k, String _ r => drop_str k r
  end.

(** [word] occurs in [text] at index [pos]: [text[pos:].startswith(word)]
    with [0 <= pos <= len(text)]. *)
Definition occurs_at (text word : string) (pos : Z) : Prop :=
  0 <= pos <= Z.of_nat (String.length text) /\
  startswith (drop_str (Z.to_nat pos) text) word = true.

(** ** Slices: [l[:stop]] *)
Definition slice_to {A} (l : list A) (stop : Z) : list A :=
  if 0 <=? stop then take (Z.to_nat stop) l
  else take (Z.to_nat (Z.of_nat (length l) + stop)) l.

(** ** Python floats *)

(** The float operations the scoring code uses, together with the float
    literals that occur in it. *)
Class Num (F : Type) := {
  f0_0 : F;  f1_0 : F;  f0_5 : F;  f0_3 : F;
  f0_6 : F;  f0_4 : F;  f0_7 : F;
  fadd : F -> F -> F;
  fmul : F -> F -> F;
  fdiv : F -> F -> F;   (* only used with a non-zero divisor *)
  fltb : F -> F -> bool;   (* [x < y] *)
  feqb : F -> F -> bool;   (* [x == y] *)
  of_int : Z -> F          (* [float(n)] for a Python [int] *)
}.

(** IEEE 754 binary64, as CPython evaluates the code.  [of_int] is exact
    for the integers the code converts (list lengths, below [2^53]). *)
#[global] Instance float_Num : Num float := {|
  f0_0 := 0.0%float;  f1_0 := 1.0%float;  f0_5 := 0.5%float;
  f0_3 := 0.3%float;  f0_6 := 0.6%float;  f0_4 := 0.4%float;
  f0_7 := 0.7%float;
  fadd := PrimFloat.add;
  fmul := PrimFloat.mul;
  fdiv := PrimFloat.div;
  fltb := PrimFloat.ltb;
  feqb := PrimFloat.eqb;
  of_int := fun z =>
    if 0 <=? z then PrimFloat.of_uint63 (Uint63.of_Z z)
    else PrimFloat.opp (PrimFloat.of_uint63 (Uint63.of_Z (- z)))
|}.

(** Exact rational arithmetic. *)
#[global] Instance Q_Num : Num Q := {|
  f0_0 := 0%Q;  f1_0 := 1%Q;  f0_5 := (5 # 10)%Q;
  f0_3 := (3 # 10)%Q;  f0_6 := (6 # 10)%Q;  f0_4 := (4 # 10)%Q;
  f0_7 := (7 # 10)%Q;
  fadd := Qplus;
  fmul := Qmult;
  fdiv := Qdiv;
  fltb := fun x y => negb (Qle_bool y x);
  feqb := Qeq_bool;
  of_int := inject_Z
|}.

(** [x != x], which holds of a NaN and of nothing else. *)
Definition isnan {F} `{Num F} (x : F) : bool := negb (feqb x x).

(** What sorting needs of the comparisons: [<] is asymmetric, "not below"
    is transitive on values that are not NaN, and two values equal to a
    third are not below each other.  Exact arithmetic and IEEE binary64
    both have these properties (instances [Q_Ordered], [float_Ordered]). *)
Class Ordered (F : Type) `{Num F} := {
  fltb_asym : forall x y : F, fltb x y = true -> fltb y x = false;
  fltb_negtrans : forall x y z : F,
    isnan x = false -> isnan y = false -> isnan z = false ->
    fltb x y = false -> fltb y z = false -> fltb x z = false;
  feqb_not_fltb : forall x y v : F,
    feqb x v = true -> feqb y v = true -> fltb x y = false
}.

(** ** Dynamically typed values and dictionaries *)

Inductive value (F : Type) :=
| VNone
| VInt (z : Z)
| VFloat (x : F)
| VStr (s : string)
| VDict (m : gmap string (value F)).
Arguments VNone {F}.
Arguments VInt {F} z.
Arguments VFloat {F} x.
Arguments VStr {F} s.
Arguments VDict {F} m.

(** [d.get(key, default)] *)
Definition get {F} (d : gmap string (value F)) (key : string) (dflt : value F) : value F :=
  default dflt (d !! key).

(** The receiver of [v.lower()]: only a [str] has the method. *)
Definition lower_receiver {F} (v : value F) : exc string :=
  match v with
  | VStr s => Ok s
  | _ => Raise (AttributeError "object has no attribute 'lower'")
  end.

(** The float operand that [0.6 * v] works on; anything that is not a
    number makes the multiplication raise [TypeError]. *)
Definition float_operand {F} `{Num F} (v : value F) : exc F :=
  match v with
  | VFloat x => Ok x
  | VInt z => Ok (of_int z)
  | _ => Raise (TypeError "unsupported operand type(s) for *")
  end.

(** Truth value of a [str]. *)
Definition truthy_str (s : string) : bool := negb (is_empty_str s).

(** [str(e)]; an [HTTPException] prints as ["status: detail"]. *)
Definition str_of_exception (e : exception) : string :=
  match e with
  | Exception msg | AttributeError msg | TypeError msg => msg
  | HTTPException status_code detail => pretty status_code +:+ ": " +:+ detail
  end.

End Py.
Import Py.

(* ===================================================================== *)
(** * utils/hybrid_search.py                                              *)
(* ===================================================================== *)

Module HybridSearch.

Section Engine.
Context {F : Type} `{Num F}.

Abbreviation pydict := (gmap string (value F)).

(** The attributes set by [HybridSearchEngine.__init__]. *)
Record HybridSearchEngine := {
  semantic_weight : F;
  keyword_weight : F;
  proximity_distance : Z
}.

(** [HybridSearchEngine(semantic_weight, keyword_weight)] *)
Definition init (semantic_weight keyword_weight : F) : HybridSearchEngine :=
  {| semantic_weight := semantic_weight;
     keyword_weight := keyword_weight;
     proximity_distance := 50 |}.

(** The module-level instance, built with the default arguments. *)
Definition hybrid_search_engine : HybridSearchEngine := init f0_7 f0_3.

(** The [while True] loop that collects the positions of [word]:
    [pos = text_lower.find(word, start)], stop at [-1], otherwise record
    [pos] and continue from [pos + 1].  [fuel] bounds the iterations;
    [word_positions] supplies enough of it (see [word_positions_spec]). *)
Fixpoint word_positions_loop (fuel : nat) (text_lower word : string) (start : Z)
  : list Z :=
  match fuel with
  | O => []
  | S fuel' =>
      let pos := find text_lower word start in
      if pos =? -1 then []
      else pos :: word_positions_loop fuel' text_lower word (pos + 1)
  end.

Definition word_positions (text_lower word : string) : list Z :=
  word_positions_loop (String.length text_lower + 2) text_lower word 0.

(** The first loop of [_calculate_proximity_bonus]: the query words that
    occur, each with the list of its positions. *)
Fixpoint words_found (query_words : list string) (text_lower : string)
  : list (string * list Z) :=
  match query_words with
  | [] => []
  | word :: rest =>
      let positions := word_positions text_lower word in
      match positions with
      | [] => words_found rest text_lower
      | _ :: _ => (word, positions) :: words_found rest text_lower
      end
  end.

(** [enumerate(l)] *)
Fixpoint enumerate_from {A} (i : nat) (l : list A) : list (nat * A) :=
  match l with
  | [] => []
  | x :: r => (i, x) :: enumerate_from (S i) r
  end.
Definition enumerate {A} (l : list A) : list (nat * A) := enumerate_from 0 l.

(** The nested loops of [_calculate_proximity_bonus].  The loop state is
    the pair [(proximity_bonus, proximity_bonus_applied)]; a [break] leaves
    the rest of the loop unvisited. *)
Fixpoint loop_pos2 (d pos1 : Z) (positions2 : list Z) (st : F * bool) : F * bool :=
  match positions2 with
  | [] => st
  | pos2 :: rest =>
      if Z.abs (pos1 - pos2) <=? d then (f0_3, true)
      else loop_pos2 d pos1 rest st
  end.

Fixpoint loop_pos1 (d : Z) (positions1 positions2 : list Z) (st : F * bool)
  : F * bool :=
  match positions1 with
  | [] => st
  | pos1 :: rest =>
      let st' := loop_pos2 d pos1 positions2 st in
      if snd st' then st' else loop_pos1 d rest positions2 st'
  end.

Fixpoint loop_j (d : Z) (i : nat) (positions1 : list Z)
    (found : list (nat * (string * list Z))) (st : F * bool) : F * bool :=
  match found with
  | [] => st
  | (j, (_, positions2)) :: rest =>
      let st' :=
        if negb (i =? j)%nat && negb (snd st)
        then loop_pos1 d positions1 positions2 st
        else st in
      if snd st' then st' else loop_j d i positions1 rest st'
  end.

Fixpoint loop_i (d : Z) (found_i found : list (nat * (string * list Z)))
    (st : F * bool) : F * bool :=
  match found_i with
  | [] => st
  | (i, (_, positions1)) :: rest =>
      loop_i d rest found (loop_j d i positions1 found st)
  end.

Definition _calculate_proximity_bonus (self : HybridSearchEngine)
    (query_words : list string) (text_lower : string) : F :=
  let found := words_found query_words text_lower in
  if (2 <=? length found)%nat
  then fst (loop_i (proximity_distance self) (enumerate found) (enumerate found)
                   (f0_0, false))
  else f0_0.

(** The loop over the query words: [(keyword_score, matched_words)]. *)
Fixpoint match_words (query_words : list string) (text_lower : string)
    (st : F * nat) : F * nat :=
  match query_words with
  | [] => st
  | word :: rest =>
      match_words rest text_lower
        (if contains word text_lower then (fadd (fst st) f1_0, S (snd st)) else st)
  end.

Definition calculate_keyword_score (self : HybridSearchEngine)
    (query_text document_text : string) : F :=
  let query_words := split (lower query_text) in
  let query_lower := lower query_text in
  let text_lower := lower document_text in
  match query_words with
  | [] => f0_0
  | _ :: _ =>
      let '(keyword_score, matched_words) :=
        match_words query_words text_lower (f0_0, 0%nat) in
      let keyword_score :=
        if (1 <? length query_words)%nat then
          if contains query_lower text_lower then fadd keyword_score f0_5
          else if (2 <=? matched_words)%nat then
            fadd keyword_score (_calculate_proximity_bonus self query_words text_lower)
          else keyword_score
        else keyword_score in
      fdiv keyword_score (of_int (Z.of_nat (length query_words)))
  end.

Definition calculate_hybrid_score (self : HybridSearchEngine)
    (semantic_score keyword_score : F) (matched_words total_words : nat) : F :=
  if (matched_words =? total_words)%nat
  then fadd (fmul f0_6 semantic_score) (fmul f0_4 keyword_score)
  else fadd (fmul (semantic_weight self) semantic_score)
            (fmul (keyword_weight self) keyword_score).

(** [sum(1 for word in query_words if word in document_text.lower())] *)
Definition count_matched (query_words : list string) (text_lower : string) : nat :=
  length (filter (fun word => contains word text_lower = true) query_words).

(** The body of the [for result in semantic_results] loop.  The first use
    of [document_text] is [document_text.lower()] and the first use of
    [semantic_score] is a float multiplication; either can raise. *)
Definition hybrid_result (self : HybridSearchEngine) (query_text : string)
    (query_words : list string) (result : pydict) : exc pydict :=
  let document_text := get result "text" (VStr "") in
  let semantic_score := get result "score" (VFloat f0_0) in
  document_text ← lower_receiver document_text;
  let keyword_score := calculate_keyword_score self query_text document_text in
  let matched_words := count_matched query_words (lower document_text) in
  score ← float_operand semantic_score;
  let hybrid_score :=
    calculate_hybrid_score self score keyword_score matched_words
      (length query_words) in
  Ok (<["keyword_score" := VFloat keyword_score]>
      (<["semantic_score" := semantic_score]>
       (<["score" := VFloat hybrid_score]> result))).

(** The key of the sort, [x['score']], read as a float. *)
Definition score_key (x : pydict) : F :=
  match x !! "score" with
  | Some (VFloat s) => s
  | Some (VInt z) => of_int z
  | _ => f0_0
  end.

(** [list.sort(key=..., reverse=True)] is a stable sort: elements with equal
    keys keep their order.  Insertion from the right end moves an element
    only past the elements whose key is strictly greater. *)
Fixpoint insert_desc {A} (key : A -> F) (x : A) (l : list A) : list A :=
  match l with
  | [] => [x]
  | y :: r => if fltb (key x) (key y) then y :: insert_desc key x r else x :: y :: r
  end.

Fixpoint sort_desc {A} (key : A -> F) (l : list A) : list A :=
  match l with
  | [] => []
  | x :: r => insert_desc key x (sort_desc key r)
  end.

Definition rerank_results (self : HybridSearchEngine) (query_text : string)
    (semantic_results : list pydict) : exc (list pydict) :=
  let query_words := split (lower query_text) in
  match query_words with
  | [] => Ok semantic_results
  | _ :: _ =>
      hybrid_results ← for_each (hybrid_result self query_text query_words)
                                semantic_results;
      Ok (sort_desc score_key hybrid_results)
  end.

(** [semantic_search_func(query_text, limit, filter_dict)]: supplied by the
    caller. *)
Definition semantic_search := string -> Z -> option pydict -> exc (list pydict).

Definition search (self : HybridSearchEngine) (query_text : string)
    (semantic_search_func : semantic_search) (limit : Z)
    (filter_dict : option pydict) : exc (list pydict) :=
  try_except
    (let semantic_limit := Z.max (limit * 4) 20 in
     semantic_results ← semantic_search_func query_text semantic_limit filter_dict;
     match semantic_results with
     | [] => Ok []
     | _ :: _ =>
         hybrid_results ← rerank_results self query_text semantic_results;
         Ok (slice_to hybrid_results limit)
     end)
    (fun _ => semantic_search_func query_text limit filter_dict).

(** ** Notions the statements below use *)

(** Some entry of [found] other than entry [i] has a position within [d]
    of one of [positions1]. *)
Definition close_to (d : Z) (i : nat) (positions1 : list Z)
    (found : list (nat * (string * list Z))) : Prop :=
  exists j word2 positions2 pos1 pos2,
    (j, (word2, positions2)) ∈ found /\ i <> j /\
    pos1 ∈ positions1 /\ pos2 ∈ positions2 /\ Z.abs (pos1 - pos2) <= d.

(** [result.get('text', '')] when it is a [str]. *)
Definition text_of (result : pydict) : string :=
  match get result "text" (VStr "") with
  | VStr s => s
  | _ => ""
  end.

(** A semantic result as the gateway's [search] produces it: the text, if
    present, is a [str] and the score, if present, is a number. *)
Definition is_semantic_result (result : pydict) : Prop :=
  (exists text, get result "text" (VStr "") = VStr text) /\
  (exists score, float_operand (get result "score" (VFloat f0_0)) = Ok score).

(** The dictionary that the loop of [rerank_results] builds for [result]
    once the hybrid score is known. *)
Definition enhanced (self : HybridSearchEngine) (query_text : string)
    (hybrid_score : F) (result : pydict) : pydict :=
  <["keyword_score" :=
      VFloat (calculate_keyword_score self query_text (text_of result))]>
  (<["semantic_score" := get result "score" (VFloat f0_0)]>
   (<["score" := VFloat hybrid_score]> result)).

(** Two different entries of [found] have positions within [d] of each
    other. *)
Definition close_pair (d : Z) (found : list (string * list Z)) : Prop :=
  exists i j word1 positions1 word2 positions2 pos1 pos2,
    found !! i = Some (word1, positions1) /\
    found !! j = Some (word2, positions2) /\ i <> j /\
    pos1 ∈ positions1 /\ pos2 ∈ positions2 /\ Z.abs (pos1 - pos2) <= d.

End Engine.

Arguments HybridSearchEngine F : clear implicits.

(** Descending order of the keys: no element's key is below the key of a
    later element ([key a < key b] is false for every [a] before [b]). *)
Definition descending {F} `{Num F} {A} (key : A -> F) (l : list A) : Prop :=
  StronglySorted (fun a b => fltb (key a) (key b) = false) l.

(** The elements of [l] whose key equals [v], in the order of [l]. *)
Definition with_key {F} `{Num F} {A} (key : A -> F) (v : F) (l : list A)
  : list A :=
  List.filter (fun a => feqb (key a) v) l.

(** What [calculate_keyword_score] added on top of the word matches,
    recovered from the score in exact arithmetic: the score times the
    number of query words, minus the number of matched words. *)
Definition added_bonus (self : HybridSearchEngine Q) (query_text document_text : string)
  : Q :=
  let query_words := split (lower query_text) in
  (calculate_keyword_score self query_text document_text
     * inject_Z (Z.of_nat (length query_words))
   - inject_Z (Z.of_nat (count_matched query_words (lower document_text))))%Q.

End HybridSearch.

(* ===================================================================== *)
(** * models.py and the state the handlers work on                        *)
(* ===================================================================== *)

Module Models.

(** Row of table [documents]. *)
Record Document := {
  id : Z;
  user_id : option Z;
  filename : string;
  original_filename : string;
  file_path : string;
  file_size : Z;
  content_type : option string;
  created_at : string;
  vectorization_status : string;            (* pending, completed, failed *)
  vectorization_error : option string;
  chunks_count : Z
}.

(** Row of table [document_chunks]. *)
Record DocumentChunk := {
  chunk_id : Z;
  document_id : Z;
  chunk_index : Z;
  text_content : string;
  vector_id : option string;
  character_count : option Z
}.

Definition set_status (status : string) (error : option string) (d : Document)
  : Document :=
  {| id := id d; user_id := user_id d; filename := filename d;
     original_filename := original_filename d; file_path := file_path d;
     file_size := file_size d; content_type := content_type d;
     created_at := created_at d;
     vectorization_status := status;
     vectorization_error := error;
     chunks_count := chunks_count d |}.

Definition set_chunks_count (n : Z) (d : Document) : Document :=
  {| id := id d; user_id := user_id d; filename := filename d;
     original_filename := original_filename d; file_path := file_path d;
     file_size := file_size d; content_type := content_type d;
     created_at := created_at d;
     vectorization_status := vectorization_status d;
     vectorization_error := vectorization_error d;
     chunks_count := n |}.

End Models.

Module App.
Import Models.

Section World.
Context {F : Type} `{Num F}.

Abbreviation pydict := (gmap string (value F)).

(** A point of the vector store: [PointStruct(id, vector, payload)]. *)
Record PointStruct := {
  point_id : string;
  vector : list F;
  payload : pydict
}.

(** A hit returned by the vector store. *)
Record ScoredPoint := {
  sp_id : string;
  sp_score : F;
  sp_payload : pydict
}.

(** The attributes of the process-wide [QdrantVectorClient] object;
    [true] stands for a handle, [false] for [None]. *)
Record QdrantVectorClient := {
  client : bool;
  collection_name : option string;
  embedding_model : bool
}.

(** Everything a request can read or change. *)
Record World := {
  documents : gmap Z Document;             (* table documents, by id *)
  document_chunks : gmap Z DocumentChunk;  (* table document_chunks, by id *)
  next_document_id : Z;                    (* the autoincrement counter *)
  files : gmap string (list Byte.byte);    (* the file system, by path *)
  collections : gmap string (list PointStruct);  (* the Qdrant server *)
  qdrant_client : QdrantVectorClient;      (* the global gateway object *)
  uuids_drawn : nat                        (* calls of uuid.uuid4() so far *)
}.

(** What the world outside the process answers during one request. *)
Record Backend := {
  now : string;                            (* datetime.now().strftime(...) *)
  server_now : string;                     (* func.now() of the database *)
  uuid4 : nat -> string;                   (* the n-th uuid *)
  env_collection_name : string;            (* COLLECTION_NAME or its default *)
  qdrant_connect : exc unit;               (* QdrantClient(host, port) *)
  get_collections : exc unit;              (* client.get_collections() *)
  create_collection : exc unit;            (* client.create_collection(...) *)
  load_model : exc unit;                   (* SentenceTransformer(name) *)
  encode : string -> exc (list F);         (* embedding_model.encode(text) *)
  upsert : exc unit;                       (* client.upsert(...) *)
  search_points : list F -> option pydict -> Z -> exc (list ScoredPoint);
                                           (* client.search(...) *)
  pdf_page_texts : list Byte.byte -> exc (list string);
                                           (* PdfReader(...).pages, extracted *)
  split_text : string -> exc (list string);      (* splitter 800/150 *)
  split_text_url : string -> exc (list string);  (* splitter 1000/200 *)
  render_page : string -> option string -> exc (bool * string * list Byte.byte);
                     (* Playwright: (success, extracted_text) and the PDF *)
  tmp_name : string;                       (* NamedTemporaryFile(...).name *)
  compare_id : value F -> exc (option Z)
                     (* [Document.id == v] for a value [v] that is not an
                        [int]: the id that the database compares equal to
                        [v], if there is one; raises when [v] cannot be
                        bound as a parameter *)
}.

(** State and exceptions: a computation reads and changes the [World] and
    either returns or raises. *)
Record stexc (A : Type) : Type := StExc { run : World -> World * exc A }.
Arguments StExc {A} _.
Arguments run {A} _ _.

#[global] Instance stexc_ret : MRet stexc := fun _ a => StExc (fun w => (w, Ok a)).
#[global] Instance stexc_bind : MBind stexc := fun _ _ f m =>
  StExc (fun w =>
    match run m w with
    | (w', Ok a) => run (f a) w'
    | (w', Raise e) => (w', Raise e)
    end).

Definition raise {A} (e : exception) : stexc A := StExc (fun w => (w, Raise e)).
Definition lift {A} (m : exc A) : stexc A := StExc (fun w => (w, m)).
Definition read {A} (f : World -> A) : stexc A := StExc (fun w => (w, Ok (f w))).
Definition modify (f : World -> World) : stexc unit := StExc (fun w => (f w, Ok tt)).

(** [try: body except Exception as e: handler e]; what [body] changed
    before it raised stays changed. *)
Definition try_ {A} (body : stexc A) (handler : exception -> stexc A) : stexc A :=
  StExc (fun w =>
    match run body w with
    | (w', Ok a) => (w', Ok a)
    | (w', Raise e) => run (handler e) w'
    end).

(** ** World updates *)

Definition with_documents (f : gmap Z Document -> gmap Z Document) (w : World) : World :=
  {| documents := f (documents w); document_chunks := document_chunks w;
     next_document_id := next_document_id w; files := files w;
     collections := collections w; qdrant_client := qdrant_client w;
     uuids_drawn := uuids_drawn w |}.

Definition with_document_chunks
    (f : gmap Z DocumentChunk -> gmap Z DocumentChunk) (w : World) : World :=
  {| documents := documents w; document_chunks := f (document_chunks w);
     next_document_id := next_document_id w; files := files w;
     collections := collections w; qdrant_client := qdrant_client w;
     uuids_drawn := uuids_drawn w |}.

Definition with_next_document_id (n : Z) (w : World) : World :=
  {| documents := documents w; document_chunks := document_chunks w;
     next_document_id := n; files := files w;
     collections := collections w; qdrant_client := qdrant_client w;
     uuids_drawn := uuids_drawn w |}.

Definition with_files
    (f : gmap string (list Byte.byte) -> gmap string (list Byte.byte)) (w : World)
  : World :=
  {| documents := documents w; document_chunks := document_chunks w;
     next_document_id := next_document_id w; files := f (files w);
     collections := collections w; qdrant_client := qdrant_client w;
     uuids_drawn := uuids_drawn w |}.

Definition with_collections
    (f : gmap string (list PointStruct) -> gmap string (list PointStruct))
    (w : World) : World :=
  {| documents := documents w; document_chunks := document_chunks w;
     next_document_id := next_document_id w; files := files w;
     collections := f (collections w); qdrant_client := qdrant_client w;
     uuids_drawn := uuids_drawn w |}.

Definition with_qdrant_client (f : QdrantVectorClient -> QdrantVectorClient)
    (w : World) : World :=
  {| documents := documents w; document_chunks := document_chunks w;
     next_document_id := next_document_id w; files := files w;
     collections := collections w; qdrant_client := f (qdrant_client w);
     uuids_drawn := uuids_drawn w |}.

Definition with_uuids_drawn (n : nat) (w : World) : World :=
  {| documents := documents w; document_chunks := document_chunks w;
     next_document_id := next_document_id w; files := files w;
     collections := collections w; qdrant_client := qdrant_client w;
     uuids_drawn := n |}.

(** [uuid.uuid4()] *)
Definition draw_uuid (b : Backend) : stexc string :=
  StExc (fun w => (with_uuids_drawn (S (uuids_drawn w)) w, Ok (uuid4 b (uuids_drawn w)))).

(** ** The SQLAlchemy session *)

(** [db.add(doc); db.commit(); db.refresh(doc)]: the row gets the next id
    and the server-side default of [created_at]. *)
Definition db_add (b : Backend) (d : Document) : stexc Document :=
  StExc (fun w =>
    let row :=
      {| id := next_document_id w; user_id := user_id d; filename := filename d;
         original_filename := original_filename d; file_path := file_path d;
         file_size := file_size d; content_type := content_type d;
         created_at := server_now b;
         vectorization_status := vectorization_status d;
         vectorization_error := vectorization_error d;
         chunks_count := chunks_count d |} in
    (with_next_document_id (next_document_id w + 1)
       (with_documents (insert (id row) row) w), Ok row)).

(** [db.commit(); db.refresh(doc)] after attribute assignments on [doc]. *)
Definition db_update (d : Document) : stexc Document :=
  StExc (fun w => (with_documents (insert (id d) d) w, Ok d)).

(** [db.delete(doc); db.commit()].  The relationship [Document.chunks] has
    [cascade="all, delete-orphan"]: the chunk rows of the document go too. *)
Definition db_delete (d : Document) : stexc unit :=
  modify (fun w =>
    with_document_chunks
      (filter (fun kv => document_id (snd kv) ≠ id d))
      (with_documents (delete (id d)) w)).

(** [db.query(Document).filter(Document.id == doc_id).first()] *)
Definition db_get (doc_id : Z) : stexc (option Document) :=
  read (fun w => documents w !! doc_id).

(** ** The file system *)

(** [with open(path, "wb") as f: f.write(content)] *)
Definition write_file (path : string) (content : list Byte.byte) : stexc unit :=
  modify (with_files (insert path content)).

(** [if os.path.exists(path): os.remove(path)] *)
Definition remove_if_exists (path : string) : stexc unit :=
  modify (with_files (delete path)).

(** ** Notions the statements below use *)

(** [w'] has the same relational rows and the same files as [w]. *)
Definition same_store (w w' : World) : Prop :=
  documents w' = documents w /\ document_chunks w' = document_chunks w /\
  next_document_id w' = next_document_id w /\ files w' = files w.

(** The three initialisation steps would succeed: the client can be
    built, the collections can be listed, the collection exists or can be
    created, and the embedding model loads. *)
Definition backend_ready (b : Backend) (w : World) : bool :=
  is_Ok (qdrant_connect b) && is_Ok (get_collections b) &&
  (bool_decide (is_Some (collections w !! env_collection_name b))
   || is_Ok (create_collection b)) &&
  is_Ok (load_model b).

(** Point [p] of the vector store carries entry [doc] of the batch, whose
    position in the batch is [i]. *)
Definition point_carries (i : nat) (doc : pydict) (p : PointStruct) : Prop :=
  payload p !! "chunk_index" = Some (get doc "chunk_index" (VInt (Z.of_nat i))) /\
  payload p !! "text" = Some (get doc "text" (VStr "")) /\
  payload p !! "document_id" = Some (get doc "document_id" VNone).

(** Point [p] of the vector store is chunk number [i] of document
    [doc_id], with text [chunk]. *)
Definition stored_chunk (doc_id : Z) (i : nat) (chunk : string) (p : PointStruct)
  : Prop :=
  payload p !! "chunk_index" = Some (VInt (Z.of_nat i)) /\
  payload p !! "text" = Some (VStr chunk) /\
  payload p !! "document_id" = Some (VInt doc_id).

(** No row of [document_chunks] belongs to document [doc_id]. *)
Definition no_chunks_of (doc_id : Z) (w : World) : Prop :=
  forall k chunk, document_chunks w !! k = Some chunk -> document_id chunk <> doc_id.

End World.

Arguments PointStruct F : clear implicits.
Arguments ScoredPoint F : clear implicits.
Arguments World F : clear implicits.
Arguments Backend F : clear implicits.
Arguments stexc F : clear implicits.
Arguments StExc {F A} _.
Arguments run {F A} _ _.

End App.

(* ===================================================================== *)
(** * utils/qdrant_client.py                                              *)
(* ===================================================================== *)

Module QdrantClient.
Import App.

Section Gateway.
Context {F : Type} `{Num F}.

Abbreviation pydict := (gmap string (value F)).
Abbreviation M := (stexc F).

Definition set_client (c : bool) (g : QdrantVectorClient) : QdrantVectorClient :=
  {| client := c; collection_name := collection_name g;
     embedding_model := embedding_model g |}.

Definition set_collection_name (n : option string) (g : QdrantVectorClient)
  : QdrantVectorClient :=
  {| client := client g; collection_name := n;
     embedding_model := embedding_model g |}.

Definition set_embedding_model (m : bool) (g : QdrantVectorClient)
  : QdrantVectorClient :=
  {| client := client g; collection_name := collection_name g;
     embedding_model := m |}.

Definition connect (b : Backend F) : M bool :=
  try_
    (lift (qdrant_connect b);;
     modify (with_qdrant_client (set_client true));;
     mret true)
    (fun _ => mret false).

Definition load_embedding_model (b : Backend F) : M bool :=
  try_
    (lift (load_model b);;
     modify (with_qdrant_client (set_embedding_model true));;
     mret true)
    (fun _ => mret false).

Definition initialize_collection (b : Backend F) : M bool :=
  try_
    (modify (with_qdrant_client (set_collection_name (Some (env_collection_name b))));;
     g ← read qdrant_client;
     (if client g then lift (get_collections b)
      else raise (AttributeError "'NoneType' object has no attribute 'get_collections'"));;
     existing ← read collections;
     (match existing !! env_collection_name b with
      | Some _ => mret tt
      | None =>
          lift (create_collection b);;
          modify (with_collections (insert (env_collection_name b) []))
      end);;
     mret true)
    (fun _ => mret false).

(** The loop of [insert_documents] that builds the points. *)
Fixpoint build_points (b : Backend F) (documents : list (nat * pydict))
  : M (list (PointStruct F)) :=
  match documents with
  | [] => mret []
  | (i, doc) :: rest =>
      let text := get doc "text" (VStr "") in
      embedding ←
        match text with
        | VStr s => lift (encode b s)
        | _ => raise (TypeError "encode expects text")
        end;
      point_id ← draw_uuid b;
      let point :=
        {| point_id := point_id;
           vector := embedding;
           payload :=
             <["chunk_index" := get doc "chunk_index" (VInt (Z.of_nat i))]>
             (<["filename" := get doc "filename" VNone]>
              (<["user_id" := get doc "user_id" VNone]>
               (<["document_id" := get doc "document_id" VNone]>
                (<["text" := text]> ∅)))) |} in
      points ← build_points b rest;
      mret (point :: points)
  end.

Definition insert_documents (b : Backend F) (documents : list pydict) : M bool :=
  try_
    (g ← read qdrant_client;
     (if client g && embedding_model g then mret tt
      else raise (Exception "Client or embedding model not initialized"));;
     points ← build_points b (HybridSearch.enumerate documents);
     lift (upsert b);;
     match collection_name g with
     | Some name =>
         modify (with_collections
                   (fun cs => <[name := default [] (cs !! name) ++ points]> cs));;
         mret true
     | None => raise (Exception "collection name is missing")
     end)
    (fun _ => mret false).

(** One formatted hit of [search]. *)
Definition format_result (scored_point : ScoredPoint F) : pydict :=
  let p := sp_payload scored_point in
  <["metadata" :=
      VDict (<["chunk_index" := get p "chunk_index" VNone]>
             (<["filename" := get p "filename" VNone]>
              (<["user_id" := get p "user_id" VNone]>
               (<["document_id" := get p "document_id" VNone]> ∅))))]>
  (<["text" := get p "text" (VStr "")]>
   (<["score" := VFloat (sp_score scored_point)]>
    (<["id" := VStr (sp_id scored_point)]> ∅))).

(** [Filter(must=conditions)], or [None] for a missing or empty filter. *)
Definition query_filter (filter_dict : option pydict) : option pydict :=
  match filter_dict with
  | Some d => match map_to_list d with [] => None | _ :: _ => Some d end
  | None => None
  end.

Definition search (b : Backend F) (query_text : string) (limit : Z)
    (filter_dict : option pydict) : M (list pydict) :=
  try_
    (g ← read qdrant_client;
     (if client g && embedding_model g then mret tt
      else raise (Exception "Client or embedding model not initialized"));;
     query_embedding ← lift (encode b query_text);
     search_result ← lift (search_points b query_embedding (query_filter filter_dict) limit);
     mret (map format_result search_result))
    (fun _ => mret []).

(** [hybrid_search]: the module-level engine, with [self.search] as the
    semantic search function. *)
Definition hybrid_search (b : Backend F) (query_text : string) (limit : Z)
    (filter_dict : option pydict) : M (list pydict) :=
  StExc (fun w =>
    (w, HybridSearch.search HybridSearch.hybrid_search_engine query_text
          (fun q k f => snd (run (search b q k f) w)) limit filter_dict)).

End Gateway.
End QdrantClient.

(* ===================================================================== *)
(** * utils/pdf_processor.py                                              *)
(* ===================================================================== *)

Module PDFProcessor.
Import App.

Definition is_lower (c : ascii) : bool :=
  let n := nat_of_ascii c in (97 <=? n)%nat && (n <=? 122)%nat.

Fixpoint lstrip (s : string) : string :=
  match s with
  | EmptyString => EmptyString
  | String c r => if isspace c then lstrip r else s
  end.

Fixpoint rev_append_str (s acc : string) : string :=
  match s with
  | EmptyString => acc
  | String c r => rev_append_str r (String c acc)
  end.

Definition rev_str (s : string) : string := rev_append_str s EmptyString.

(** [s.strip()] *)
Definition strip (s : string) : string := rev_str (lstrip (rev_str (lstrip s))).

(** [re.sub(r'\s+', ' ', text)] *)
Fixpoint collapse_whitespace (in_run : bool) (s : string) : string :=
  match s with
  | EmptyString => EmptyString
  | String c r =>
      if isspace c
      then (if in_run then collapse_whitespace true r
            else String " " (collapse_whitespace true r))
      else String c (collapse_whitespace false r)
  end.

(** [text.replace('- ', '')] *)
Fixpoint remove_hyphen_space (s : string) : string :=
  match s with
  | EmptyString => EmptyString
  | String c r =>
      match r with
      | String c' r' =>
          if Ascii.eqb c "-" && Ascii.eqb c' " " then remove_hyphen_space r'
          else String c (remove_hyphen_space r)
      | EmptyString => s
      end
  end.

(** [re.sub(r'([a-z])([A-Z])', r'\1 \2', text)] *)
Fixpoint space_case_boundaries (s : string) : string :=
  match s with
  | EmptyString => EmptyString
  | String c r =>
      match r with
      | String c' _ =>
          if is_lower c && is_upper c'
          then String c (String " " (space_case_boundaries r))
          else String c (space_case_boundaries r)
      | EmptyString => s
      end
  end.

Definition clean_text (text : string) : string :=
  let text := collapse_whitespace false text in
  let text := remove_hyphen_space text in
  let text := space_case_boundaries text in
  strip text.

(** The loop over the pages: a page with text adds its header and text. *)
Fixpoint join_pages (page_num : nat) (pages : list string) (text : string) : string :=
  match pages with
  | [] => text
  | page_text :: rest =>
      join_pages (S page_num) rest
        (if truthy_str page_text
         then text +:+ String "010" "--- Page " +:+ pretty (S page_num) +:+ " ---"
                   +:+ String "010" "" +:+ page_text
         else text)
  end.

Section Processor.
Context {F : Type} `{Num F}.

(** The [except Exception: ...; raise] of the source re-raises what it
    caught. *)
Definition extract_text_from_pdf (b : Backend F) (pdf_content : list Byte.byte)
  : exc string :=
  pages ← pdf_page_texts b pdf_content;
  let text := join_pages 0 pages "" in
  if truthy_str (strip text) then Ok (strip text)
  else Raise (Exception "No text could be extracted from the PDF").

Definition chunk_text (b : Backend F) (text : string) : exc (list string) :=
  split_text b (clean_text text).

Definition process_pdf_to_chunks (b : Backend F) (pdf_content : list Byte.byte)
  : exc (list string) :=
  text ← extract_text_from_pdf b pdf_content;
  chunk_text b text.

End Processor.
End PDFProcessor.

(* ===================================================================== *)
(** * routers/document.py                                                 *)
(* ===================================================================== *)

Module DocumentRouter.
Import App Models.

Definition UPLOAD_DIR : string := "uploads/pdfs".

(** [os.path.join(UPLOAD_DIR, name)] *)
Definition path_join (dir name : string) : string := dir +:+ "/" +:+ name.

Definition isalnum (c : ascii) : bool :=
  let n := nat_of_ascii c in
  ((48 <=? n)%nat && (n <=? 57)%nat) || is_upper c || PDFProcessor.is_lower c.

(** [''.join(c for c in name if c.isalnum() or c in ['.', '_', '-'])] *)
Fixpoint clean_filename (name : string) : string :=
  match name with
  | EmptyString => EmptyString
  | String c r =>
      if isalnum c || Ascii.eqb c "." || Ascii.eqb c "_" || Ascii.eqb c "-"
      then String c (clean_filename r)
      else clean_filename r
  end.

(** [s.endswith(suffix)] *)
Definition endswith (s suffix : string) : bool :=
  startswith (PDFProcessor.rev_str s) (PDFProcessor.rev_str suffix).

(** The uploaded file: [file.filename], [file.content_type] and the bytes
    that [await file.read()] returns. *)
Record UploadFile := {
  file_filename : string;
  file_content_type : option string;
  file_content : list Byte.byte
}.

(** The request body of [/url-to-pdf].  [generated_filename] is the name
    that lines 342-347 of the source derive from the parsed URL. *)
Record UrlToPdfRequest := {
  url : string;
  cookies : option string;
  generated_filename : string
}.

(** The dictionary both ingestion handlers return. *)
Record DocumentResponse := {
  r_id : Z;
  r_filename : string;
  r_original_filename : string;
  r_file_size : Z;
  r_content_type : string;
  r_created_at : string;
  r_vectorization_status : string;
  r_chunks_count : Z
}.

Definition response_of (d : Document) : DocumentResponse :=
  {| r_id := id d;
     r_filename := filename d;
     r_original_filename := original_filename d;
     r_file_size := file_size d;
     r_content_type :=
       match content_type d with
       | Some c => if truthy_str c then c else "application/pdf"
       | None => "application/pdf"
       end;
     r_created_at := created_at d;
     r_vectorization_status := vectorization_status d;
     r_chunks_count := chunks_count d |}.

Section Handlers.
Context {F : Type} `{Num F}.

Abbreviation pydict := (gmap string (value F)).
Abbreviation M := (stexc F).

(** The path under which an ingestion call that starts in world [w]
    stores the blob of a document named [name]. *)
Definition blob_path (b : Backend F) (w : World F) (name : string) : string :=
  path_join UPLOAD_DIR
    (now b +:+ "_" +:+ uuid4 b (uuids_drawn w) +:+ "_" +:+ clean_filename name).

Definition initialize_qdrant (b : Backend F) : M bool :=
  try_
    (connected ← QdrantClient.connect b;
     if negb connected then mret false else
     initialized ← QdrantClient.initialize_collection b;
     if negb initialized then mret false else
     loaded ← QdrantClient.load_embedding_model b;
     if negb loaded then mret false else
     mret true)
    (fun _ => mret false).

(** The list [documents_for_qdrant] that both handlers build. *)
Definition documents_for_qdrant (db_document : Document) (name : string)
    (chunks : list string) : list pydict :=
  map (fun '(i, chunk) =>
         <["created_at" := VStr (created_at db_document)]>
         (<["chunk_index" := VInt (Z.of_nat i)]>
          (<["filename" := VStr name]>
           (<["user_id" := VNone]>
            (<["document_id" := VInt (id db_document)]>
             (<["text" := VStr chunk]> (∅ : pydict)))))))
      (HybridSearch.enumerate chunks).

(** The [Document(...)] both handlers create first. *)
Definition new_document (new_filename original file_path : string) (size : Z)
    (ctype : option string) (status : string) (error : option string) : Document :=
  {| id := 0; user_id := None; filename := new_filename;
     original_filename := original; file_path := file_path;
     file_size := size; content_type := ctype; created_at := "";
     vectorization_status := status;
     vectorization_error := error;
     chunks_count := 0 |}.

(** The body of the vectorization [try] block, which the two ingestion
    handlers spell out in the same way (lines 130-159 and 408-439): make
    sure the gateway is initialised, get the chunks, build the batch,
    insert it, and on success mark the document as completed.  [chunking]
    is the handler's own way to the chunks, which runs after the
    initialisation: [pdf_processor.process_pdf_to_chunks(file_content)]
    for an upload, [text_splitter.split_text(extracted_text)] for a URL. *)
Definition vectorize (b : Backend F) (chunking : exc (list string)) (name : string)
    (db_document : Document) : M Document :=
  ready ← initialize_qdrant b;
  (if ready : bool then mret tt
   else raise (Exception "Failed to initialize Qdrant"));;
  chunks ← lift chunking;
  let documents := documents_for_qdrant db_document name chunks in
  inserted ← QdrantClient.insert_documents b documents;
  if inserted : bool
  then mret (set_chunks_count (Z.of_nat (length chunks))
               (set_status "completed" (vectorization_error db_document)
                  db_document))
  else raise (Exception "Failed to insert documents into Qdrant").

Definition upload_pdf (b : Backend F) (file : UploadFile) : M DocumentResponse :=
  if negb (endswith (lower (file_filename file)) ".pdf")
  then raise (HTTPException 400 "Only PDF files are allowed")
  else
  try_
    (let file_content := file_content file in
     let timestamp := now b in
     unique_id ← draw_uuid b;
     let original_filename := file_filename file in
     let clean_filename := clean_filename original_filename in
     let new_filename := timestamp +:+ "_" +:+ unique_id +:+ "_" +:+ clean_filename in
     let file_path := path_join UPLOAD_DIR new_filename in
     write_file file_path file_content;;
     let file_size := Z.of_nat (length file_content) in
     try_
       (db_document ←
          db_add b (new_document new_filename original_filename file_path file_size
                      (file_content_type file) "pending" None);
        db_document ←
          try_
            (vectorize b (PDFProcessor.process_pdf_to_chunks b file_content)
               original_filename db_document)
            (fun vectorization_error =>
               let db_document :=
                 set_status "failed" (Some (str_of_exception vectorization_error))
                   db_document in
               remove_if_exists file_path;;
               db_delete db_document;;
               raise (HTTPException 500
                        ("PDF processing failed: "
                           +:+ str_of_exception vectorization_error)));
        db_document ← db_update db_document;
        mret (response_of db_document))
       (fun db_error =>
          remove_if_exists file_path;;
          raise (HTTPException 500
                   ("Database error: " +:+ str_of_exception db_error))))
    (fun e =>
       raise (HTTPException 500 ("Upload failed: " +:+ str_of_exception e))).

(** The answer of [/search]. *)
Record SearchResponse := {
  s_query : string;
  s_results : list pydict;
  s_total_results : Z;
  s_message : option string;
  s_search_params : option (Z * option F)
}.

(** Truth value of a Python object: [None], [0], [0.0], [''] and [{}]
    are false. *)
Definition truthy (v : value F) : bool :=
  match v with
  | VNone => false
  | VInt z => negb (z =? 0)
  | VFloat x => negb (feqb x f0_0)
  | VStr s => truthy_str s
  | VDict m => negb (Nat.eqb (size m) 0)
  end.

(** The id that the database compares equal to [doc_id]: an [int] is
    compared as it is, for any other value the database decides. *)
Definition matching_id (b : Backend F) (doc_id : value F) : exc (option Z) :=
  match doc_id with
  | VInt z => Ok (Some z)
  | _ => compare_id b doc_id
  end.

(** [db.query(Document).filter(Document.id == doc_id).first()] for the
    value [doc_id] of a payload. *)
Definition db_first_by_id (b : Backend F) (doc_id : value F)
  : M (option Document) :=
  key ← lift (matching_id b doc_id);
  match key with
  | Some z => db_get z
  | None => mret None
  end.

(** The body of the loop that formats the hits; [None] stands for
    [continue].  The inner [try]/[except] turns an exception into
    [continue] as well. *)
Definition format_hit (b : Backend F) (min_confidence : option F)
    (result : pydict) : M (option pydict) :=
  try_
    (below ←
       match min_confidence with
       | Some mc =>
           if feqb mc f0_0 then mret false else
           score ← lift (float_operand (get result "score" (VInt 0)));
           mret (fltb score mc)
       | None => mret false
       end;
     if below : bool then mret None else
     metadata ←
       match get result "metadata" (VDict ∅) with
       | VDict m => mret m
       | _ => raise (AttributeError "object has no attribute 'get'")
       end;
     let doc_id := get metadata "document_id" VNone in
     if negb (truthy doc_id) then mret None else
     document ← db_first_by_id b doc_id;
     match document with
     | Some document =>
         mret (Some
           (<["created_at" := VStr (created_at document)]>
            (<["confidence" := get result "score" (VFloat f0_0)]>
             (<["text" := get result "text" (VStr "")]>
              (<["chunk_index" := get metadata "chunk_index" (VInt 0)]>
               (<["filename" := VStr (original_filename document)]>
                (<["document_id" := doc_id]> (∅ : pydict))))))))
     | None => mret None
     end)
    (fun _ => mret None).

Fixpoint format_hits (b : Backend F) (min_confidence : option F)
    (results : list pydict) : M (list pydict) :=
  match results with
  | [] => mret []
  | result :: rest =>
      formatted ← format_hit b min_confidence result;
      others ← format_hits b min_confidence rest;
      mret (match formatted with Some r => r :: others | None => others end)
  end.

Definition search_documents (b : Backend F) (query : string) (limit : Z)
    (min_confidence : option F) : M SearchResponse :=
  try_
    (ready ← initialize_qdrant b;
     (if ready : bool then mret tt
      else raise (HTTPException 500 "Vector search service unavailable"));;
     search_results ← QdrantClient.search b query limit None;
     match search_results with
     | [] =>
         mret {| s_query := query; s_results := []; s_total_results := 0;
                 s_message := Some "No results found";
                 s_search_params := None |}
     | _ :: _ =>
         formatted_results ← format_hits b min_confidence search_results;
         mret {| s_query := query; s_results := formatted_results;
                 s_total_results := Z.of_nat (length formatted_results);
                 s_message := None;
                 s_search_params := Some (limit, min_confidence) |}
     end)
    (fun e =>
       match e with
       | HTTPException _ _ => raise e
       | _ => raise (HTTPException 500 ("Search failed: " +:+ str_of_exception e))
       end).

Definition create_pdf_document_without_vectorization (b : Backend F)
    (pdf_path original_filename error_reason : string) : M DocumentResponse :=
  try_
    (fs ← read files;
     pdf_content ←
       match fs !! pdf_path with
       | Some content => mret content
       | None => raise (Exception "No such file or directory")
       end;
     let timestamp := now b in
     unique_id ← draw_uuid b;
     let clean_filename := clean_filename original_filename in
     let new_filename := timestamp +:+ "_" +:+ unique_id +:+ "_" +:+ clean_filename in
     let file_path := path_join UPLOAD_DIR new_filename in
     write_file file_path pdf_content;;
     db_document ←
       db_add b (new_document new_filename original_filename file_path
                   (Z.of_nat (length pdf_content)) (Some "application/pdf")
                   "failed" (Some error_reason));
     mret (response_of db_document))
    (fun e =>
       raise (HTTPException 500
                ("Failed to save PDF document: " +:+ str_of_exception e))).

Definition url_to_pdf (b : Backend F) (url_request : UrlToPdfRequest)
  : M DocumentResponse :=
  try_
    (let generated_filename := generated_filename url_request in
     write_file (tmp_name b) [];;
     '(success, extracted_text, rendered) ←
        lift (render_page b (url url_request) (cookies url_request));
     let extracted_text := if success : bool then extracted_text else "" in
     write_file (tmp_name b) rendered;;
     if truthy_str extracted_text && (100 <? String.length extracted_text)%nat
     then
       outcome ←
         try_
           (fs ← read files;
            pdf_content ←
              match fs !! tmp_name b with
              | Some content => mret content
              | None => raise (Exception "No such file or directory")
              end;
            let timestamp := now b in
            unique_id ← draw_uuid b;
            let clean_filename := clean_filename generated_filename in
            let new_filename :=
              timestamp +:+ "_" +:+ unique_id +:+ "_" +:+ clean_filename in
            let file_path := path_join UPLOAD_DIR new_filename in
            write_file file_path pdf_content;;
            db_document ←
              db_add b (new_document new_filename generated_filename file_path
                          (Z.of_nat (length pdf_content)) (Some "application/pdf")
                          "pending" None);
            db_document ←
              try_
                (vectorize b (split_text_url b extracted_text)
                   generated_filename db_document)
                (fun vectorization_error =>
                   mret (set_status "failed"
                           (Some (str_of_exception vectorization_error))
                           db_document));
            db_document ← db_update db_document;
            (* [result = {...}]: control falls through to the end *)
            mret (inl (response_of db_document)))
           (fun _ =>
              (* [return await create_pdf_document_without_vectorization(...)] *)
              response ←
                create_pdf_document_without_vectorization b (tmp_name b)
                  generated_filename
                  "Content extraction succeeded but vectorization failed";
              mret (inr response));
       match outcome with
       | inl result =>
           (* [os.remove(tmp_pdf.name); return result] *)
           remove_if_exists (tmp_name b);;
           mret result
       | inr response => mret response
       end
     else
       create_pdf_document_without_vectorization b (tmp_name b) generated_filename
         "No substantial text content could be extracted from the webpage")
    (fun e =>
       raise (HTTPException 500
                ("Failed to process URL: " +:+ str_of_exception e))).

(** ** Notions the statements below use *)

(** The state of things after an ingestion that started in world [w],
    ended in world [w'] and answered [response] with status completed:
    the row of the new document is stored as completed, its chunk count
    is the number of chunks, the collection of the vector store grew by
    one point per chunk, numbered [0 .. chunks_count - 1] in order, and
    table [document_chunks] is as it was. *)
Definition completed_ingestion (b : Backend F) (w w' : World F)
    (response : DocumentResponse) : Prop :=
  exists (chunks : list string) (points : list (PointStruct F))
         (db_document : Document),
    response = response_of db_document /\
    documents w' !! next_document_id w = Some db_document /\
    vectorization_status db_document = "completed" /\
    chunks_count db_document = Z.of_nat (length chunks) /\
    collections w' !! env_collection_name b =
      Some (default [] (collections w !! env_collection_name b) ++ points) /\
    Forall2 (fun c p => stored_chunk (next_document_id w) (fst c) (snd c) p)
            (HybridSearch.enumerate chunks) points /\
    document_chunks w' = document_chunks w.

(** The answer of [/search] that reports no match. *)
Definition no_results_found (query : string) : SearchResponse :=
  {| s_query := query; s_results := []; s_total_results := 0;
     s_message := Some "No results found"; s_search_params := None |}.

End Handlers.
End DocumentRouter.

(* ===================================================================== *)
(** * Concrete inputs                                                     *)
(* ===================================================================== *)

Module Samples.
Import HybridSearch App Models DocumentRouter.

(** A semantic hit with a text and a score. *)
Definition hit (text : value Q) (score : Q) : gmap string (value Q) :=
  <["text" := text]> (<["score" := VFloat score]> ∅).

Definition low_hit : gmap string (value Q) := hit (VStr "alpha") (1 # 10).
Definition high_hit : gmap string (value Q) := hit (VStr "beta gamma") (9 # 10).
Definition tied_hit : gmap string (value Q) := hit (VStr "alpha delta") (1 # 10).

(** A hit whose payload text is [None]: [.lower()] raises on it. *)
Definition broken_hit : gmap string (value Q) := hit VNone (8 # 10).

(** A semantic search function that answers with the same three hits
    whatever [limit] it is given. *)
Definition fixed_answer : semantic_search (F:=Q) :=
  fun _ _ _ => Ok [broken_hit; high_hit; low_hit].

(** A semantic search function that returns the first [limit] hits of a
    fixed ranking. *)
Definition top_k : semantic_search (F:=Q) :=
  fun _ limit _ => Ok (slice_to [high_hit; broken_hit; low_hit] limit).

(** ** Worlds, backends and requests *)

(** A fresh installation: no rows, no files, no collection. *)
Definition empty_world : World Q :=
  {| documents := ∅; document_chunks := ∅; next_document_id := 1;
     files := ∅; collections := ∅;
     qdrant_client := {| client := false; collection_name := None;
                         embedding_model := false |};
     uuids_drawn := 0 |}.

Definition unavailable {A} : exc A := Raise (Exception "connection refused").

(** 120 characters of page text. *)
Definition page_text : string :=
  "Lorem ipsum dolor sit amet, consectetur adipiscing elit, sed do eiusmod tempor incididunt ut labore et dolore magna aliq".

(** How the sample database compares an id with a value that is not an
    [int]: the text "1" equals the id 1, a dictionary cannot be bound,
    and nothing else equals an id. *)
Definition sample_compare_id (v : value Q) : exc (option Z) :=
  match v with
  | VStr s => Ok (if String.eqb s "1" then Some 1 else None)
  | VDict _ => Raise (Exception "Error binding parameter")
  | _ => Ok None
  end.

(** A backend described by what can go wrong in it. *)
Definition backend (qdrant_connect : exc unit) (encode : string -> exc (list Q))
    (upsert : exc unit)
    (search_points : list Q -> option (gmap string (value Q)) -> Z
                     -> exc (list (ScoredPoint Q)))
    (pages : list string) (extracted_text : string) : Backend Q :=
  {| now := "20250101_120000";
     server_now := "2025-01-01 12:00:00";
     uuid4 := fun n => "uuid" +:+ pretty n;
     env_collection_name := "KBCollection_LinkedIn";
     qdrant_connect := qdrant_connect;
     get_collections := Ok tt;
     create_collection := Ok tt;
     load_model := Ok tt;
     encode := encode;
     upsert := upsert;
     search_points := search_points;
     pdf_page_texts := fun _ => Ok pages;
     split_text := fun _ => Ok ["first chunk"; "second chunk"];
     split_text_url := fun _ => Ok ["first chunk"; "second chunk"];
     render_page := fun _ _ => Ok (true, extracted_text, [Byte.x25; Byte.x50]);
     tmp_name := "/tmp/tmpa1b2c3.pdf";
     compare_id := sample_compare_id |}.

(** Everything works. *)
Definition backend_up : Backend Q :=
  backend (Ok tt) (fun _ => Ok [1%Q]) (Ok tt) (fun _ _ _ => Ok [])
          ["Some text of the first page"] page_text.


(** The vector store cannot be reached at all. *)
Definition backend_unreachable : Backend Q :=
  backend unavailable (fun _ => Ok [1%Q]) unavailable (fun _ _ _ => unavailable)
          ["Some text of the first page"] page_text.

(** Initialisation succeeds, then the embedding model fails on a query. *)
Definition backend_embedding_down : Backend Q :=
  backend (Ok tt) (fun _ => unavailable) (Ok tt) (fun _ _ _ => Ok [])
          ["Some text of the first page"] page_text.

(** A scanned PDF: its only page has no text. *)
Definition backend_blank_pdf : Backend Q :=
  backend (Ok tt) (fun _ => Ok [1%Q]) (Ok tt) (fun _ _ _ => Ok [])
          [""] page_text.

(** A page from which 40 characters were extracted. *)
Definition backend_short_page : Backend Q :=
  backend (Ok tt) (fun _ => Ok [1%Q]) (Ok tt) (fun _ _ _ => Ok [])
          ["Some text of the first page"]
          "Only forty characters of text were read.".

Definition report_pdf : UploadFile :=
  {| file_filename := "report.pdf";
     file_content_type := Some "application/pdf";
     file_content := [Byte.x25; Byte.x50; Byte.x44; Byte.x46] |}.

Definition page_request : UrlToPdfRequest :=
  {| url := "https://example.com/article";
     cookies := None;
     generated_filename := "example_com_article.pdf" |}.

(** ** Outcomes of running the code on these inputs *)

Definition three_hits : list (gmap string (value Q)) :=
  [low_hit; high_hit; tied_hit].

(** [rerank_results("alpha", three_hits)] *)
Definition reranked_three_hits : list (gmap string (value Q)) :=
  Eval vm_compute in
    match rerank_results (hybrid_search_engine (F:=Q)) "alpha" three_hits with
    | Ok l => l
    | Raise _ => []
    end.

Definition answer_three_hits : semantic_search (F:=Q) := fun _ _ _ => Ok three_hits.

(** The world and the answer after uploading [report_pdf] when everything
    works. *)
Definition world_after_upload : World Q :=
  Eval vm_compute in fst (run (upload_pdf backend_up report_pdf) empty_world).
Definition answer_of_upload : exc DocumentResponse :=
  Eval vm_compute in snd (run (upload_pdf backend_up report_pdf) empty_world).


End Samples.

(* ===================================================================== *)
(** * Further notions                                                     *)
(* ===================================================================== *)

Module Notions.

(** Every character of [s] satisfies [p]. *)
Fixpoint all_chars (p : ascii -> bool) (s : string) : bool :=
  match s with
  | EmptyString => true
  | String c r => p c && all_chars p r
  end.

(** [l] is strictly increasing. *)
Definition increasing (l : list Z) : Prop :=
  StronglySorted (fun a b => a < b) l.

(** [s] neither starts nor ends with a whitespace character. *)
Definition stripped (s : string) : Prop :=
  (forall c r, s = String c r -> isspace c = false) /\
  (forall p c, s = p +:+ String c "" -> isspace c = false).

(** A character that is not whitespace, or the space itself. *)
Definition plain_space (c : ascii) : bool :=
  negb (isspace c) || Ascii.eqb c " ".

(** The characters that the ingestion handlers keep in a file name. *)
Definition allowed_in_filename (c : ascii) : bool :=
  DocumentRouter.isalnum c || Ascii.eqb c "." || Ascii.eqb c "_" || Ascii.eqb c "-".

End Notions.

Module GatewayNotions.
Import App QdrantClient.

Section Gateway.
Context {F : Type} `{Num F}.

(** The embedding model accepts the text of batch entry [doc]: the text
    is a [str] and [encode] returns for it. *)
Definition embeddable (b : Backend F) (doc : gmap string (value F)) : Prop :=
  exists text embedding,
    get doc "text" (VStr "") = VStr text /\ encode b text = Ok embedding.

(** A formatted hit of [search] for the scored point [p]: the four keys
    are present, the score is the point's score, and what the payload
    lacks is filled in with [''] (text) or [None] (metadata). *)
Definition hit_of_point (p : ScoredPoint F) (hit : gmap string (value F)) : Prop :=
  hit !! "id" = Some (VStr (sp_id p)) /\
  hit !! "score" = Some (VFloat (sp_score p)) /\
  hit !! "text" = Some (default (VStr "") (sp_payload p !! "text")) /\
  exists metadata,
    hit !! "metadata" = Some (VDict metadata) /\
    forall key,
      key ∈ ["document_id"; "user_id"; "filename"; "chunk_index"] ->
      metadata !! key = Some (default VNone (sp_payload p !! key)).

End Gateway.
End GatewayNotions.

(** ** The listing handler and notions about the search handler *)

Module DocumentListing.
Import App Models DocumentRouter.

(** One entry of the answer of [/pdf-list]; unlike the ingestion handlers
    it replaces an empty status by ["unknown"]. *)
Definition list_entry (doc : Document) : DocumentResponse :=
  {| r_id := id doc;
     r_filename := filename doc;
     r_original_filename := original_filename doc;
     r_file_size := file_size doc;
     r_content_type :=
       match content_type doc with
       | Some c => if truthy_str c then c else "application/pdf"
       | None => "application/pdf"
       end;
     r_created_at := created_at doc;
     r_vectorization_status :=
       if truthy_str (vectorization_status doc) then vectorization_status doc
       else "unknown";
     r_chunks_count := chunks_count doc |}.

Section Listing.
Context {F : Type} `{Num F}.

(** [db.query(Document).all()]; the order of the rows is the database's. *)
Definition db_all : stexc F (list Document) :=
  read (fun w => snd <$> map_to_list (documents w)).

Definition list_pdfs : stexc F (list DocumentResponse) :=
  try_
    (documents ← db_all;
     mret (map list_entry documents))
    (fun e =>
       raise (HTTPException 500
                ("Error fetching documents: " +:+ str_of_exception e))).

(** Entry [hit] of the answer of [/search] was made from hit [result] of
    the vector search: [result] names, under its metadata, a document id
    that is truthy and that the database compares equal to the id [key]
    of a row in [w], and [hit] carries that document id, the row's
    original file name and creation time, and the text, chunk index and
    score of [result]. *)
Definition formatted_from (b : Backend F) (w : World F)
    (result hit : gmap string (value F)) : Prop :=
  exists metadata doc_id key document,
    get result "metadata" (VDict ∅) = VDict metadata /\
    get metadata "document_id" VNone = doc_id /\
    truthy doc_id = true /\
    matching_id b doc_id = Ok (Some key) /\
    documents w !! key = Some document /\
    hit !! "document_id" = Some doc_id /\
    hit !! "filename" = Some (VStr (original_filename document)) /\
    hit !! "created_at" = Some (VStr (created_at document)) /\
    hit !! "chunk_index" = Some (get metadata "chunk_index" (VInt 0)) /\
    hit !! "text" = Some (get result "text" (VStr "")) /\
    hit !! "confidence" = Some (get result "score" (VFloat f0_0)).

(** Hit [result] passes the threshold [min_confidence]: there is no
    threshold, the threshold is zero, or the score is not below it. *)
Definition passes (min_confidence : option F) (result : gmap string (value F))
  : Prop :=
  match min_confidence with
  | None => True
  | Some mc =>
      feqb mc f0_0 = true \/
      exists score,
        float_operand (get result "score" (VInt 0)) = Ok score /\
        fltb score mc = false
  end.

End Listing.
End DocumentListing.

(** ** Further inputs and the outcomes of running the code on them *)

Module MoreSamples.
Import HybridSearch App Models DocumentRouter DocumentListing Samples.

(** A semantic search function that returns the first [limit] of the
    three hits. *)
Definition limited_answer : semantic_search (F:=Q) :=
  fun _ limit _ => Ok (slice_to three_hits limit).

(** A semantic hit with a binary64 score. *)
Definition float_hit (text : string) (score : float) : gmap string (value float) :=
  <["text" := VStr text]> (<["score" := VFloat score]> ∅).

(** The three hits of [three_hits] with binary64 scores. *)
Definition three_float_hits : list (gmap string (value float)) :=
  [float_hit "alpha" 0.1; float_hit "beta gamma" 0.9; float_hit "alpha delta" 0.1].

(** [rerank_results("alpha", three_float_hits)] *)
Definition reranked_three_float_hits : list (gmap string (value float)) :=
  Eval vm_compute in
    match rerank_results (hybrid_search_engine (F:=float)) "alpha"
            three_float_hits with
    | Ok l => l
    | Raise _ => []
    end.

Definition answer_three_float_hits : semantic_search (F:=float) :=
  fun _ _ _ => Ok three_float_hits.

(** Three hits that do not have the query word, with the semantic scores
    1.0, NaN and 2.0. *)
Definition nan_hits : list (gmap string (value float)) :=
  [float_hit "beta" 1.0; float_hit "beta" nan; float_hit "beta" 2.0].

(** [rerank_results("alpha", nan_hits)] *)
Definition reranked_nan_hits : list (gmap string (value float)) :=
  Eval vm_compute in
    match rerank_results (hybrid_search_engine (F:=float)) "alpha" nan_hits with
    | Ok l => l
    | Raise _ => []
    end.

(** The response that the upload of [report_pdf] returned. *)
Definition response_of_upload : DocumentResponse :=
  Eval vm_compute in
    match answer_of_upload with
    | Ok response => response
    | Raise _ => response_of (new_document "" "" "" 0 None "" None)
    end.


(** A point of the vector store that belongs to chunk 0 of document 1. *)
Definition stored_point (score : Q) : ScoredPoint Q :=
  {| sp_id := "uuid1";
     sp_score := score;
     sp_payload :=
       <["text" := VStr "first chunk"]>
       (<["document_id" := VInt 1]>
        (<["chunk_index" := VInt 0]> (∅ : gmap string (value Q)))) |}.

(** The vector store answers every query with two points of document 1,
    one with score 0.9 and one with score -0.5. *)
Definition backend_two_hits : Backend Q :=
  backend (Ok tt) (fun _ => Ok [1%Q]) (Ok tt)
          (fun _ _ _ => Ok [stored_point (9 # 10); stored_point (-1 # 2)])
          ["Some text of the first page"] page_text.

(** The world and the response after searching for "chunk", with the
    threshold [min_confidence], once [report_pdf] has been uploaded. *)
Definition world_after_search (min_confidence : option Q) : World Q :=
  fst (run (search_documents backend_two_hits "chunk" 5 min_confidence)
         world_after_upload).
Definition response_of_search (min_confidence : option Q) : SearchResponse :=
  match snd (run (search_documents backend_two_hits "chunk" 5 min_confidence)
               world_after_upload) with
  | Ok response => response
  | Raise _ => no_results_found ""
  end.

(** A point of the vector store whose payload holds the document id as
    the text "1". *)
Definition text_id_point : ScoredPoint Q :=
  {| sp_id := "uuid2";
     sp_score := 8 # 10;
     sp_payload :=
       <["text" := VStr "second chunk"]>
       (<["document_id" := VStr "1"]>
        (<["chunk_index" := VInt 1]> (∅ : gmap string (value Q)))) |}.

(** The vector store answers every query with that point. *)
Definition backend_text_id : Backend Q :=
  backend (Ok tt) (fun _ => Ok [1%Q]) (Ok tt) (fun _ _ _ => Ok [text_id_point])
          ["Some text of the first page"] page_text.

(** The world and the response after searching for "chunk" in it, once
    [report_pdf] has been uploaded. *)
Definition world_after_search_text_id : World Q :=
  Eval vm_compute in
    fst (run (search_documents backend_text_id "chunk" 5 None) world_after_upload).
Definition response_of_search_text_id : SearchResponse (F:=Q) :=
  Eval vm_compute in
    match snd (run (search_documents backend_text_id "chunk" 5 None)
                 world_after_upload) with
    | Ok response => response
    | Raise _ => no_results_found ""
    end.

Definition world_after_search_no_threshold : World Q :=
  Eval vm_compute in world_after_search None.
Definition response_of_search_no_threshold : SearchResponse (F:=Q) :=
  Eval vm_compute in response_of_search None.
Definition world_after_search_half : World Q :=
  Eval vm_compute in world_after_search (Some (1 # 2)).
Definition response_of_search_half : SearchResponse (F:=Q) :=
  Eval vm_compute in response_of_search (Some (1 # 2)).
Definition world_after_search_zero : World Q :=
  Eval vm_compute in world_after_search (Some 0%Q).
Definition response_of_search_zero : SearchResponse (F:=Q) :=
  Eval vm_compute in response_of_search (Some 0%Q).

End MoreSamples.

(* ===================================================================== *)
(** * Facts about the string operations                                   *)
(* ===================================================================== *)

Section StringFacts.

Lemma length_drop_str n s :
  String.length (drop_str n s) = (String.length s - n)%nat.
Proof.
  revert s; induction n as [|n IH]; intros [|c r]; simpl; auto with lia.
Qed.

Lemma drop_str_tail k c r : drop_str (S k) (String c r) = drop_str k r.
Proof. reflexivity. Qed.

Lemma startswith_nil_r s : startswith s EmptyString = true.
Proof. destruct s; reflexivity. Qed.

Lemma contains_iff sub s :
  contains sub s = true <->
  exists n, (n <= String.length s)%nat /\ startswith (drop_str n s) sub = true.
Proof.
  induction s as [|c r IH]; simpl.
  - rewrite orb_false_r. split.
    + intros Hs. exists 0%nat. split; [lia | exact Hs].
    + intros (n & Hn & Hs). destruct n; [exact Hs | lia].
  - rewrite orb_true_iff, IH. split.
    + intros [Hs | (n & Hn & Hs)].
      * exists 0%nat. split; [lia | exact Hs].
      * exists (S n). split; [lia | exact Hs].
    + intros (n & Hn & Hs). destruct n as [|n].
      * left. exact Hs.
      * right. exists n. split; [lia | exact Hs].
Qed.

Lemma contains_occurs_at sub s :
  contains sub s = true <-> exists pos, occurs_at s sub pos.
Proof.
  rewrite contains_iff. unfold occurs_at. split.
  - intros (n & Hn & Hs). exists (Z.of_nat n).
    rewrite Nat2Z.id. split; [lia | exact Hs].
  - intros (pos & Hpos & Hs). exists (Z.to_nat pos). split; [lia | exact Hs].
Qed.

(** [find_from] returns [-1] or the least index, not below [start], at
    which [sub] occurs. *)
Lemma find_from_spec s sub : forall start i, 0 <= i ->
  let r := find_from s sub start i in
  (r = -1 /\
   forall k, (start <= k <= String.length s)%nat ->
             startswith (drop_str k s) sub = false) \/
  (exists k, r = i + Z.of_nat k /\ (start <= k <= String.length s)%nat /\
             startswith (drop_str k s) sub = true /\
             forall k', (start <= k' < k)%nat ->
                        startswith (drop_str k' s) sub = false).
Proof.
  induction s as [|c r IH]; intros start i Hi; cbn [find_from].
  - destruct start as [|start].
    + destruct (startswith EmptyString sub) eqn:E.
      * right. exists 0%nat. cbn [drop_str String.length].
        repeat split; auto with lia.
      * left. split; [reflexivity|]. intros k Hk. cbn [String.length] in Hk.
        assert (k = 0)%nat as -> by lia. exact E.
    + left. split; [reflexivity|]. intros k Hk. cbn [String.length] in Hk. lia.
  - destruct start as [|start].
    + destruct (startswith (String c r) sub) eqn:E.
      * right. exists 0%nat. cbn [drop_str String.length].
        repeat split; auto with lia.
      * destruct (IH 0%nat (i + 1) ltac:(lia))
          as [(Hr & Hno) | (k & Hr & Hk & Hs & Hleast)].
        -- left. split; [exact Hr|]. intros [|k] Hk; [exact E|].
           rewrite drop_str_tail. apply Hno. cbn [String.length] in Hk. lia.
        -- right. exists (S k). rewrite drop_str_tail. cbn [String.length].
           split; [lia|]. split; [lia|]. split; [exact Hs|].
           intros [|k'] Hk'; [exact E|].
           rewrite drop_str_tail. apply Hleast. lia.
    + destruct (IH start (i + 1) ltac:(lia))
        as [(Hr & Hno) | (k & Hr & Hk & Hs & Hleast)].
      * left. split; [exact Hr|]. intros [|k] Hk; [lia|].
        rewrite drop_str_tail. apply Hno. cbn [String.length] in Hk. lia.
      * right. exists (S k). rewrite drop_str_tail. cbn [String.length].
        split; [lia|]. split; [lia|]. split; [exact Hs|].
        intros [|k'] Hk'; [lia|].
        rewrite drop_str_tail. apply Hleast. lia.
Qed.

Lemma find_spec text word start : 0 <= start ->
  (find text word start = -1 /\
   forall pos, start <= pos -> ~ occurs_at text word pos) \/
  (start <= find text word start /\
   occurs_at text word (find text word start) /\
   forall pos, start <= pos -> occurs_at text word pos ->
               find text word start <= pos).
Proof.
  intros Hstart. unfold find.
  destruct (find_from_spec text word (Z.to_nat start) 0 ltac:(lia))
    as [(Hr & Hno) | (k & Hr & Hk & Hs & Hleast)].
  - left. split; [exact Hr|]. intros pos Hpos [Hrange Hocc].
    rewrite Hno in Hocc; [discriminate | lia].
  - right. rewrite Hr. split; [lia|]. split.
    + split; [lia|]. replace (Z.to_nat (0 + Z.of_nat k)) with k by lia. exact Hs.
    + intros pos Hpos [Hrange Hocc].
      destruct (Z_lt_le_dec pos (0 + Z.of_nat k)) as [Hlt|]; [|lia].
      rewrite (Hleast (Z.to_nat pos)) in Hocc; [discriminate | lia].
Qed.

End StringFacts.

(* ===================================================================== *)
(** * Facts about the proximity bonus                                     *)
(* ===================================================================== *)

Section ProximityFacts.
Import HybridSearch.

(** With the fuel that [word_positions] supplies, the loop finds every
    occurrence from [start] on, and nothing else. *)
Lemma word_positions_loop_spec text word : forall fuel start,
  0 <= start ->
  Z.of_nat (String.length text) + 2 - start <= Z.of_nat fuel ->
  forall pos, pos ∈ word_positions_loop fuel text word start <->
              start <= pos /\ occurs_at text word pos.
Proof.
  induction fuel as [|fuel IH]; intros start Hstart Hfuel pos;
    cbn [word_positions_loop].
  - rewrite elem_of_nil. split; [tauto|]. intros [Hle [Hrange _]]. lia.
  - destruct (find_spec text word start Hstart)
      as [(Hr & Hno) | (Hle & Hocc & Hleast)].
    + rewrite Hr. cbn. rewrite elem_of_nil. split; [tauto|].
      intros [Hpos Ho]. exact (Hno pos Hpos Ho).
    + destruct (Z.eqb_spec (find text word start) (-1)) as [Heq|Hne]; [lia|].
      rewrite elem_of_cons, IH by lia. split.
      * intros [-> | [Hlt Ho]]; [tauto|]. split; [lia | exact Ho].
      * intros [Hpos Ho]. specialize (Hleast pos Hpos Ho).
        destruct (Z.eq_dec pos (find text word start)) as [->|]; [tauto|].
        right. split; [lia | exact Ho].
Qed.

Lemma word_positions_spec text word pos :
  pos ∈ word_positions text word <-> occurs_at text word pos.
Proof.
  unfold word_positions.
  rewrite word_positions_loop_spec by lia.
  unfold occurs_at. tauto.
Qed.

Lemma word_positions_nil text word :
  word_positions text word = [] <-> contains word text = false.
Proof.
  split.
  - intros Hnil. destruct (contains word text) eqn:E; [|reflexivity].
    apply contains_occurs_at in E as [pos Hocc].
    apply word_positions_spec in Hocc. rewrite Hnil in Hocc.
    by apply elem_of_nil in Hocc.
  - intros Hc. destruct (word_positions text word) as [|p ps] eqn:E; [reflexivity|].
    assert (occurs_at text word p) as Hocc
      by (apply word_positions_spec; rewrite E; left).
    assert (contains word text = true) as Ht
      by (apply contains_occurs_at; eauto).
    congruence.
Qed.

(** The entries of [words_found]: the query words that occur, in query
    order, each with all its positions. *)
Lemma words_found_spec query_words text :
  words_found query_words text =
  map (fun word => (word, word_positions text word))
      (filter (fun word => contains word text = true) query_words).
Proof.
  induction query_words as [|word rest IH]; [reflexivity|].
  cbn [words_found]. rewrite filter_cons.
  destruct (word_positions text word) as [|p ps] eqn:E.
  - apply word_positions_nil in E. rewrite decide_False by congruence. exact IH.
  - assert (contains word text = true) as Ht.
    { destruct (contains word text) eqn:Hc; [reflexivity|].
      apply word_positions_nil in Hc. congruence. }
    rewrite decide_True by exact Ht. cbn [map]. rewrite <- E, IH. reflexivity.
Qed.

Lemma length_words_found query_words text :
  length (words_found query_words text) = count_matched query_words text.
Proof. rewrite words_found_spec, length_map. reflexivity. Qed.

Context {F : Type} `{Num F}.

Lemma loop_pos2_cases d pos1 positions2 (st : F * bool) :
  (loop_pos2 d pos1 positions2 st = (f0_3, true) /\
   exists pos2, pos2 ∈ positions2 /\ Z.abs (pos1 - pos2) <= d) \/
  (loop_pos2 d pos1 positions2 st = st /\
   forall pos2, pos2 ∈ positions2 -> ~ Z.abs (pos1 - pos2) <= d).
Proof.
  induction positions2 as [|pos2 rest IH]; cbn [loop_pos2].
  - right. split; [reflexivity|]. intros pos2 Hin. by apply elem_of_nil in Hin.
  - destruct (Z.leb_spec (Z.abs (pos1 - pos2)) d) as [Hle|Hgt].
    + left. split; [reflexivity|]. exists pos2. split; [left | exact Hle].
    + destruct IH as [(Heq & pos2' & Hin & Hle) | (Heq & Hno)].
      * left. split; [exact Heq|]. exists pos2'. split; [by right | exact Hle].
      * right. split; [exact Heq|]. intros pos2' Hin.
        apply elem_of_cons in Hin as [-> | Hin]; [lia | by apply Hno].
Qed.

Lemma loop_pos1_cases d positions1 positions2 (st : F * bool) :
  snd st = false ->
  (loop_pos1 d positions1 positions2 st = (f0_3, true) /\
   exists pos1 pos2, pos1 ∈ positions1 /\ pos2 ∈ positions2 /\
                     Z.abs (pos1 - pos2) <= d) \/
  (loop_pos1 d positions1 positions2 st = st /\
   forall pos1 pos2, pos1 ∈ positions1 -> pos2 ∈ positions2 ->
                     ~ Z.abs (pos1 - pos2) <= d).
Proof.
  intros Hst. induction positions1 as [|pos1 rest IH]; cbn [loop_pos1].
  - right. split; [reflexivity|]. intros pos1 pos2 Hin. by apply elem_of_nil in Hin.
  - destruct (loop_pos2_cases d pos1 positions2 st)
      as [(Heq & pos2 & Hin & Hle) | (Heq & Hno)]; rewrite Heq.
    + left. split; [reflexivity|]. exists pos1, pos2.
      split; [left | split; [exact Hin | exact Hle]].
    + rewrite Hst.
      destruct IH as [(Heq' & p1 & p2 & Hin1 & Hin2 & Hle) | (Heq' & Hno')].
      * left. split; [exact Heq'|]. exists p1, p2.
        split; [by right | split; [exact Hin2 | exact Hle]].
      * right. split; [exact Heq'|]. intros p1 p2 Hin1 Hin2.
        apply elem_of_cons in Hin1 as [-> | Hin1]; [by apply Hno | by apply Hno'].
Qed.

Lemma loop_j_cases d i positions1 found (st : F * bool) :
  snd st = false ->
  (loop_j d i positions1 found st = (f0_3, true) /\ close_to d i positions1 found) \/
  (loop_j d i positions1 found st = st /\ ~ close_to d i positions1 found).
Proof.
  intros Hst. induction found as [|[j [word2 positions2]] rest IH]; cbn [loop_j].
  - right. split; [reflexivity|]. intros (j & w & ps & p1 & p2 & Hin & _).
    by apply elem_of_nil in Hin.
  - rewrite Hst. cbn [negb andb].
    destruct (Nat.eqb_spec i j) as [Heq|Hne]; cbn [negb andb].
    + rewrite Hst.
      destruct IH as [(Hr & Hc) | (Hr & Hc)].
      * left. split; [exact Hr|].
        destruct Hc as (j' & w & ps & p1 & p2 & Hin & Hrest).
        exists j', w, ps, p1, p2. split; [by right | exact Hrest].
      * right. split; [exact Hr|].
        intros (j' & w & ps & p1 & p2 & Hin & Hij & Hrest). apply Hc.
        apply elem_of_cons in Hin as [Hhd | Hin].
        -- inversion Hhd; subst. congruence.
        -- exists j', w, ps, p1, p2. split; [exact Hin | split; [exact Hij | exact Hrest]].
    + destruct (loop_pos1_cases d positions1 positions2 st Hst)
        as [(Hr & p1 & p2 & Hin1 & Hin2 & Hle) | (Hr & Hno)]; rewrite Hr.
      * left. split; [reflexivity|].
        exists j, word2, positions2, p1, p2.
        split; [left | split; [exact Hne | split; [exact Hin1 | split; [exact Hin2 | exact Hle]]]].
      * rewrite Hst.
        destruct IH as [(Hr' & Hc) | (Hr' & Hc)].
        -- left. split; [exact Hr'|].
           destruct Hc as (j' & w & ps & p1 & p2 & Hin & Hrest).
           exists j', w, ps, p1, p2. split; [by right | exact Hrest].
        -- right. split; [exact Hr'|].
           intros (j' & w & ps & p1 & p2 & Hin & Hij & Hin1 & Hin2 & Hle).
           apply elem_of_cons in Hin as [Hhd | Hin].
           ++ inversion Hhd; subst. exact (Hno p1 p2 Hin1 Hin2 Hle).
           ++ apply Hc. exists j', w, ps, p1, p2. tauto.
Qed.

Lemma loop_j_done d i positions1 found (st : F * bool) :
  snd st = true -> loop_j d i positions1 found st = st.
Proof.
  intros Hst. destruct found as [|[j [w ps]] rest]; cbn [loop_j]; [reflexivity|].
  rewrite Hst, andb_false_r. cbn. rewrite Hst. reflexivity.
Qed.

Lemma loop_i_done d found_i found (st : F * bool) :
  snd st = true -> loop_i d found_i found st = st.
Proof.
  intros Hst. induction found_i as [|[i [w ps]] rest IH]; cbn [loop_i]; [reflexivity|].
  rewrite loop_j_done by exact Hst. exact IH.
Qed.

Lemma loop_i_cases d found_i found (st : F * bool) :
  snd st = false ->
  (loop_i d found_i found st = (f0_3, true) /\
   exists i word1 positions1,
     (i, (word1, positions1)) ∈ found_i /\ close_to d i positions1 found) \/
  (loop_i d found_i found st = st /\
   forall i word1 positions1,
     (i, (word1, positions1)) ∈ found_i -> ~ close_to d i positions1 found).
Proof.
  intros Hst. revert st Hst.
  induction found_i as [|[i [word1 positions1]] rest IH]; intros st Hst;
    cbn [loop_i].
  - right. split; [reflexivity|]. intros i w ps Hin. by apply elem_of_nil in Hin.
  - destruct (loop_j_cases d i positions1 found st Hst) as [(Hr & Hc) | (Hr & Hc)];
      rewrite Hr.
    + left. split; [by apply loop_i_done|].
      exists i, word1, positions1. split; [left | exact Hc].
    + destruct (IH st Hst) as [(Hr' & i' & w & ps & Hin & Hc') | (Hr' & Hno)].
      * left. split; [exact Hr'|]. exists i', w, ps. split; [by right | exact Hc'].
      * right. split; [exact Hr'|]. intros i' w ps Hin.
        apply elem_of_cons in Hin as [Hhd | Hin].
        -- inversion Hhd; subst. exact Hc.
        -- by apply (Hno i' w ps).
Qed.

End ProximityFacts.

Section ScoreFacts.
Import HybridSearch.

Lemma elem_of_enumerate_from {A} (l : list A) : forall n i (x : A),
  (i, x) ∈ enumerate_from n l <-> (n <= i)%nat /\ l !! (i - n)%nat = Some x.
Proof.
  induction l as [|y r IH]; intros n i x; cbn [enumerate_from].
  - rewrite elem_of_nil. split; [tauto|]. intros [_ Hl]. discriminate.
  - rewrite elem_of_cons, IH. split.
    + intros [Heq | [Hle Hl]].
      * inversion Heq; subst. split; [lia|]. by rewrite Nat.sub_diag.
      * split; [lia|]. replace (i - n)%nat with (S (i - S n)) by lia. exact Hl.
    + intros [Hle Hl]. destruct (decide (i = n)) as [->|Hne].
      * left. rewrite Nat.sub_diag in Hl. cbn in Hl. congruence.
      * right. split; [lia|].
        replace (i - n)%nat with (S (i - S n)) in Hl by lia. exact Hl.
Qed.

Lemma elem_of_enumerate {A} (l : list A) i (x : A) :
  (i, x) ∈ enumerate l <-> l !! i = Some x.
Proof.
  unfold enumerate. rewrite elem_of_enumerate_from, Nat.sub_0_r.
  split; [tauto | auto with lia].
Qed.

Lemma proximity_bonus_cases {F} `{Num F} (self : HybridSearchEngine F)
    query_words text_lower :
  let found := words_found query_words text_lower in
  (_calculate_proximity_bonus self query_words text_lower = f0_3 /\
   close_pair (proximity_distance self) found) \/
  (_calculate_proximity_bonus self query_words text_lower = f0_0 /\
   ~ close_pair (proximity_distance self) found).
Proof.
  intros found. unfold _calculate_proximity_bonus. fold found.
  destruct (Nat.leb_spec 2 (length found)) as [Hlen|Hlen].
  - destruct (loop_i_cases (proximity_distance self) (enumerate found)
                (enumerate found) (f0_0, false) eq_refl)
      as [(Hr & i & w1 & ps1 & Hin & Hc) | (Hr & Hno)]; rewrite Hr; cbn [fst].
    + left. split; [reflexivity|].
      destruct Hc as (j & w2 & ps2 & p1 & p2 & Hin2 & Hij & Hp1 & Hp2 & Hle).
      apply elem_of_enumerate in Hin, Hin2.
      exists i, j, w1, ps1, w2, ps2, p1, p2. tauto.
    + right. split; [reflexivity|].
      intros (i & j & w1 & ps1 & w2 & ps2 & p1 & p2 & Hi & Hj & Hij & Hp1 & Hp2 & Hle).
      apply (Hno i w1 ps1); [by apply elem_of_enumerate|].
      exists j, w2, ps2, p1, p2. split; [by apply elem_of_enumerate | tauto].
  - right. split; [reflexivity|].
    intros (i & j & w1 & ps1 & w2 & ps2 & p1 & p2 & Hi & Hj & Hij & _).
    apply lookup_lt_Some in Hi, Hj. lia.
Qed.

Lemma match_words_snd {F} `{Num F} query_words text_lower (st : F * nat) :
  snd (match_words query_words text_lower st) =
  (snd st + count_matched query_words text_lower)%nat.
Proof.
  revert st. induction query_words as [|word rest IH]; intros st;
    cbn [match_words].
  - unfold count_matched. cbn. lia.
  - rewrite IH. unfold count_matched. rewrite filter_cons.
    destruct (contains word text_lower) eqn:E.
    + rewrite decide_True by reflexivity. cbn. lia.
    + rewrite decide_False by congruence. cbn. lia.
Qed.

Lemma match_words_fst_Q query_words text_lower (st : Q * nat) :
  (fst (match_words query_words text_lower st) ==
   fst st + inject_Z (Z.of_nat (count_matched query_words text_lower)))%Q.
Proof.
  revert st. induction query_words as [|word rest IH]; intros st;
    cbn [match_words].
  - unfold count_matched. cbn. ring.
  - rewrite IH. unfold count_matched. rewrite filter_cons.
    destruct (contains word text_lower) eqn:E.
    + rewrite decide_True by reflexivity. cbn [fst length fadd f1_0 Q_Num].
      rewrite Nat2Z.inj_succ, <- Z.add_1_r, inject_Z_plus. ring.
    + rewrite decide_False by congruence. reflexivity.
Qed.

Lemma count_matched_le query_words text_lower :
  (count_matched query_words text_lower <= length query_words)%nat.
Proof. apply length_filter. Qed.

(** The score in exact arithmetic: the matched words plus one of the
    three possible bonuses, over the number of query words. *)
Lemma keyword_score_Q (self : HybridSearchEngine Q) query_text document_text :
  let query_words := split (lower query_text) in
  let text_lower := lower document_text in
  let matched := count_matched query_words text_lower in
  query_words <> [] ->
  exists bonus : Q,
    (calculate_keyword_score self query_text document_text ==
     (inject_Z (Z.of_nat matched) + bonus)
       / inject_Z (Z.of_nat (length query_words)))%Q /\
    ((1 < length query_words)%nat /\ contains (lower query_text) text_lower = true /\
       bonus = (5 # 10)%Q
     \/
     (1 < length query_words)%nat /\ contains (lower query_text) text_lower = false /\
       (2 <= matched)%nat /\
       bonus = _calculate_proximity_bonus self query_words text_lower
     \/
     ((length query_words <= 1)%nat \/
      contains (lower query_text) text_lower = false /\ (matched < 2)%nat) /\
       bonus = 0%Q).
Proof.
  intros query_words text_lower matched Hne.
  unfold calculate_keyword_score. subst matched. fold text_lower.
  subst query_words. destruct (split (lower query_text)) as [|w ws]; [congruence|].
  set (query_words := w :: ws) in *.
  set (matched := count_matched query_words text_lower).
  destruct (match_words query_words text_lower (f0_0, 0%nat)) as [ks mw] eqn:Em.
  assert (mw = matched) as ->.
  { change mw with (snd (ks, mw)). rewrite <- Em, match_words_snd. reflexivity. }
  assert (ks == inject_Z (Z.of_nat matched))%Q as Hks.
  { change ks with (fst (ks, matched)). rewrite <- Em, match_words_fst_Q.
    cbn [fst f0_0 Q_Num]. fold matched. ring. }
  cbn [fdiv fadd f0_5 of_int Q_Num].
  destruct (Nat.ltb_spec 1 (length query_words)) as [Hlen|Hlen].
  - destruct (contains (lower query_text) text_lower) eqn:Ec.
    + exists (5 # 10)%Q. split; [by rewrite Hks | tauto].
    + destruct (Nat.leb_spec 2 matched) as [Hm|Hm].
      * exists (_calculate_proximity_bonus self query_words text_lower).
        split; [by rewrite Hks | tauto].
      * exists 0%Q. split; [rewrite Hks; by rewrite Qplus_0_r | tauto].
  - exists 0%Q. split; [rewrite Hks; by rewrite Qplus_0_r | tauto].
Qed.

End ScoreFacts.

(* ===================================================================== *)
(** * The keyword score (C9)                                              *)
(* ===================================================================== *)

Section KeywordScore.
Import HybridSearch.

Lemma inject_nat_le (m n : nat) :
  (m <= n)%nat -> (inject_Z (Z.of_nat m) <= inject_Z (Z.of_nat n))%Q.
Proof. intros Hle. rewrite <- Zle_Qle. lia. Qed.

Lemma inject_nat_pos (n : nat) : (0 < n)%nat -> (0 < inject_Z (Z.of_nat n))%Q.
Proof. intros Hn. change 0%Q with (inject_Z 0). rewrite <- Zlt_Qlt. lia. Qed.

Lemma proximity_bonus_Q (self : HybridSearchEngine Q) query_words text_lower :
  _calculate_proximity_bonus self query_words text_lower = (3 # 10)%Q \/
  _calculate_proximity_bonus self query_words text_lower = 0%Q.
Proof.
  destruct (proximity_bonus_cases self query_words text_lower) as [[-> _] | [-> _]];
    [by left | by right].
Qed.

(** The scores of two small inputs in IEEE binary64: two words found 10
    characters apart (one proximity bonus), and the phrase found. *)
Example keyword_score_float_proximity :
  calculate_keyword_score (F:=float) hybrid_search_engine
    "alpha beta" "some Alpha xxxx BETA end" = 1.15%float.
Proof. vm_compute. reflexivity. Qed.

Example keyword_score_float_phrase :
  calculate_keyword_score (F:=float) hybrid_search_engine
    "alpha beta" "some alpha beta end" = 1.25%float.
Proof. vm_compute. reflexivity. Qed.

(** C9.  The keyword score that [calculate_keyword_score] returns is [0.0]
    when the query has no words (for any float arithmetic).  Otherwise, in
    exact arithmetic, it is the accumulated match score, [1.0] for each
    query word found plus at most one bonus ([0.5] or [0.3]), divided by
    the number of query words.  It always lies in the interval [0, 1.5]. *)
Theorem C9_keyword_score_normalised_and_bounded :
  (forall F (N : Num F) (self : HybridSearchEngine F) query_text document_text,
     match split (lower query_text) with
     | [] => calculate_keyword_score self query_text document_text = f0_0
     | _ :: _ => True
     end) /\
  (forall (self : HybridSearchEngine Q) query_text document_text,
     let query_words := split (lower query_text) in
     let matched := count_matched query_words (lower document_text) in
     let score := calculate_keyword_score self query_text document_text in
     match query_words with
     | [] => score = 0%Q
     | _ :: _ =>
         exists bonus : Q,
           (bonus = 0 \/ bonus = 3 # 10 \/ bonus = 5 # 10)%Q /\
           (score == (inject_Z (Z.of_nat matched) + bonus)
                     / inject_Z (Z.of_nat (length query_words)))%Q
     end /\
     (0 <= score <= 15 # 10)%Q).
Proof.
  split.
  - intros F N self query_text document_text.
    unfold calculate_keyword_score.
    destruct (split (lower query_text)); [reflexivity | exact I].
  - intros self query_text document_text. cbv zeta.
    pose proof (keyword_score_Q self query_text document_text) as Hks.
    cbv zeta in Hks.
    pose proof (count_matched_le (split (lower query_text)) (lower document_text))
      as Hle.
    destruct (split (lower query_text)) as [|w ws] eqn:Ew.
    + unfold calculate_keyword_score. rewrite Ew. cbn [f0_0 Q_Num].
      split; [reflexivity | split; [apply Qle_refl | discriminate]].
    + destruct (Hks ltac:(discriminate)) as (bonus & Hscore & Hcases).
      assert (bonus = 0 \/ bonus = 3 # 10 \/ bonus = 5 # 10)%Q as Hbonus.
      { destruct Hcases as [(_ & _ & ->) | [(_ & _ & _ & ->) | (_ & ->)]];
          [tauto | | tauto].
        destruct (proximity_bonus_Q self (w :: ws) (lower document_text)); tauto. }
      split; [exists bonus; by split|].
      pose proof (inject_nat_le _ _ Hle) as HleQ.
      pose proof (inject_nat_pos (length (w :: ws)) ltac:(cbn; lia)) as Hpos.
      pose proof (inject_nat_le 0 _ (Nat.le_0_l (count_matched (w :: ws) (lower document_text))))
        as Hm0.
      assert (1 <= inject_Z (Z.of_nat (length (w :: ws))))%Q as Hn1.
      { change 1%Q with (inject_Z 1). rewrite <- Zle_Qle. cbn [length]. lia. }
      rewrite Hscore. clear Hscore Hcases Hks.
      generalize dependent (inject_Z (Z.of_nat (length (w :: ws)))).
      generalize dependent
        (inject_Z (Z.of_nat (count_matched (w :: ws) (lower document_text)))).
      intros m Hm0 n HleQ Hpos Hn1. change (inject_Z (Z.of_nat 0)) with 0%Q in Hm0.
      split.
      * apply Qle_shift_div_l; [exact Hpos|].
        destruct Hbonus as [-> | [-> | ->]]; lra.
      * apply Qle_shift_div_r; [exact Hpos|].
        destruct Hbonus as [-> | [-> | ->]]; lra.
Qed.

End KeywordScore.

(* ===================================================================== *)
(** * Phrase and proximity bonus (C6)                                     *)
(* ===================================================================== *)

Section Bonus.
Import HybridSearch.

(** Two different query words that occur close to each other give two
    different entries of [words_found] that are close to each other. *)
Lemma close_words_close_pair d query_words text word1 word2 pos1 pos2 :
  word1 ∈ query_words -> word2 ∈ query_words -> word1 <> word2 ->
  occurs_at text word1 pos1 -> occurs_at text word2 pos2 ->
  Z.abs (pos1 - pos2) <= d ->
  close_pair d (words_found query_words text) /\
  (2 <= count_matched query_words text)%nat.
Proof.
  intros Hin1 Hin2 Hne Ho1 Ho2 Hd.
  set (matched := filter (fun word => contains word text = true) query_words).
  assert (word1 ∈ matched) as Hm1.
  { apply list_elem_of_filter. split; [|exact Hin1].
    apply contains_occurs_at. eauto. }
  assert (word2 ∈ matched) as Hm2.
  { apply list_elem_of_filter. split; [|exact Hin2].
    apply contains_occurs_at. eauto. }
  apply list_elem_of_lookup in Hm1 as [i Hi], Hm2 as [j Hj].
  assert (i <> j) as Hij by congruence.
  split.
  - rewrite words_found_spec. fold matched.
    exists i, j, word1, (word_positions text word1), word2,
      (word_positions text word2), pos1, pos2.
    rewrite !list_lookup_fmap, Hi, Hj. cbn.
    repeat split; try done; by apply word_positions_spec.
  - unfold count_matched. fold matched.
    apply lookup_lt_Some in Hi, Hj. lia.
Qed.

Lemma added_bonus_eq (self : HybridSearchEngine Q) query_text document_text bonus :
  split (lower query_text) <> [] ->
  (calculate_keyword_score self query_text document_text ==
   (inject_Z (Z.of_nat (count_matched (split (lower query_text)) (lower document_text)))
    + bonus) / inject_Z (Z.of_nat (length (split (lower query_text)))))%Q ->
  (added_bonus self query_text document_text == bonus)%Q.
Proof.
  intros Hne Hscore. unfold added_bonus. rewrite Hscore.
  assert (~ inject_Z (Z.of_nat (length (split (lower query_text)))) == 0)%Q as Hn.
  { destruct (split (lower query_text)); [congruence|].
    intros Heq. pose proof (inject_nat_pos (length (s :: l)) ltac:(cbn; lia)) as Hp.
    rewrite Heq in Hp. by apply Qlt_irrefl in Hp. }
  field. exact Hn.
Qed.

(** Two different places of [l] hold [x] and [y]. *)
Lemma two_places_cons {A} (a : A) (l : list A) (x y : A) :
  (exists i j, (a :: l) !! i = Some x /\ (a :: l) !! j = Some y /\ i <> j) <->
  (a = x /\ y ∈ l) \/ (a = y /\ x ∈ l) \/
  (exists i j, l !! i = Some x /\ l !! j = Some y /\ i <> j).
Proof.
  split.
  - intros (i & j & Hi & Hj & Hij). destruct i as [|i], j as [|j]; cbn in Hi, Hj.
    + done.
    + left. split; [congruence|]. apply list_elem_of_lookup. by exists j.
    + right; left. split; [congruence|]. apply list_elem_of_lookup. by exists i.
    + right; right. exists i, j. repeat split; try done. congruence.
  - intros [[-> Hy] | [[-> Hx] | (i & j & Hi & Hj & Hij)]].
    + apply list_elem_of_lookup in Hy as [j Hj]. by exists 0%nat, (S j).
    + apply list_elem_of_lookup in Hx as [i Hi]. by exists (S i), 0%nat.
    + exists (S i), (S j). repeat split; try done. congruence.
Qed.

Lemma two_places_filter {A} (P : A -> Prop) `{forall a, Decision (P a)}
    (l : list A) (x y : A) :
  (exists i j, filter P l !! i = Some x /\ filter P l !! j = Some y /\ i <> j) <->
  P x /\ P y /\ exists i j, l !! i = Some x /\ l !! j = Some y /\ i <> j.
Proof.
  induction l as [|a l IH].
  - split; [intros (i & j & Hi & _) | intros (_ & _ & i & j & Hi & _)]; done.
  - rewrite filter_cons. destruct (decide (P a)) as [Ha|Ha].
    + rewrite !two_places_cons, IH, !list_elem_of_filter. split.
      * intros [[-> [Hy Hin]] | [[-> [Hx Hin]] | (Hx & Hy & Hrest)]]; tauto.
      * intros (Hx & Hy & [[-> Hin] | [[-> Hin] | Hrest]]); tauto.
    + rewrite IH, two_places_cons. split; [tauto|].
      intros (Hx & Hy & [[-> Hin] | [[-> Hin] | Hrest]]); tauto.
Qed.

(** Two different entries of [words_found] are close to each other
    exactly when two different places of the query hold words with
    occurrences that close. *)
Lemma close_pair_query_words d query_words text :
  close_pair d (words_found query_words text) <->
  exists i j word1 word2 pos1 pos2,
    query_words !! i = Some word1 /\ query_words !! j = Some word2 /\ i <> j /\
    occurs_at text word1 pos1 /\ occurs_at text word2 pos2 /\
    Z.abs (pos1 - pos2) <= d.
Proof.
  rewrite words_found_spec. unfold close_pair.
  set (matched := filter (fun word => contains word text = true) query_words).
  split.
  - intros (i & j & w1 & ps1 & w2 & ps2 & p1 & p2 & Hi & Hj & Hij & Hp1 & Hp2 & Hd).
    rewrite list_lookup_fmap in Hi, Hj.
    destruct (matched !! i) as [w1'|] eqn:Ei; [|done].
    destruct (matched !! j) as [w2'|] eqn:Ej; [|done].
    cbn in Hi, Hj. injection Hi as -> <-. injection Hj as -> <-.
    destruct (proj1 (two_places_filter (fun word => contains word text = true)
                       query_words w1 w2)) as (_ & _ & i' & j' & ?);
      [by exists i, j|].
    exists i', j', w1, w2, p1, p2. apply word_positions_spec in Hp1, Hp2. tauto.
  - intros (i & j & w1 & w2 & p1 & p2 & Hi & Hj & Hij & Ho1 & Ho2 & Hd).
    destruct (proj2 (two_places_filter (fun word => contains word text = true)
                       query_words w1 w2)) as (i' & j' & Hi' & Hj' & Hij').
    { split; [apply contains_occurs_at; eauto|].
      split; [apply contains_occurs_at; eauto|]. by exists i, j. }
    exists i', j', w1, (word_positions text w1), w2, (word_positions text w2), p1, p2.
    rewrite !list_lookup_fmap. subst matched. rewrite Hi', Hj'. cbn.
    repeat split; try done; by apply word_positions_spec.
Qed.

(** Two different places of the query whose words occur mean at least
    two matched words. *)
Lemma two_places_matched query_words text i j word1 word2 pos1 pos2 :
  query_words !! i = Some word1 -> query_words !! j = Some word2 -> i <> j ->
  occurs_at text word1 pos1 -> occurs_at text word2 pos2 ->
  (2 <= count_matched query_words text)%nat.
Proof.
  intros Hi Hj Hij Ho1 Ho2.
  destruct (proj2 (two_places_filter (fun word => contains word text = true)
                     query_words word1 word2)) as (i' & j' & Hi' & Hj' & Hij').
  { split; [apply contains_occurs_at; eauto|].
    split; [apply contains_occurs_at; eauto|]. by exists i, j. }
  unfold count_matched. apply lookup_lt_Some in Hi', Hj'. lia.
Qed.

(** C6.  For a query with more than one word, on an engine built by
    [__init__] (proximity distance 50), in exact arithmetic:
    the bonus is [0.5] if and only if the lowercase query occurs verbatim
    in the lowercase text; the bonus is [0.3] if and only if the phrase
    does not occur and two words at different places of the query occur
    in the text at positions at most 50 characters apart; the bonus is
    [0] if and only if the phrase does not occur and there are no such
    occurrences, so at 51 characters the bonus is withheld.  In
    particular two distinct query words that occur at most 50 characters
    apart give [0.3] when the phrase does not occur, and for a query
    without repeated words a bonus of [0.3] means that two distinct query
    words occur that close.  The bonus is always one of [0], [0.3],
    [0.5]: the proximity bonus is added at most once and is never [0.6].
    Whatever the arithmetic, [_calculate_proximity_bonus] with distance 50
    returns the literal [0.3] when there are such occurrences and the
    literal [0.0] when there are none. *)
Theorem C6_phrase_and_proximity_bonus
    (semantic_weight keyword_weight : Q) (query_text document_text : string) :
  let self := init semantic_weight keyword_weight in
  let query_words := split (lower query_text) in
  let text_lower := lower document_text in
  let bonus := added_bonus self query_text document_text in
  let close_occurrences :=
    exists i j word1 word2 pos1 pos2,
      query_words !! i = Some word1 /\ query_words !! j = Some word2 /\ i <> j /\
      occurs_at text_lower word1 pos1 /\ occurs_at text_lower word2 pos2 /\
      Z.abs (pos1 - pos2) <= 50 in
  (1 < length query_words)%nat ->
  ((bonus == 5 # 10)%Q <-> contains (lower query_text) text_lower = true) /\
  ((bonus == 3 # 10)%Q <->
   contains (lower query_text) text_lower = false /\ close_occurrences) /\
  ((bonus == 0)%Q <->
   contains (lower query_text) text_lower = false /\ ~ close_occurrences) /\
  (contains (lower query_text) text_lower = false ->
   (exists word1 word2 pos1 pos2,
      word1 ∈ query_words /\ word2 ∈ query_words /\ word1 <> word2 /\
      occurs_at text_lower word1 pos1 /\ occurs_at text_lower word2 pos2 /\
      Z.abs (pos1 - pos2) <= 50) ->
   (bonus == 3 # 10)%Q) /\
  (NoDup query_words -> (bonus == 3 # 10)%Q ->
   exists word1 word2 pos1 pos2,
     word1 ∈ query_words /\ word2 ∈ query_words /\ word1 <> word2 /\
     occurs_at text_lower word1 pos1 /\ occurs_at text_lower word2 pos2 /\
     Z.abs (pos1 - pos2) <= 50) /\
  ((bonus == 0)%Q \/ (bonus == 3 # 10)%Q \/ (bonus == 5 # 10)%Q) /\
  ~ (bonus == 6 # 10)%Q /\
  (forall F (N : Num F) (engine : HybridSearchEngine F),
     proximity_distance engine = 50 ->
     (close_occurrences ->
      _calculate_proximity_bonus engine query_words text_lower = f0_3) /\
     (~ close_occurrences ->
      _calculate_proximity_bonus engine query_words text_lower = f0_0)).
Proof.
  intros self query_words text_lower bonus close_occurrences Hlen.
  assert (query_words <> []) as Hne by (intros E; rewrite E in Hlen; cbn in Hlen; lia).
  assert (close_pair 50 (words_found query_words text_lower) <-> close_occurrences)
    as Hclose by apply close_pair_query_words.
  assert ((exists word1 word2 pos1 pos2,
             word1 ∈ query_words /\ word2 ∈ query_words /\ word1 <> word2 /\
             occurs_at text_lower word1 pos1 /\ occurs_at text_lower word2 pos2 /\
             Z.abs (pos1 - pos2) <= 50) -> close_occurrences) as Hdistinct.
  { intros (w1 & w2 & p1 & p2 & Hin1 & Hin2 & Hw & Ho1 & Ho2 & Hd).
    apply list_elem_of_lookup in Hin1 as [i Hi], Hin2 as [j Hj].
    exists i, j, w1, w2, p1, p2.
    split; [exact Hi|]. split; [exact Hj|]. split; [congruence | done]. }
  assert (NoDup query_words -> close_occurrences ->
          exists word1 word2 pos1 pos2,
            word1 ∈ query_words /\ word2 ∈ query_words /\ word1 <> word2 /\
            occurs_at text_lower word1 pos1 /\ occurs_at text_lower word2 pos2 /\
            Z.abs (pos1 - pos2) <= 50) as Hnodup.
  { intros Hnd (i & j & w1 & w2 & p1 & p2 & Hi & Hj & Hij & Ho1 & Ho2 & Hd).
    exists w1, w2, p1, p2.
    split; [apply list_elem_of_lookup; by exists i|].
    split; [apply list_elem_of_lookup; by exists j|].
    split; [|done]. intros ->. apply Hij. by eapply NoDup_lookup. }
  assert ((bonus == 5 # 10)%Q /\ contains (lower query_text) text_lower = true \/
          (bonus == 3 # 10)%Q /\ contains (lower query_text) text_lower = false /\
            close_occurrences \/
          (bonus == 0)%Q /\ contains (lower query_text) text_lower = false /\
            ~ close_occurrences) as Hsituation.
  { destruct (keyword_score_Q self query_text document_text Hne)
      as (b & Hscore & Hcases).
    pose proof (added_bonus_eq self query_text document_text b Hne Hscore) as Hb.
    fold bonus in Hb. fold query_words text_lower in Hcases.
    destruct Hcases as [(_ & Hc & ->) | [(_ & Hc & Hm & ->) | ([Hn | [Hc Hm]] & ->)]].
    - by left.
    - destruct (proximity_bonus_cases self query_words text_lower)
        as [[Hp Hcp] | [Hp Hcp]]; rewrite Hp in Hb; cbn [f0_3 f0_0 Q_Num] in Hb.
      + right; left. by rewrite <- Hclose.
      + right; right. by rewrite <- Hclose.
    - lia.
    - right; right. split; [exact Hb|]. split; [exact Hc|].
      intros (i & j & w1 & w2 & p1 & p2 & Hi & Hj & Hij & Ho1 & Ho2 & Hd).
      pose proof (two_places_matched query_words text_lower i j w1 w2 p1 p2
                    Hi Hj Hij Ho1 Ho2). lia. }
  assert (forall F (N : Num F) (engine : HybridSearchEngine F),
            proximity_distance engine = 50 ->
            (close_occurrences ->
             _calculate_proximity_bonus engine query_words text_lower = f0_3) /\
            (~ close_occurrences ->
             _calculate_proximity_bonus engine query_words text_lower = f0_0))
    as Hgeneric.
  { intros F N engine Hdistance.
    destruct (proximity_bonus_cases engine query_words text_lower)
      as [[Hp Hcp] | [Hp Hcp]]; rewrite Hdistance in Hcp; rewrite Hp;
      apply Hclose in Hcp || rewrite Hclose in Hcp; tauto. }
  clearbody close_occurrences bonus.
  destruct Hsituation as [(Hb & Hc) | [(Hb & Hc & Hp) | (Hb & Hc & Hp)]];
    rewrite Hb, Hc; intuition (first [lra | congruence | done]).
Qed.

End Bonus.

(* ===================================================================== *)
(** * The hybrid score (C5)                                               *)
(* ===================================================================== *)

Section HybridScore.
Import HybridSearch.


End HybridScore.

(* ===================================================================== *)
(** * Facts about loops that may raise and about the sort                 *)
(* ===================================================================== *)

Section LoopFacts.

Lemma for_each_Ok {A B} (body : A -> exc B) (l : list A) (ys : list B) :
  for_each body l = Ok ys <-> Forall2 (fun x y => body x = Ok y) l ys.
Proof.
  revert ys. induction l as [|x r IH]; intros ys; cbn [for_each].
  - split.
    + intros Heq. inversion Heq. constructor.
    + intros Hall. inversion Hall. reflexivity.
  - destruct (body x) as [y|e] eqn:Ex; cbn.
    + destruct (for_each body r) as [ys'|e] eqn:Er; cbn.
      * split.
        -- intros Heq. inversion Heq; subst. constructor; [exact Ex | by apply IH].
        -- intros Hall. inversion Hall as [|x' y' r' ys'' Hxy Hr]; subst.
           apply IH in Hr. congruence.
      * split; [discriminate|].
        intros Hall. inversion Hall as [|x' y' r' ys'' Hxy Hr]; subst.
        apply IH in Hr. discriminate.
    + split; [discriminate|].
      intros Hall. inversion Hall as [|x' y' r' ys'' Hxy Hr]; subst. congruence.
Qed.

Lemma for_each_total {A B} (body : A -> exc B) (l : list A) :
  Forall (fun x => exists y, body x = Ok y) l -> exists ys, for_each body l = Ok ys.
Proof.
  induction 1 as [|x r [y Hy] _ [ys Hys]]; cbn [for_each].
  - by exists [].
  - exists (y :: ys). rewrite Hy, Hys. reflexivity.
Qed.

End LoopFacts.

Section SortFacts.
Import HybridSearch.

Lemma insert_desc_perm {F} `{Num F} {A} (key : A -> F) x l :
  insert_desc key x l ≡ₚ x :: l.
Proof.
  induction l as [|y r IH]; cbn [insert_desc]; [reflexivity|].
  destruct (fltb (key x) (key y)); [|reflexivity].
  rewrite IH. apply Permutation_swap.
Qed.

Lemma sort_desc_perm {F} `{Num F} {A} (key : A -> F) l :
  sort_desc key l ≡ₚ l.
Proof.
  induction l as [|x r IH]; cbn [sort_desc]; [reflexivity|].
  rewrite insert_desc_perm. by constructor.
Qed.

Lemma fltb_Q_true (x y : Q) : fltb x y = true <-> (x < y)%Q.
Proof.
  cbn [fltb Q_Num]. rewrite negb_true_iff.
  destruct (Qle_bool y x) eqn:E.
  - apply Qle_bool_iff in E. split; [discriminate|]. intros Hlt.
    exfalso. by apply (Qlt_not_le x y).
  - split; [|reflexivity]. intros _. apply Qnot_le_lt. intros Hle.
    apply Qle_bool_iff in Hle. congruence.
Qed.

Lemma fltb_Q_false (x y : Q) : fltb x y = false <-> (y <= x)%Q.
Proof.
  cbn [fltb Q_Num]. rewrite negb_false_iff. apply Qle_bool_iff.
Qed.

(** ** The comparisons of IEEE binary64 *)

Lemma SFcompare_refl x : x <> S754_nan -> SFcompare x x = Some Eq.
Proof.
  destruct x as [s|s| |s m e]; intros Hx; try done; cbn.
  - by destruct s.
  - destruct s; by rewrite Z.compare_refl, Pos.compare_cont_refl.
Qed.

Lemma SFltb_asym x y : SFltb x y = true -> SFltb y x = false.
Proof.
  unfold SFltb.
  destruct x as [sx|sx| |sx mx ex], y as [sy|sy| |sy my ey]; cbn; try done;
    try (destruct sx; done); try (destruct sy; done);
    try (destruct sx, sy; done).
  change (Pos.compare_cont Eq mx my) with (mx ?= my)%positive.
  change (Pos.compare_cont Eq my mx) with (my ?= mx)%positive.
  rewrite (Z.compare_antisym ex ey), (Pos.compare_antisym mx my).
  destruct sx, sy; try done;
    destruct (ex ?= ey); cbn; try done; destruct (mx ?= my)%positive; done.
Qed.

Ltac compare_cases :=
  change (Pos.compare_cont Eq) with Pos.compare in *;
  repeat match goal with
  | H : context [(?a ?= ?b)%Z] |- _ =>
      destruct (Z.compare_spec a b); cbn in H; try discriminate H
  | H : context [(?a ?= ?b)%positive] |- _ =>
      destruct (Pos.compare_spec a b); cbn in H; try discriminate H
  | |- context [(?a ?= ?b)%Z] => destruct (Z.compare_spec a b); cbn
  | |- context [(?a ?= ?b)%positive] => destruct (Pos.compare_spec a b); cbn
  end; try done; try lia.

Lemma SFltb_negtrans x y z :
  x <> S754_nan -> y <> S754_nan -> z <> S754_nan ->
  SFltb x y = false -> SFltb y z = false -> SFltb x z = false.
Proof.
  unfold SFltb. intros Hx Hy Hz.
  destruct x as [sx|sx| |sx mx ex]; try done;
  destruct y as [sy|sy| |sy my ey]; try done;
  destruct z as [sz|sz| |sz mz ez]; try done; cbn;
    try (destruct sx; done); try (destruct sy; done); try (destruct sz; done);
    try (destruct sx, sy; done); try (destruct sx, sz; done);
    try (destruct sy, sz; done); try (destruct sx, sy, sz; done).
  destruct sx, sy, sz; try done; intros H1 H2; compare_cases.
Qed.

Lemma SFeqb_not_ltb x y v :
  SFeqb x v = true -> SFeqb y v = true -> SFltb x y = false.
Proof.
  unfold SFeqb, SFltb.
  destruct x as [sx|sx| |sx mx ex]; try done;
  destruct y as [sy|sy| |sy my ey]; try done;
  destruct v as [sv|sv| |sv mv ev]; try done; cbn;
    try (destruct sx; done); try (destruct sy; done); try (destruct sv; done);
    try (destruct sx, sy; done); try (destruct sx, sv; done);
    try (destruct sy, sv; done); try (destruct sx, sy, sv; done).
  destruct sx, sy, sv; try done; intros H1 H2; compare_cases.
Qed.

(** ** Exact arithmetic and binary64 are ordered *)

#[global] Instance Q_Ordered : Ordered Q.
Proof.
  split.
  - intros x y Hlt. apply fltb_Q_true in Hlt. apply fltb_Q_false.
    by apply Qlt_le_weak.
  - intros x y z _ _ _ Hxy Hyz. apply fltb_Q_false in Hxy, Hyz.
    apply fltb_Q_false. by apply (Qle_trans _ y).
  - intros x y v Hx Hy. cbn [feqb Q_Num] in Hx, Hy. apply Qeq_bool_iff in Hx, Hy.
    apply fltb_Q_false. rewrite Hx, Hy. apply Qle_refl.
Qed.

Lemma isnan_float (x : float) : isnan x = false -> Prim2SF x <> S754_nan.
Proof.
  unfold isnan. cbn [feqb float_Num]. rewrite negb_false_iff, FloatAxioms.eqb_spec.
  intros Heq Hnan. rewrite Hnan in Heq. discriminate.
Qed.

#[global] Instance float_Ordered : Ordered float.
Proof.
  split; cbn [fltb feqb float_Num].
  - intros x y. rewrite !FloatAxioms.ltb_spec. apply SFltb_asym.
  - intros x y z Hx%isnan_float Hy%isnan_float Hz%isnan_float.
    rewrite !FloatAxioms.ltb_spec. by apply SFltb_negtrans.
  - intros x y v. rewrite !FloatAxioms.eqb_spec, FloatAxioms.ltb_spec.
    apply SFeqb_not_ltb.
Qed.

Section Sorting.
Context {F : Type} `{Ordered F} {A : Type} (key : A -> F).

Lemma insert_desc_descending x l :
  isnan (key x) = false -> Forall (fun a => isnan (key a) = false) l ->
  descending key l -> descending key (insert_desc key x l).
Proof.
  unfold descending. intros Hx Hl Hd.
  induction Hd as [|y r Hr IH Hy]; cbn [insert_desc].
  - repeat constructor.
  - inversion Hl as [|? ? Hny Hnr]; subst.
    destruct (fltb (key x) (key y)) eqn:E.
    + constructor; [by apply IH|].
      apply Forall_forall. intros z Hz.
      rewrite insert_desc_perm in Hz.
      apply elem_of_cons in Hz as [-> | Hz]; [by apply fltb_asym|].
      rewrite Forall_forall in Hy. by apply Hy.
    + constructor; [by constructor|].
      constructor; [exact E|].
      rewrite Forall_forall in Hy, Hnr. apply Forall_forall. intros z Hz.
      apply (fltb_negtrans _ (key y)); auto.
Qed.

Lemma sort_desc_descending l :
  Forall (fun a => isnan (key a) = false) l -> descending key (sort_desc key l).
Proof.
  induction 1 as [|x r Hx Hr IH]; cbn [sort_desc]; [constructor|].
  apply insert_desc_descending; [exact Hx | | exact IH].
  by rewrite sort_desc_perm.
Qed.

(** Stability: the elements with a given key come out in the order in
    which they went in. *)
Lemma insert_desc_stable v x l :
  with_key key v (insert_desc key x l) = with_key key v (x :: l).
Proof.
  unfold with_key.
  induction l as [|y r IH]; cbn [insert_desc]; [reflexivity|].
  destruct (fltb (key x) (key y)) eqn:E; [|reflexivity].
  cbn [List.filter] in *. rewrite IH.
  destruct (feqb (key x) v) eqn:Ex; [|reflexivity].
  destruct (feqb (key y) v) eqn:Ey; [|reflexivity].
  rewrite (feqb_not_fltb _ _ v Ex Ey) in E. discriminate.
Qed.

Lemma sort_desc_stable v l :
  with_key key v (sort_desc key l) = with_key key v l.
Proof.
  unfold with_key.
  induction l as [|x r IH]; cbn [sort_desc]; [reflexivity|].
  pose proof (insert_desc_stable v x (sort_desc key r)) as Hi.
  unfold with_key in Hi. rewrite Hi. cbn [List.filter]. by rewrite IH.
Qed.

End Sorting.
Lemma length_slice_to {A} (l : list A) (stop : Z) :
  0 <= stop ->
  slice_to l stop = take (Z.to_nat stop) l /\
  Z.of_nat (length (slice_to l stop)) <= stop.
Proof.
  intros Hstop. unfold slice_to.
  destruct (Z.leb_spec 0 stop) as [_|]; [|lia].
  split; [reflexivity|]. rewrite length_take. lia.
Qed.

End SortFacts.

(* ===================================================================== *)
(** * Re-ranking (C8, C10) and the fallback of search (C7)                *)
(* ===================================================================== *)

Section Rerank.
Import HybridSearch.

(** The loop body returns exactly when the text is a [str] and the score
    a number, and then it returns the candidate with three fields set. *)
Lemma hybrid_result_Ok {F} `{Num F} (self : HybridSearchEngine F) query_text
    query_words (result out : gmap string (value F)) :
  hybrid_result self query_text query_words result = Ok out <->
  exists text score,
    get result "text" (VStr "") = VStr text /\
    float_operand (get result "score" (VFloat f0_0)) = Ok score /\
    out = enhanced self query_text
            (calculate_hybrid_score self score
               (calculate_keyword_score self query_text text)
               (count_matched query_words (lower text)) (length query_words))
            result.
Proof.
  unfold hybrid_result, enhanced, text_of.
  destruct (get result "text" (VStr "")) as [| | |text|] eqn:Et;
    cbn [lower_receiver mbind exc_bind];
    try (split; [discriminate | intros (t & s & Ht & _); discriminate]).
  destruct (float_operand (get result "score" (VFloat f0_0))) as [score|e] eqn:Es;
    cbn [mbind exc_bind].
  - split.
    + intros Heq. inversion Heq. exists text, score. done.
    + intros (t & s & Ht & Hs & ->). inversion Ht; inversion Hs; subst. done.
  - split; [discriminate | intros (t & s & _ & Hs & _); discriminate].
Qed.

Lemma hybrid_result_fields {F} `{Num F} (self : HybridSearchEngine F) query_text
    hybrid_score (result : gmap string (value F)) :
  let out := enhanced self query_text hybrid_score result in
  out !! "score" = Some (VFloat hybrid_score) /\
  out !! "semantic_score" = Some (get result "score" (VFloat f0_0)) /\
  out !! "keyword_score" =
    Some (VFloat (calculate_keyword_score self query_text (text_of result))) /\
  forall key, key <> "score" -> key <> "semantic_score" -> key <> "keyword_score" ->
              out !! key = result !! key.
Proof.
  unfold enhanced. cbv zeta. repeat split.
  - rewrite lookup_insert_ne by done. rewrite lookup_insert_ne by done.
    by rewrite lookup_insert_eq.
  - rewrite lookup_insert_ne by done. by rewrite lookup_insert_eq.
  - by rewrite lookup_insert_eq.
  - intros key H1 H2 H3. by rewrite !lookup_insert_ne.
Qed.

(** C10.  For a query with at least one word and semantic results whose
    text is a [str] and whose score is a number, [rerank_results] returns
    a list of the same length that holds exactly the input candidates in
    some order: each entry is an input candidate with the fields [score],
    [semantic_score] and [keyword_score] set, where [semantic_score] is the
    candidate's original score and [keyword_score] is
    [calculate_keyword_score] of the query and the candidate's text. *)
Theorem C10_rerank_keeps_candidates {F} `{Num F} (self : HybridSearchEngine F)
    (query_text : string) (semantic_results : list (gmap string (value F))) :
  split (lower query_text) <> [] ->
  Forall is_semantic_result semantic_results ->
  exists out,
    rerank_results self query_text semantic_results = Ok out /\
    length out = length semantic_results /\
    exists candidates,
      candidates ≡ₚ semantic_results /\
      Forall2
        (fun candidate entry =>
           (exists hybrid_score,
              entry = enhanced self query_text hybrid_score candidate) /\
           entry !! "semantic_score" = Some (get candidate "score" (VFloat f0_0)) /\
           entry !! "keyword_score" =
             Some (VFloat (calculate_keyword_score self query_text
                             (text_of candidate))) /\
           forall key, key <> "score" -> key <> "semantic_score" ->
                       key <> "keyword_score" ->
                       entry !! key = candidate !! key)
        candidates out.
Proof.
  intros Hne Htyped. unfold rerank_results.
  destruct (split (lower query_text)) as [|w ws] eqn:Ew; [congruence|].
  set (query_words := w :: ws).
  destruct (for_each_total (hybrid_result self query_text query_words)
              semantic_results) as [hs Hhs].
  { eapply Forall_impl; [exact Htyped|].
    intros r [[text Ht] [score Hs]]. eexists.
    apply hybrid_result_Ok. exists text, score. done. }
  rewrite Hhs. cbn [mbind exc_bind].
  exists (sort_desc score_key hs). split; [reflexivity|].
  apply for_each_Ok in Hhs.
  pose proof (sort_desc_perm score_key hs) as Hperm.
  split.
  { rewrite Hperm. symmetry. by eapply Forall2_length. }
  apply Forall2_flip in Hhs.
  destruct (Permutation_Forall2 (Permutation_sym Hperm) Hhs)
    as (candidates & Hcperm & Hall).
  exists candidates. split; [by symmetry|].
  apply Forall2_flip in Hall.
  eapply Forall2_impl; [exact Hall|].
  intros candidate entry Hentry. cbn in Hentry.
  apply hybrid_result_Ok in Hentry as (text & score & Ht & Hs & ->).
  pose proof (hybrid_result_fields self query_text
    (calculate_hybrid_score self score
       (calculate_keyword_score self query_text text)
       (count_matched query_words (lower text)) (length query_words))
    candidate) as (_ & Hsem & Hkw & Hother).
  split; [eauto|]. split; [exact Hsem|]. split; [exact Hkw | exact Hother].
Qed.

End Rerank.

Section RerankOrder.
Import HybridSearch Samples MoreSamples.

(** C8, as the code has it.  For a query with at least one word, when
    no hybrid score is NaN, the list that [rerank_results] returns is the
    list of re-scored candidates sorted in descending order of hybrid
    score, candidates with equal hybrid score keeping their original
    semantic order; for a query without words the semantic results are
    returned as they are, in the order given.  [search] returns the slice
    [[:limit]] of this list, which for a non-negative [limit] is its first
    [limit] entries, at most [limit] of them.  The statement holds for
    every arithmetic that is [Ordered]: exact arithmetic and IEEE
    binary64. *)
Theorem C8_rerank_sorted_stable_truncated {F} `{Ordered F}
    (self : HybridSearchEngine F) (query_text : string)
    (semantic_results out : list (gmap string (value F))) :
  rerank_results self query_text semantic_results = Ok out ->
  Forall (fun entry => isnan (score_key entry) = false) out ->
  match split (lower query_text) with
  | [] => out = semantic_results
  | _ :: _ =>
      exists hybrid_results,
        Forall2 (fun result entry =>
                   hybrid_result self query_text (split (lower query_text)) result
                   = Ok entry)
                semantic_results hybrid_results /\
        out ≡ₚ hybrid_results /\
        descending score_key out /\
        forall v, with_key score_key v out = with_key score_key v hybrid_results
  end /\
  forall (semantic_search_func : semantic_search) limit filter_dict,
    semantic_search_func query_text (Z.max (limit * 4) 20) filter_dict
    = Ok semantic_results ->
    semantic_results <> [] ->
    search self query_text semantic_search_func limit filter_dict
    = Ok (slice_to out limit) /\
    (0 <= limit ->
     slice_to out limit = take (Z.to_nat limit) out /\
     Z.of_nat (length (slice_to out limit)) <= limit).
Proof.
  intros Hout Hnan. split.
  - unfold rerank_results in Hout.
    destruct (split (lower query_text)) as [|w ws] eqn:Ew.
    + by inversion Hout.
    + destruct (for_each (hybrid_result self query_text (w :: ws)) semantic_results)
        as [hs|e] eqn:Ehs; cbn [mbind exc_bind] in Hout; [|discriminate].
      inversion Hout; subst out. exists hs.
      split; [by apply for_each_Ok|].
      split; [apply sort_desc_perm|].
      split; [|intros v; apply sort_desc_stable].
      apply sort_desc_descending. by rewrite <- (sort_desc_perm score_key hs).
  - intros f limit filter_dict Hf Hne. unfold search.
    rewrite Hf. cbn [mbind exc_bind].
    destruct semantic_results as [|r rs]; [congruence|].
    rewrite Hout. cbn [mbind exc_bind try_except].
    split; [reflexivity|]. apply length_slice_to.
Qed.

(** The property fails in three ways.  For a query without words the
    input order is returned, whatever the scores are.  With a NaN among
    the binary64 scores the sort leaves the hybrid scores 0.7, NaN, 1.4
    in this order, which is not descending.  With the limit -1 the slice
    drops the last entry: of three candidates two are returned, which is
    neither the first -1 entries nor at most -1 results. *)
Lemma C8_counterexample_unsorted_or_too_many :
  (rerank_results (hybrid_search_engine (F:=Q)) "" [low_hit; high_hit]
   = Ok [low_hit; high_hit] /\
   ~ descending score_key [low_hit; high_hit]) /\
  (rerank_results (hybrid_search_engine (F:=float)) "alpha" nan_hits
   = Ok reranked_nan_hits /\
   map score_key reranked_nan_hits = [0.7; nan; 1.4]%float /\
   ~ descending score_key reranked_nan_hits) /\
  (HybridSearch.search hybrid_search_engine "alpha" answer_three_hits (-1) None
   = Ok (slice_to reranked_three_hits (-1)) /\
   length (slice_to reranked_three_hits (-1)) = 2%nat).
Proof.
  split; [|split].
  - split; [reflexivity|].
    intros Hd. inversion Hd as [|a l _ Hall]; subst.
    inversion Hall as [|b l' Hlt _]; subst.
    vm_compute in Hlt. discriminate Hlt.
  - split; [vm_cast_no_check (eq_refl (Ok (A:=list (gmap string (value float)))
                                        reranked_nan_hits))|].
    split; [vm_compute; reflexivity|].
    intros Hd. inversion Hd as [|a l _ Hall]; subst.
    inversion Hall as [|b l' _ Hall']; subst.
    inversion Hall' as [|c l'' Hlt _]; subst.
    vm_compute in Hlt. discriminate Hlt.
  - split; [|vm_compute; reflexivity].
    vm_cast_no_check (eq_refl (Ok (A:=list (gmap string (value Q)))
                                 (slice_to reranked_three_hits (-1)))).
Qed.

(** C7, as the code has it.  When re-ranking raises, [search] does not let
    that exception out: it calls the semantic search function a second
    time, with [limit], and returns whatever that call returns or raises.
    The result is therefore the original semantic results cut to [limit]
    exactly when the second call answers with that prefix. *)
Theorem C7_fallback_queries_again {F} `{Num F} (self : HybridSearchEngine F)
    (query_text : string) (semantic_search_func : semantic_search) (limit : Z)
    (filter_dict : option (gmap string (value F)))
    (semantic_results : list (gmap string (value F))) (e : exception) :
  semantic_search_func query_text (Z.max (limit * 4) 20) filter_dict
  = Ok semantic_results ->
  semantic_results <> [] ->
  rerank_results self query_text semantic_results = Raise e ->
  search self query_text semantic_search_func limit filter_dict
  = semantic_search_func query_text limit filter_dict /\
  (search self query_text semantic_search_func limit filter_dict
   = Ok (slice_to semantic_results limit) <->
   semantic_search_func query_text limit filter_dict
   = Ok (slice_to semantic_results limit)).
Proof.
  intros Hf Hne Hraise.
  assert (search self query_text semantic_search_func limit filter_dict
          = semantic_search_func query_text limit filter_dict) as Heq.
  { unfold search. rewrite Hf. cbn [mbind exc_bind].
    destruct semantic_results as [|r rs]; [congruence|].
    rewrite Hraise. reflexivity. }
  split; [exact Heq|]. by rewrite Heq.
Qed.

(** The property fails for a semantic search function that does not cut
    its answer to [limit]: re-ranking raises on the hit without text, and
    the fallback returns all three hits although [limit] is 1. *)
Lemma C7_counterexample_not_truncated :
  fixed_answer "alpha" (Z.max (1 * 4) 20) None = Ok [broken_hit; high_hit; low_hit] /\
  is_Ok (rerank_results hybrid_search_engine "alpha" [broken_hit; high_hit; low_hit])
  = false /\
  search hybrid_search_engine "alpha" fixed_answer 1 None
  = Ok [broken_hit; high_hit; low_hit] /\
  search hybrid_search_engine "alpha" fixed_answer 1 None
  <> Ok (slice_to [broken_hit; high_hit; low_hit] 1).
Proof.
  split; [reflexivity|]. split; [reflexivity|]. split; [reflexivity|].
  intros Heq. vm_compute in Heq. discriminate Heq.
Qed.

End RerankOrder.

(* ===================================================================== *)
(** * Facts about the gateway                                             *)
(* ===================================================================== *)

Section GatewayFacts.
Import App Models QdrantClient DocumentRouter.
Context {F : Type} `{Num F}.

Lemma same_store_refl (w : World F) : same_store w w.
Proof. by repeat split. Qed.

Lemma same_store_trans (w1 w2 w3 : World F) :
  same_store w1 w2 -> same_store w2 w3 -> same_store w1 w3.
Proof.
  intros (? & ? & ? & ?) (? & ? & ? & ?). repeat split; congruence.
Qed.

(** [initialize_qdrant] never raises, answers [backend_ready], and leaves
    rows and files alone; when it answers [True] the gateway object is
    fully set up. *)
Lemma initialize_qdrant_spec (b : Backend F) (w : World F) :
  exists w',
    run (initialize_qdrant b) w = (w', Ok (backend_ready b w)) /\
    same_store w w' /\ uuids_drawn w' = uuids_drawn w /\
    (forall name, default [] (collections w' !! name)
                  = default [] (collections w !! name)) /\
    (backend_ready b w = true ->
     client (qdrant_client w') = true /\
     embedding_model (qdrant_client w') = true /\
     collection_name (qdrant_client w') = Some (env_collection_name b)).
Proof.
  unfold initialize_qdrant, backend_ready, connect, initialize_collection,
    load_embedding_model.
  destruct (qdrant_connect b) eqn:E1; cbn;
    [destruct (get_collections b) eqn:E2; cbn;
     [destruct (collections w !! env_collection_name b) eqn:E3; cbn;
      [|destruct (create_collection b) eqn:E4; cbn];
      destruct (load_model b) eqn:E5; cbn|]|].
  all: rewrite ?E2, ?E3, ?E4, ?E5; cbn.
  all: eexists; (split; [reflexivity|]); (split; [by repeat split|]);
    (split; [reflexivity|]); (split; [|done]); cbn; try done.
  all: intros name; destruct (decide (name = env_collection_name b)) as [->|Hne];
    [by rewrite lookup_insert_eq, E3 | by rewrite lookup_insert_ne].
Qed.

Lemma run_bind {A B} (m : stexc F A) (f : A -> stexc F B) (w : World F) :
  run (m ≫= f) w =
  match run m w with
  | (w', Ok a) => run (f a) w'
  | (w', Raise e) => (w', Raise e)
  end.
Proof. reflexivity. Qed.

Lemma run_try {A} (body : stexc F A) (handler : exception -> stexc F A) (w : World F) :
  run (try_ body handler) w =
  match run body w with
  | (w', Ok a) => (w', Ok a)
  | (w', Raise e) => run (handler e) w'
  end.
Proof. reflexivity. Qed.

Lemma build_points_spec (b : Backend F) docs : forall w,
  exists w' r,
    run (build_points b docs) w = (w', r) /\
    same_store w w' /\ qdrant_client w' = qdrant_client w /\
    collections w' = collections w /\
    forall points, r = Ok points ->
      Forall2 (fun d p => point_carries (fst d) (snd d) p) docs points.
Proof.
  induction docs as [|[i doc] rest IH]; intros w; cbn [build_points].
  - exists w, (Ok []). cbn. repeat split. intros points Heq.
    inversion Heq. constructor.
  - cbn.
    destruct (get doc "text" (VStr "")) as [| | |text|] eqn:Et; cbn;
      try (eexists _, _; split; [reflexivity|]; repeat split; discriminate).
    destruct (encode b text) as [embedding|e] eqn:Ee; cbn;
      [|eexists _, _; split; [reflexivity|]; repeat split; discriminate].
    destruct (IH (with_uuids_drawn (S (uuids_drawn w)) w))
      as (w' & r & Hrun & (Hd & Hc & Hn & Hf) & Hq & Hcol & Hpoints).
    rewrite run_bind, Hrun. destruct r as [points|e]; cbn.
    + eexists _, _. split; [reflexivity|]. split; [by repeat split|].
      split; [exact Hq|]. split; [exact Hcol|].
      intros points' Heq. inversion Heq; subst. constructor.
      * unfold point_carries. cbn [payload fst snd].
        rewrite lookup_insert_eq.
        do 4 (rewrite lookup_insert_ne by done). rewrite lookup_insert_eq.
        do 1 (rewrite lookup_insert_ne by done).
        do 2 (rewrite lookup_insert_ne by done). rewrite lookup_insert_eq.
        by rewrite Et.
      * by apply Hpoints.
    + eexists _, _. split; [reflexivity|]. split; [by repeat split|].
      split; [exact Hq|]. split; [exact Hcol|]. discriminate.
Qed.

(** [insert_documents] never raises and leaves rows and files alone; it
    answers [False] when the upsert raises; when it answers [True] the
    whole batch, and nothing else, was added to the collection. *)
Lemma insert_documents_spec (b : Backend F) documents (w : World F) :
  exists w' r,
    run (insert_documents b documents) w = (w', Ok r) /\
    same_store w w' /\
    (is_Ok (upsert b) = false -> r = false) /\
    (r = true ->
     exists name points,
       collection_name (qdrant_client w) = Some name /\
       collections w' =
         <[name := default [] (collections w !! name) ++ points]> (collections w) /\
       Forall2 (fun d p => point_carries (fst d) (snd d) p)
               (HybridSearch.enumerate documents) points).
Proof.
  unfold insert_documents. cbn.
  destruct (client (qdrant_client w) && embedding_model (qdrant_client w)); cbn;
    [|eexists _, _; split; [reflexivity|]; split; [apply same_store_refl|]; done].
  destruct (build_points_spec b (HybridSearch.enumerate documents) w)
    as (w1 & r1 & Hrun & Hstore & Hq & Hcol & Hpoints).
  rewrite run_bind, Hrun. destruct r1 as [points|e]; cbn;
    [|eexists _, _; split; [reflexivity|]; split; [exact Hstore|]; done].
  destruct (upsert b) as [[]|e]; cbn;
    [|eexists _, _; split; [reflexivity|]; split; [exact Hstore|]; done].
  destruct (collection_name (qdrant_client w)) as [name|] eqn:En; cbn;
    [|eexists _, _; split; [reflexivity|]; split; [exact Hstore|]; done].
  eexists _, _. split; [reflexivity|].
  destruct Hstore as (Hd & Hc & Hn & Hf).
  split; [by repeat split|]. split; [done|]. intros _.
  exists name, points. split; [reflexivity|]. cbn. rewrite Hcol.
  split; [reflexivity|]. by apply Hpoints.
Qed.

(** [search] never raises and changes nothing; without a ready client,
    or when the embedding or the vector query raises, it answers [[]]. *)
Lemma search_spec (b : Backend F) query_text limit filter_dict (w : World F) :
  exists results,
    run (search b query_text limit filter_dict) w = (w, Ok results) /\
    (client (qdrant_client w) && embedding_model (qdrant_client w) = false ->
     results = []) /\
    (is_Ok (encode b query_text) = false -> results = []) /\
    (forall embedding,
       encode b query_text = Ok embedding ->
       is_Ok (search_points b embedding (query_filter filter_dict) limit) = false ->
       results = []) /\
    (forall embedding points,
       client (qdrant_client w) && embedding_model (qdrant_client w) = true ->
       encode b query_text = Ok embedding ->
       search_points b embedding (query_filter filter_dict) limit = Ok points ->
       results = map format_result points).
Proof.
  unfold search. cbn.
  destruct (client (qdrant_client w) && embedding_model (qdrant_client w)); cbn;
    [|eexists; split; [reflexivity|]; repeat split; done].
  destruct (encode b query_text) as [embedding|e] eqn:Ee; cbn;
    [|eexists; split; [reflexivity|]; repeat split; done].
  destruct (search_points b embedding (query_filter filter_dict) limit)
    as [points|e] eqn:Es; cbn.
  - eexists; split; [reflexivity|]. repeat split; try done.
    + intros embedding' Heq. inversion Heq; subst. by rewrite Es.
    + intros embedding' points' _ Heq Hs. inversion Heq; subst.
      rewrite Es in Hs. by inversion Hs.
  - eexists; split; [reflexivity|]. repeat split; try done.
    intros embedding' points' _ Heq Hs. inversion Heq; subst. congruence.
Qed.

End GatewayFacts.

(* ===================================================================== *)
(** * Facts about the ingestion handlers                                  *)
(* ===================================================================== *)

Section IngestionFacts.
Import App Models QdrantClient DocumentRouter.
Context {F : Type} `{Num F}.

(** The batch built from the chunks numbers them from 0 in order. *)
Lemma batch_stored_chunks (db_document : Document) name chunks :
  forall n m (points : list (PointStruct F)),
  Forall2 (fun d p => point_carries (fst d) (snd d) p)
    (HybridSearch.enumerate_from n
       (map (fun '(i, chunk) =>
               <["created_at" := VStr (created_at db_document)]>
               (<["chunk_index" := VInt (Z.of_nat i)]>
                (<["filename" := VStr name]>
                 (<["user_id" := VNone]>
                  (<["document_id" := VInt (id db_document)]>
                   (<["text" := VStr chunk]> (∅ : gmap string (value F))))))))
            (HybridSearch.enumerate_from m chunks)))
    points ->
  Forall2 (fun c p => stored_chunk (id db_document) (fst c) (snd c) p)
    (HybridSearch.enumerate_from m chunks) points.
Proof.
  induction chunks as [|chunk rest IH]; intros n m points Hall;
    cbn [HybridSearch.enumerate_from map] in *.
  - inversion Hall. constructor.
  - inversion Hall as [|d p ds ps Hp Hrest]; subst. constructor.
    + destruct Hp as (Hi & Ht & Hd). cbn [fst snd] in *.
      unfold get in Hi, Ht, Hd. unfold stored_chunk.
      rewrite lookup_insert_ne, lookup_insert_eq in Hi by done.
      do 5 (rewrite lookup_insert_ne in Ht by done).
      rewrite lookup_insert_eq in Ht.
      do 4 (rewrite lookup_insert_ne in Hd by done).
      rewrite lookup_insert_eq in Hd. done.
    + by apply (IH (S n) (S m)).
Qed.

(** The vectorization block leaves rows and files alone.  It raises when
    the upsert raises; when it returns, the document is marked completed
    with the number of chunks, and the chunks are in the collection,
    numbered from 0. *)
Lemma vectorize_spec (b : Backend F) chunking name db_document (w : World F) :
  exists w' r,
    run (vectorize b chunking name db_document) w = (w', r) /\
    same_store w w' /\
    (is_Ok (upsert b) = false -> is_Ok r = false) /\
    (forall d, r = Ok d ->
       exists chunks points,
         chunking = Ok chunks /\
         d = set_chunks_count (Z.of_nat (length chunks))
               (set_status "completed" (vectorization_error db_document)
                  db_document) /\
         collections w' !! env_collection_name b =
           Some (default [] (collections w !! env_collection_name b) ++ points) /\
         Forall2 (fun c p => stored_chunk (id db_document) (fst c) (snd c) p)
                 (HybridSearch.enumerate chunks) points).
Proof.
  unfold vectorize.
  destruct (initialize_qdrant_spec b w)
    as (w1 & Hinit & Hstore1 & _ & Hcols & Hready).
  rewrite run_bind, Hinit.
  destruct (backend_ready b w) eqn:Er; cbn -[insert_documents documents_for_qdrant];
    [|eexists _, _; split; [reflexivity|]; split; [exact Hstore1|]; done].
  destruct chunking as [chunks|e] eqn:Ec; cbn -[insert_documents documents_for_qdrant];
    [|eexists _, _; split; [reflexivity|]; split; [exact Hstore1|]; done].
  destruct (insert_documents_spec b (documents_for_qdrant db_document name chunks) w1)
    as (w2 & inserted & Hins & Hstore2 & Hfail & Hok).
  rewrite ?run_bind, Hins.
  pose proof (same_store_trans _ _ _ Hstore1 Hstore2) as Hstore.
  destruct inserted; cbn -[documents_for_qdrant].
  - eexists _, _; split; [reflexivity|]. split; [exact Hstore|].
    split; [intros Hu; by specialize (Hfail Hu)|].
    intros d Hd. inversion Hd; subst d.
    destruct (Hok eq_refl) as (cname & points & Hname & Hcol & Hpoints).
    destruct (Hready eq_refl) as (_ & _ & Hcname).
    rewrite Hcname in Hname. inversion Hname; subst cname.
    exists chunks, points. split; [reflexivity|]. split; [reflexivity|].
    split.
    + rewrite Hcol, lookup_insert_eq, Hcols. reflexivity.
    + eapply batch_stored_chunks. exact Hpoints.
  - eexists _, _; split; [reflexivity|]. split; [exact Hstore|]. done.
Qed.

(** What a PDF upload does once the file name is accepted: either the
    vectorization block raised, and then the blob, the row and its chunk
    rows are gone and HTTP 500 is raised; or it returned, and then the row
    is stored as completed together with the blob. *)
Lemma upload_pdf_run (b : Backend F) (file : UploadFile) (w : World F) :
  endswith (lower (file_filename file)) ".pdf" = true ->
  let doc_id := next_document_id w in
  let path := blob_path b w (file_filename file) in
  exists w' r,
    run (upload_pdf b file) w = (w', r) /\
    (is_Ok (upsert b) = false -> is_Ok r = false) /\
    match r with
    | Raise e =>
        (exists detail, e = HTTPException 500 detail) /\
        documents w' !! doc_id = None /\
        files w' !! path = None /\
        no_chunks_of doc_id w'
    | Ok response =>
        exists chunks points db_document,
          PDFProcessor.process_pdf_to_chunks b (file_content file) = Ok chunks /\
          response = response_of db_document /\
          documents w' !! doc_id = Some db_document /\
          id db_document = doc_id /\
          vectorization_status db_document = "completed" /\
          chunks_count db_document = Z.of_nat (length chunks) /\
          files w' !! path = Some (file_content file) /\
          document_chunks w' = document_chunks w /\
          collections w' !! env_collection_name b =
            Some (default [] (collections w !! env_collection_name b) ++ points) /\
          Forall2 (fun c p => stored_chunk doc_id (fst c) (snd c) p)
                  (HybridSearch.enumerate chunks) points
    end.
Proof.
  intros Hpdf doc_id path. unfold upload_pdf. rewrite Hpdf. cbn [negb].
  cbn -[vectorize clean_filename path_join UPLOAD_DIR String.append
        PDFProcessor.process_pdf_to_chunks].
  match goal with
  | |- context [run (vectorize ?b' ?c ?n ?d) ?W] =>
      destruct (vectorize_spec b' c n d W)
        as (w1 & r1 & Hrun & (Hd & Hc & Hn & Hf) & Hfail & Hok); rewrite Hrun
  end.
  destruct r1 as [d|e]; cbn -[clean_filename path_join UPLOAD_DIR String.append].
  - eexists _, _. split; [reflexivity|]. split; [exact Hfail|].
    destruct (Hok d eq_refl) as (chunks & points & Hchunks & -> & Hcol & Hpoints).
    exists chunks, points. eexists. split; [exact Hchunks|].
    split; [reflexivity|]. cbn in *.
    split; [by rewrite lookup_insert_eq|]. split; [reflexivity|].
    split; [reflexivity|]. split; [reflexivity|].
    split; [rewrite Hf; by rewrite lookup_insert_eq|].
    split; [exact Hc|]. split; [exact Hcol | exact Hpoints].
  - eexists _, _. split; [reflexivity|]. split; [done|].
    split; [eauto|]. cbn in *.
    split; [by rewrite lookup_delete_eq|].
    split; [by rewrite lookup_delete_eq|].
    intros k chunk Hk. apply map_lookup_filter_Some in Hk as [_ Hk]. exact Hk.
Qed.

(** A URL ingestion with substantial text never raises: the row and the
    blob stay, and the row ends completed or, when the vectorization block
    raised, failed with the text of the exception as its reason. *)
Lemma url_to_pdf_substantial_run (b : Backend F) (url_request : UrlToPdfRequest)
    (w : World F) success text rendered :
  render_page b (url url_request) (cookies url_request)
  = Ok (success, text, rendered) ->
  let extracted_text := if success : bool then text else "" in
  truthy_str extracted_text && (100 <? String.length extracted_text)%nat = true ->
  let doc_id := next_document_id w in
  let path := blob_path b w (generated_filename url_request) in
  exists w' db_document,
    run (url_to_pdf b url_request) w = (w', Ok (response_of db_document)) /\
    documents w' !! doc_id = Some db_document /\
    id db_document = doc_id /\
    (tmp_name b <> path -> files w' !! path = Some rendered) /\
    document_chunks w' = document_chunks w /\
    (is_Ok (upsert b) = false -> vectorization_status db_document = "failed") /\
    (vectorization_status db_document = "completed" /\
     (exists chunks points,
        split_text_url b extracted_text = Ok chunks /\
        chunks_count db_document = Z.of_nat (length chunks) /\
        collections w' !! env_collection_name b =
          Some (default [] (collections w !! env_collection_name b) ++ points) /\
        Forall2 (fun c p => stored_chunk doc_id (fst c) (snd c) p)
                (HybridSearch.enumerate chunks) points)
     \/
     vectorization_status db_document = "failed" /\
     (exists e, vectorization_error db_document = Some (str_of_exception e)) /\
     chunks_count db_document = 0).
Proof.
  intros Hrender extracted_text Hlong doc_id path. unfold url_to_pdf.
  cbn -[vectorize clean_filename path_join UPLOAD_DIR String.append truthy_str
        String.length Nat.ltb].
  rewrite Hrender.
  cbn -[vectorize clean_filename path_join UPLOAD_DIR String.append truthy_str
        String.length Nat.ltb].
  fold extracted_text. rewrite Hlong.
  cbn -[vectorize clean_filename path_join UPLOAD_DIR String.append].
  rewrite lookup_insert_eq.
  cbn -[vectorize clean_filename path_join UPLOAD_DIR String.append].
  match goal with
  | |- context [run (vectorize ?b' ?c ?n ?d) ?W] =>
      destruct (vectorize_spec b' c n d W)
        as (w1 & r1 & Hrun & (Hd & Hc & Hn & Hf) & Hfail & Hok); rewrite Hrun
  end.
  destruct r1 as [d|e]; cbn -[clean_filename path_join UPLOAD_DIR String.append].
  - eexists _, _. split; [reflexivity|].
    destruct (Hok d eq_refl) as (chunks & points & Hchunks & -> & Hcol & Hpoints).
    cbn in *.
    split; [by rewrite lookup_insert_eq|]. split; [reflexivity|].
    split.
    { intros Htmp. rewrite Hf. rewrite lookup_delete_ne by exact Htmp.
      by rewrite lookup_insert_eq. }
    split; [exact Hc|].
    split; [intros Hu; by specialize (Hfail Hu)|].
    left. split; [reflexivity|]. exists chunks, points.
    split; [exact Hchunks|]. split; [reflexivity|]. split; [exact Hcol | exact Hpoints].
  - eexists _, _. split; [reflexivity|]. cbn in *.
    split; [by rewrite lookup_insert_eq|]. split; [reflexivity|].
    split.
    { intros Htmp. rewrite Hf. rewrite lookup_delete_ne by exact Htmp.
      by rewrite lookup_insert_eq. }
    split; [exact Hc|]. split; [done|].
    right. split; [reflexivity|]. split; [by exists e | reflexivity].
Qed.

(** A URL ingestion without substantial text stores the document as
    failed, with the fixed reason, and returns it. *)
Lemma url_to_pdf_insufficient_run (b : Backend F) (url_request : UrlToPdfRequest)
    (w : World F) success text rendered :
  render_page b (url url_request) (cookies url_request)
  = Ok (success, text, rendered) ->
  let extracted_text := if success : bool then text else "" in
  truthy_str extracted_text && (100 <? String.length extracted_text)%nat = false ->
  let doc_id := next_document_id w in
  exists w' db_document,
    run (url_to_pdf b url_request) w = (w', Ok (response_of db_document)) /\
    documents w' !! doc_id = Some db_document /\
    id db_document = doc_id /\
    vectorization_status db_document = "failed" /\
    vectorization_error db_document =
      Some "No substantial text content could be extracted from the webpage" /\
    chunks_count db_document = 0 /\
    document_chunks w' = document_chunks w /\
    collections w' = collections w.
Proof.
  intros Hrender extracted_text Hshort doc_id.
  unfold url_to_pdf, create_pdf_document_without_vectorization.
  cbn -[clean_filename path_join UPLOAD_DIR String.append truthy_str
        String.length Nat.ltb].
  rewrite Hrender.
  cbn -[clean_filename path_join UPLOAD_DIR String.append truthy_str
        String.length Nat.ltb].
  fold extracted_text. rewrite Hshort.
  cbn -[clean_filename path_join UPLOAD_DIR String.append].
  rewrite lookup_insert_eq.
  cbn -[clean_filename path_join UPLOAD_DIR String.append].
  eexists _, _. split; [reflexivity|]. cbn.
  split; [by rewrite lookup_insert_eq|]. done.
Qed.

(** When rendering the page raises, the handler raises HTTP 500. *)
Lemma url_to_pdf_render_raises (b : Backend F) (url_request : UrlToPdfRequest)
    (w : World F) e :
  render_page b (url url_request) (cookies url_request) = Raise e ->
  exists w' detail,
    run (url_to_pdf b url_request) w = (w', Raise (HTTPException 500 detail)).
Proof.
  intros Hrender. unfold url_to_pdf.
  cbn -[String.append]. rewrite Hrender. cbn -[String.append].
  eexists _, _. reflexivity.
Qed.

(** Pages without text add nothing to the extracted text. *)
Lemma join_pages_blank pages : forall n text,
  Forall (fun page_text => page_text = "") pages ->
  PDFProcessor.join_pages n pages text = text.
Proof.
  induction pages as [|page rest IH]; intros n text Hall; [reflexivity|].
  inversion Hall as [|? ? Hp Hrest]; subst. cbn. by apply IH.
Qed.

Lemma process_blank_pdf (b : Backend F) pdf_content pages :
  pdf_page_texts b pdf_content = Ok pages ->
  Forall (fun page_text => page_text = "") pages ->
  PDFProcessor.process_pdf_to_chunks b pdf_content
  = Raise (Exception "No text could be extracted from the PDF").
Proof.
  intros Hpages Hblank.
  unfold PDFProcessor.process_pdf_to_chunks, PDFProcessor.extract_text_from_pdf.
  rewrite Hpages. cbn [mbind exc_bind]. rewrite join_pages_blank by exact Hblank.
  reflexivity.
Qed.

End IngestionFacts.

(* ===================================================================== *)
(** * Ingestion and search handlers (C1, C2, C3, C4)                      *)
(* ===================================================================== *)

Section Handlers.
Import App Models QdrantClient DocumentRouter Samples.



(** C2, as the code has it.  A URL ingestion whose extraction fails or
    yields at most 100 characters stores the Document as failed with the
    reason "No substantial text content could be extracted from the
    webpage" and chunk count 0, and returns it without raising.  A PDF
    upload whose pages yield no text raises instead: the upload is rolled
    back and HTTP 500 is raised. *)
Theorem C2_insufficient_text_by_handler {F} `{Num F} (b : Backend F) (w : World F) :
  (forall url_request success text rendered,
     render_page b (url url_request) (cookies url_request)
     = Ok (success, text, rendered) ->
     success = false \/ (String.length text <= 100)%nat ->
     exists w' db_document,
       run (url_to_pdf b url_request) w = (w', Ok (response_of db_document)) /\
       documents w' !! next_document_id w = Some db_document /\
       vectorization_status db_document = "failed" /\
       vectorization_error db_document =
         Some "No substantial text content could be extracted from the webpage" /\
       chunks_count db_document = 0) /\
  (forall file pages,
     endswith (lower (file_filename file)) ".pdf" = true ->
     pdf_page_texts b (file_content file) = Ok pages ->
     Forall (fun page_text => page_text = "") pages ->
     exists w' detail,
       run (upload_pdf b file) w = (w', Raise (HTTPException 500 detail)) /\
       documents w' !! next_document_id w = None /\
       files w' !! blob_path b w (file_filename file) = None).
Proof.
  split.
  - intros url_request success text rendered Hrender Hshort.
    destruct (url_to_pdf_insufficient_run b url_request w success text rendered Hrender)
      as (w' & d & Hrun & Hdoc & _ & Hstatus & Herr & Hcount & _).
    { destruct Hshort as [-> | Hlen]; [reflexivity|].
      apply andb_false_iff. right. apply Nat.ltb_ge.
      destruct success; [exact Hlen | cbn; lia]. }
    exists w', d. done.
  - intros file pages Hpdf Hpages Hblank.
    destruct (upload_pdf_run b file w Hpdf) as (w' & r & Hrun & _ & Hr).
    destruct r as [response|e].
    + destruct Hr as (chunks & _ & _ & Hchunks & _).
      rewrite (process_blank_pdf b _ pages Hpages Hblank) in Hchunks. discriminate.
    + destruct Hr as ((detail & ->) & Hdoc & Hfile & _).
      exists w', detail. done.
Qed.

(** C3, as the code has it.  After an ingestion that answers with status
    completed, the Document row is stored as completed with [chunks_count]
    equal to the number of chunks, and the batch given to the vector store
    holds one point per chunk, with chunk indices [0 .. chunks_count - 1]
    in order; no row of table [document_chunks] is written. *)
Theorem C3_completed_ingestion {F} `{Num F} (b : Backend F) (w w' : World F)
    (response : DocumentResponse) :
  (exists file, run (upload_pdf b file) w = (w', Ok response)) \/
  (exists url_request,
     run (url_to_pdf b url_request) w = (w', Ok response) /\
     r_vectorization_status response = "completed") ->
  completed_ingestion b w w' response.
Proof.
  intros [[file Hrun] | (url_request & Hrun & Hstatus)].
  - destruct (endswith (lower (file_filename file)) ".pdf") eqn:Hpdf.
    + destruct (upload_pdf_run b file w Hpdf) as (w1 & r & Hrun' & _ & Hr).
      rewrite Hrun in Hrun'. inversion Hrun'; subst w1 r.
      destruct Hr as (chunks & points & d & _ & -> & Hdoc & _ & Hst & Hcount &
                      _ & Hchunks & Hcol & Hpoints).
      exists chunks, points, d. done.
    + unfold upload_pdf in Hrun. rewrite Hpdf in Hrun. cbn in Hrun. discriminate.
  - destruct (render_page b (url url_request) (cookies url_request))
      as [[[success text] rendered]|e] eqn:Hrender.
    + destruct (truthy_str (if success then text else "")
                && (100 <? String.length (if success then text else ""))%nat)
        eqn:Hlong.
      * destruct (url_to_pdf_substantial_run b url_request w success text rendered
                    Hrender Hlong)
          as (w1 & d & Hrun' & Hdoc & _ & _ & Hchunks & _ & Hcases).
        rewrite Hrun in Hrun'. inversion Hrun'; subst w1 response.
        cbn in Hstatus.
        destruct Hcases as [(_ & chunks & points & _ & Hcount & Hcol & Hpoints)
                           | (Hfailed & _)]; [|congruence].
        exists chunks, points, d. done.
      * destruct (url_to_pdf_insufficient_run b url_request w success text rendered
                    Hrender Hlong)
          as (w1 & d & Hrun' & _ & _ & Hfailed & _).
        rewrite Hrun in Hrun'. inversion Hrun'; subst w1 response.
        cbn in Hstatus. congruence.
    + destruct (url_to_pdf_render_raises b url_request w e Hrender)
        as (w1 & detail & Hrun').
      rewrite Hrun in Hrun'. discriminate.
Qed.

(** C4, as the code has it.  When the initialisation of the gateway fails
    (the client cannot be built, the collections cannot be listed, the
    collection cannot be created, or the embedding model does not load),
    the search handler raises HTTP 500 "Vector search service
    unavailable".  When the initialisation succeeds and the embedding of
    the query or the vector query then raises, the gateway answers with an
    empty list and the handler returns the "No results found" response. *)
Theorem C4_search_when_backend_fails {F} `{Num F} (b : Backend F) (w : World F)
    (query : string) (limit : Z) (min_confidence : option F) :
  (backend_ready b w = false ->
   snd (run (search_documents b query limit min_confidence) w)
   = Raise (HTTPException 500 "Vector search service unavailable")) /\
  (backend_ready b w = true ->
   is_Ok (encode b query) = false \/
   (exists embedding,
      encode b query = Ok embedding /\
      is_Ok (search_points b embedding None limit) = false) ->
   snd (run (search_documents b query limit min_confidence) w)
   = Ok (no_results_found query)).
Proof.
  destruct (initialize_qdrant_spec b w) as (w1 & Hinit & _ & _ & _ & Hready).
  split.
  - intros Hdown. unfold search_documents.
    rewrite run_try, run_bind, Hinit, Hdown. reflexivity.
  - intros Hup Hfails. unfold search_documents.
    rewrite run_try, run_bind, Hinit, Hup.
    destruct (search_spec b query limit None w1)
      as (results & Hsearch & _ & Hencode & Hquery & _).
    cbn -[search]. rewrite run_bind, Hsearch.
    assert (results = []) as ->.
    { destruct Hfails as [Henc | (embedding & Henc & Hq)];
        [by apply Hencode | by apply (Hquery embedding)]. }
    reflexivity.
Qed.

End Handlers.

(* ===================================================================== *)
(** * The statements on concrete inputs                                   *)
(* ===================================================================== *)

Section Instances.
Import HybridSearch App Models QdrantClient DocumentRouter Samples MoreSamples.



(** Forty characters of extracted text: the URL ingestion stores the
    document as failed and returns it. *)
Lemma C2_witness_short_page_failed :
  exists w' db_document,
    run (url_to_pdf backend_short_page page_request) empty_world
    = (w', Ok (response_of db_document)) /\
    documents w' !! next_document_id empty_world = Some db_document /\
    vectorization_status db_document = "failed" /\
    vectorization_error db_document =
      Some "No substantial text content could be extracted from the webpage" /\
    chunks_count db_document = 0.
Proof.
  apply (proj1 (C2_insufficient_text_by_handler backend_short_page empty_world)
           page_request true "Only forty characters of text were read."
           [Byte.x25; Byte.x50]).
  - reflexivity.
  - right. vm_compute. lia.
Defined.

(** A PDF whose only page has no text: the upload raises HTTP 500 and no
    Document row is left. *)
Lemma C2_counterexample_blank_pdf_raises :
  pdf_page_texts backend_blank_pdf (file_content report_pdf) = Ok [""] /\
  exists w' detail,
    run (upload_pdf backend_blank_pdf report_pdf) empty_world
    = (w', Raise (HTTPException 500 detail)) /\
    documents w' = ∅.
Proof.
  split; [reflexivity|]. eexists _, _.
  split; vm_compute; reflexivity.
Qed.

(** A successful upload of a PDF with two chunks. *)
Lemma C3_witness_upload_completed :
  exists response,
    answer_of_upload = Ok response /\
    completed_ingestion backend_up empty_world world_after_upload response.
Proof.
  eexists. split; [reflexivity|].
  apply C3_completed_ingestion. left. exists report_pdf.
  vm_cast_no_check (eq_refl (world_after_upload, answer_of_upload)).
Defined.

(** After a successful upload with two chunks, the Document row is
    completed with [chunks_count] 2, and table [document_chunks] holds no
    row. *)
Lemma C3_counterexample_no_chunk_rows :
  run (upload_pdf backend_up report_pdf) empty_world
  = (world_after_upload, answer_of_upload) /\
  (exists response,
     answer_of_upload = Ok response /\
     r_vectorization_status response = "completed" /\
     r_chunks_count response = 2) /\
  document_chunks world_after_upload = ∅.
Proof.
  split; [vm_cast_no_check (eq_refl (world_after_upload, answer_of_upload))|].
  split; [eexists; split; [reflexivity|]; split; reflexivity|].
  reflexivity.
Qed.

(** The vector store cannot be reached: the search raises HTTP 500. *)
Lemma C4_witness_unreachable :
  backend_ready backend_unreachable empty_world = false /\
  snd (run (search_documents backend_unreachable "alpha" 5 None) empty_world)
  = Raise (HTTPException 500 "Vector search service unavailable").
Proof.
  split; [reflexivity|].
  apply (proj1 (C4_search_when_backend_fails backend_unreachable empty_world
                  "alpha" 5 None)).
  reflexivity.
Defined.

(** The embedding model fails on the query after a successful
    initialisation: the search answers "No results found". *)
Lemma C4_counterexample_embedding_failure :
  backend_ready backend_embedding_down empty_world = true /\
  is_Ok (encode backend_embedding_down "alpha") = false /\
  snd (run (search_documents backend_embedding_down "alpha" 5 None) empty_world)
  = Ok (no_results_found "alpha").
Proof.
  split; [reflexivity|]. split; [reflexivity|]. vm_compute. reflexivity.
Qed.

(** "alpha" and "beta" ten characters apart, the phrase itself absent:
    the bonus is 0.3.  "alpha" and "beta" 51 characters apart: the bonus
    is 0. *)
Lemma C6_witness_one_proximity_bonus :
  (1 < length (split (lower "alpha beta")))%nat /\
  (added_bonus (init (7 # 10) (3 # 10)) "alpha beta" "Alpha xxxx Beta alpha"
   == 3 # 10)%Q /\
  (added_bonus (init (7 # 10) (3 # 10)) "alpha beta"
     "alpha xxxxxxxxxxxxxxxxxxxxxxxxxxxxxxxxxxxxxxxxxxxx beta"
   == 0)%Q.
Proof.
  split; [vm_compute; lia|]. split.
  - refine (proj1 (proj2 (proj2 (proj2
              (C6_phrase_and_proximity_bonus (7 # 10) (3 # 10)
                 "alpha beta" "Alpha xxxx Beta alpha" _)))) _ _).
    + vm_compute. lia.
    + reflexivity.
    + exists "alpha", "beta", 0, 11.
      split; [apply list_elem_of_In; vm_compute; tauto|].
      split; [apply list_elem_of_In; vm_compute; tauto|].
      split; [discriminate|].
      split; [split; [vm_compute; split; discriminate | reflexivity]|].
      split; [split; [vm_compute; split; discriminate | reflexivity]|].
      vm_compute. discriminate.
  - refine (proj2 (proj1 (proj2 (proj2
              (C6_phrase_and_proximity_bonus (7 # 10) (3 # 10) "alpha beta"
                 "alpha xxxxxxxxxxxxxxxxxxxxxxxxxxxxxxxxxxxxxxxxxxxx beta" _)))) _).
    + vm_compute. lia.
    + split; [reflexivity|].
      intros (i & j & w1 & w2 & p1 & p2 & Hi & Hj & Hij & Ho1 & Ho2 & Hd).
      change (split (lower "alpha beta")) with ["alpha"; "beta"] in Hi, Hj.
      apply word_positions_spec in Ho1, Ho2.
      assert (word_positions
                (lower "alpha xxxxxxxxxxxxxxxxxxxxxxxxxxxxxxxxxxxxxxxxxxxx beta")
                "alpha" = [0]) as Ealpha by (vm_compute; reflexivity).
      assert (word_positions
                (lower "alpha xxxxxxxxxxxxxxxxxxxxxxxxxxxxxxxxxxxxxxxxxxxx beta")
                "beta" = [51]) as Ebeta by (vm_compute; reflexivity).
      destruct i as [|[|i]], j as [|[|j]]; cbn in Hi, Hj; try discriminate;
        try (by destruct Hij);
        injection Hi as <-; injection Hj as <-;
        rewrite ?Ealpha, ?Ebeta in Ho1, Ho2;
        apply list_elem_of_singleton in Ho1, Ho2; subst p1 p2;
        vm_compute in Hd; by apply Hd.
Defined.

(** Re-ranking raises on the hit without text; the second call, with
    [limit] 1, answers with the first hit. *)
Lemma C7_witness_second_call :
  HybridSearch.search hybrid_search_engine "alpha" top_k 1 None = top_k "alpha" 1 None /\
  (HybridSearch.search hybrid_search_engine "alpha" top_k 1 None
   = Ok (slice_to [high_hit; broken_hit; low_hit] 1) <->
   top_k "alpha" 1 None = Ok (slice_to [high_hit; broken_hit; low_hit] 1)).
Proof.
  apply (C7_fallback_queries_again hybrid_search_engine "alpha" top_k 1 None
           [high_hit; broken_hit; low_hit]
           (AttributeError "object has no attribute 'lower'")).
  - reflexivity.
  - discriminate.
  - reflexivity.
Defined.

(** Three hits with binary64 scores for the query "alpha": the list that
    re-ranking returns has the hybrid scores 0.63, 0.46, 0.46, in
    descending order, and a search with [limit] 2 returns its first two
    entries. *)
Lemma C8_witness_three_hits :
  rerank_results (hybrid_search_engine (F:=float)) "alpha" three_float_hits
  = Ok reranked_three_float_hits /\
  Forall (fun entry => isnan (score_key entry) = false) reranked_three_float_hits /\
  map score_key reranked_three_float_hits = [0.63; 0.46; 0.46]%float /\
  descending score_key reranked_three_float_hits /\
  HybridSearch.search hybrid_search_engine "alpha" answer_three_float_hits 2 None
  = Ok (slice_to reranked_three_float_hits 2) /\
  Z.of_nat (length (slice_to reranked_three_float_hits 2)) <= 2.
Proof.
  assert (rerank_results (hybrid_search_engine (F:=float)) "alpha" three_float_hits
          = Ok reranked_three_float_hits) as Hrun
    by (vm_cast_no_check (eq_refl (Ok (A:=list (gmap string (value float)))
                                     reranked_three_float_hits))).
  assert (Forall (fun entry => isnan (score_key entry) = false)
                 reranked_three_float_hits) as Hnan
    by (repeat constructor).
  split; [exact Hrun|]. split; [exact Hnan|].
  split; [vm_compute; reflexivity|].
  destruct (C8_rerank_sorted_stable_truncated hybrid_search_engine "alpha"
              three_float_hits reranked_three_float_hits Hrun Hnan)
    as [Hsorted Hsearch].
  change (split (lower "alpha")) with ["alpha"] in Hsorted.
  destruct Hsorted as (hybrid_results & _ & _ & Hdesc & _).
  split; [exact Hdesc|].
  destruct (Hsearch answer_three_float_hits 2 None eq_refl ltac:(discriminate))
    as [Hs Hlen].
  split; [exact Hs|]. apply Hlen. lia.
Defined.

(** Three well-formed hits and the query "alpha". *)
Lemma C10_witness_three_hits :
  exists out,
    rerank_results (hybrid_search_engine (F:=Q)) "alpha"
      [low_hit; high_hit; tied_hit] = Ok out /\
    length out = 3%nat.
Proof.
  destruct (C10_rerank_keeps_candidates (hybrid_search_engine (F:=Q)) "alpha"
              [low_hit; high_hit; tied_hit])
    as (out & Hout & Hlen & _).
  - vm_compute. discriminate.
  - repeat constructor; eexists; vm_compute; reflexivity.
  - exists out. split; [exact Hout | exact Hlen].
Defined.

End Instances.

(* ===================================================================== *)
(** * More about strings                                                  *)
(* ===================================================================== *)

Section MoreStringFacts.
Import Notions.

Lemma append_cons c s t : String c s +:+ t = String c (s +:+ t).
Proof. reflexivity. Qed.

Lemma append_nil_l s : "" +:+ s = s.
Proof. reflexivity. Qed.

Lemma append_nil_r s : s +:+ "" = s.
Proof. induction s as [|c r IH]; [reflexivity|]. by rewrite append_cons, IH. Qed.

Lemma append_assoc s t u : (s +:+ t) +:+ u = s +:+ (t +:+ u).
Proof.
  induction s as [|c r IH]; [reflexivity|]. by rewrite !append_cons, IH.
Qed.

Lemma lower_char_idemp c : lower_char (lower_char c) = lower_char c.
Proof. destruct c as [[] [] [] [] [] [] [] []]; reflexivity. Qed.

Lemma lower_idemp s : lower (lower s) = lower s.
Proof.
  induction s as [|c r IH]; [reflexivity|].
  cbn [lower]. by rewrite lower_char_idemp, IH.
Qed.

Lemma isspace_lower_char c : isspace (lower_char c) = isspace c.
Proof. destruct c as [[] [] [] [] [] [] [] []]; reflexivity. Qed.

Lemma all_space_lower s : all_chars isspace (lower s) = all_chars isspace s.
Proof.
  induction s as [|c r IH]; [reflexivity|].
  cbn [lower all_chars]. by rewrite isspace_lower_char, IH.
Qed.

Lemma split_all_space s : all_chars isspace s = true -> split s = [].
Proof.
  unfold split. induction s as [|c r IH]; [reflexivity|].
  cbn [all_chars split_go]. intros [Hc Hr]%andb_true_iff.
  rewrite Hc. cbn [is_empty_str]. by apply IH.
Qed.

Lemma startswith_append s p :
  startswith s p = true <-> exists post, s = p +:+ post.
Proof.
  revert s. induction p as [|a p IH]; intros s.
  - split; [intros _; by exists s | by destruct s].
  - destruct s as [|b s]; cbn [startswith].
    + split; [discriminate | intros [post Hpost]; discriminate].
    + destruct (Ascii.eqb_spec a b) as [->|Hne].
      * rewrite IH. split.
        -- intros [post ->]. by exists post.
        -- intros [post Hpost]. rewrite append_cons in Hpost.
           inversion Hpost. by exists post.
      * split; [discriminate|]. intros [post Hpost].
        rewrite append_cons in Hpost. inversion Hpost. congruence.
Qed.

Lemma contains_append sub s :
  contains sub s = true <-> exists pre post, s = pre +:+ sub +:+ post.
Proof.
  induction s as [|c r IH]; cbn [contains].
  - rewrite orb_false_r, startswith_append. split.
    + intros [post Hpost]. by exists "", post.
    + intros (pre & post & Heq). destruct pre as [|a pre]; [by exists post|].
      rewrite append_cons in Heq. discriminate.
  - rewrite orb_true_iff, startswith_append, IH. split.
    + intros [[post Hpost] | (pre & post & ->)].
      * by exists "", post.
      * by exists (String c pre), post.
    + intros (pre & post & Heq). destruct pre as [|a pre].
      * left. by exists post.
      * right. rewrite append_cons in Heq. inversion Heq. by exists pre, post.
Qed.

Lemma contains_trans a b c :
  contains a b = true -> contains b c = true -> contains a c = true.
Proof.
  rewrite !contains_append.
  intros (pre1 & post1 & ->) (pre2 & post2 & ->).
  exists (pre2 +:+ pre1), (post1 +:+ post2).
  by rewrite !append_assoc.
Qed.

(** Every word that [split] returns is a piece of the string. *)
Lemma split_go_substring s : forall cur word,
  word ∈ split_go cur s ->
  exists pre post, cur +:+ s = pre +:+ word +:+ post.
Proof.
  induction s as [|c r IH]; intros cur word; cbn [split_go].
  - destruct cur as [|a cur]; cbn [is_empty_str].
    + intros Hin. by apply elem_of_nil in Hin.
    + intros ->%list_elem_of_singleton. exists "", "".
      by rewrite append_nil_r.
  - destruct (isspace c).
    + destruct cur as [|a cur]; cbn [is_empty_str].
      * intros (pre & post & Heq)%IH. exists (String c pre), post.
        rewrite append_nil_l in Heq. by rewrite append_nil_l, append_cons, <- Heq.
      * intros [-> | (pre & post & Heq)%IH]%elem_of_cons.
        -- by exists "", (String c r).
        -- exists (String a cur +:+ String c pre), post.
           rewrite append_nil_l in Heq. rewrite Heq, append_assoc.
           by rewrite (append_cons c pre).
    + intros (pre & post & Heq)%IH. exists pre, post.
      rewrite <- Heq, append_assoc. reflexivity.
Qed.

Lemma split_substring s word : word ∈ split s -> contains word s = true.
Proof.
  intros (pre & post & Heq)%split_go_substring.
  apply contains_append. exists pre, post. exact Heq.
Qed.

(** The words that [split] returns are not empty. *)
Lemma split_go_nonempty s : forall cur word,
  word ∈ split_go cur s -> word <> "".
Proof.
  induction s as [|c r IH]; intros cur word; cbn [split_go].
  - destruct cur as [|a cur]; cbn [is_empty_str].
    + intros Hin. by apply elem_of_nil in Hin.
    + by intros ->%list_elem_of_singleton.
  - destruct (isspace c).
    + destruct cur as [|a cur]; cbn [is_empty_str].
      * apply IH.
      * intros [-> | Hin]%elem_of_cons; [done | by apply (IH "")].
    + apply IH.
Qed.

End MoreStringFacts.

(* ===================================================================== *)
(** * More about the hybrid search engine                                 *)
(* ===================================================================== *)

Section MoreHybridSearch.
Import Notions HybridSearch.

Lemma word_positions_loop_increasing text word : forall fuel start,
  0 <= start ->
  increasing (word_positions_loop fuel text word start) /\
  Forall (fun pos => start <= pos) (word_positions_loop fuel text word start).
Proof.
  induction fuel as [|fuel IH]; intros start Hstart; cbn [word_positions_loop].
  - split; constructor.
  - destruct (find_spec text word start Hstart)
      as [(Hr & _) | (Hle & _ & _)].
    + rewrite Hr. cbn. split; constructor.
    + destruct (Z.eqb_spec (find text word start) (-1)) as [Heq|Hne]; [lia|].
      destruct (IH (find text word start + 1) ltac:(lia)) as [Hinc Hall].
      split.
      * constructor; [exact Hinc|].
        eapply Forall_impl; [exact Hall|]. cbn. intros; lia.
      * constructor; [exact Hle|].
        eapply Forall_impl; [exact Hall|]. cbn. intros; lia.
Qed.

(** X1.  The [while True] loop of [_calculate_proximity_bonus] that
    collects the positions of a word stops, and what it has collected is
    exactly the set of positions at which the word occurs in the text, in
    strictly increasing order (overlapping occurrences included). *)
Theorem X1_word_positions_all_occurrences (text word : string) :
  (forall pos, pos ∈ word_positions text word <-> occurs_at text word pos) /\
  increasing (word_positions text word).
Proof.
  split.
  - intros pos. apply word_positions_spec.
  - apply word_positions_loop_increasing. lia.
Qed.

(** X2.  A query word that is repeated counts as two found words: when
    the word occurs in the text, the proximity bonus for the query words
    [word, word] is [0.3], whatever the non-negative proximity distance. *)
Theorem X2_repeated_word_gets_proximity_bonus {F} `{Num F}
    (self : HybridSearchEngine F) (word text_lower : string) :
  contains word text_lower = true ->
  0 <= proximity_distance self ->
  _calculate_proximity_bonus self [word; word] text_lower = f0_3.
Proof.
  intros Hc Hd.
  destruct (proximity_bonus_cases self [word; word] text_lower)
    as [[Hb _] | [_ Hno]]; [exact Hb|].
  exfalso. apply Hno. rewrite words_found_spec.
  rewrite !filter_cons, filter_nil, !decide_True by exact Hc. cbn [map].
  destruct (word_positions text_lower word) as [|pos rest] eqn:Ew.
  { apply word_positions_nil in Ew. congruence. }
  exists 0%nat, 1%nat, word, (pos :: rest), word, (pos :: rest), pos, pos.
  repeat split; try done; try (by left). lia.
Qed.

(** X3.  Keyword scoring ignores case: lowering the query, the text, or
    both does not change the score. *)
Theorem X3_keyword_score_ignores_case {F} `{Num F} (self : HybridSearchEngine F)
    (query_text document_text : string) :
  calculate_keyword_score self (lower query_text) (lower document_text)
  = calculate_keyword_score self query_text document_text /\
  calculate_keyword_score self (lower query_text) document_text
  = calculate_keyword_score self query_text document_text /\
  calculate_keyword_score self query_text (lower document_text)
  = calculate_keyword_score self query_text document_text.
Proof.
  unfold calculate_keyword_score. rewrite !lower_idemp. done.
Qed.

Lemma slice_to_nil {A} (stop : Z) : slice_to (@nil A) stop = [].
Proof. unfold slice_to. destruct (0 <=? stop); apply take_nil. Qed.

(** X4.  A query that consists of whitespace only (the empty query
    included) has no words: every keyword score is [0.0], re-ranking
    returns the semantic results as they are, and [search] returns the
    slice [[:limit]] of what the semantic search function returned,
    without any added field. *)
Theorem X4_whitespace_query_is_a_no_op (query_text : string) :
  all_chars isspace query_text = true ->
  forall F (N : Num F) (self : HybridSearchEngine F),
    (forall document_text,
       calculate_keyword_score self query_text document_text = f0_0) /\
    (forall semantic_results,
       rerank_results self query_text semantic_results = Ok semantic_results) /\
    (forall (semantic_search_func : semantic_search) limit filter_dict
            semantic_results,
       semantic_search_func query_text (Z.max (limit * 4) 20) filter_dict
       = Ok semantic_results ->
       search self query_text semantic_search_func limit filter_dict
       = Ok (slice_to semantic_results limit)).
Proof.
  intros Hws F N self.
  assert (split (lower query_text) = []) as Hsplit.
  { apply split_all_space. by rewrite all_space_lower. }
  assert (forall rs, rerank_results self query_text rs = Ok rs) as Hrerank.
  { intros rs. unfold rerank_results. by rewrite Hsplit. }
  split; [|split; [exact Hrerank|]].
  - intros document_text. unfold calculate_keyword_score. by rewrite Hsplit.
  - intros f limit filter_dict rs Hf. unfold search. rewrite Hf.
    cbn [mbind exc_bind]. destruct rs as [|r rs].
    + by rewrite slice_to_nil.
    + by rewrite Hrerank.
Qed.

(** X5.  A query of one word gets no bonus: in exact arithmetic its
    keyword score is 1 when the word occurs in the lowercase text and 0
    when it does not. *)
Theorem X5_single_word_score (self : HybridSearchEngine Q)
    (query_text document_text word : string) :
  split (lower query_text) = [word] ->
  (calculate_keyword_score self query_text document_text ==
   if contains word (lower document_text) then 1 else 0)%Q.
Proof.
  intros Hsplit. unfold calculate_keyword_score. rewrite Hsplit.
  cbn [match_words length Nat.ltb Nat.leb].
  destruct (contains word (lower document_text)); cbn; reflexivity.
Qed.

(** The phrase is in the text only if every query word is. *)
Lemma phrase_implies_words query_lower text_lower :
  contains query_lower text_lower = true ->
  count_matched (split query_lower) text_lower = length (split query_lower).
Proof.
  intros Hphrase. unfold count_matched. f_equal.
  assert (Forall (fun word => contains word text_lower = true) (split query_lower))
    as Hall.
  { apply Forall_forall. intros word Hin.
    eapply contains_trans; [by apply split_substring | exact Hphrase]. }
  induction Hall as [|word rest Hw _ IH]; [reflexivity|].
  rewrite filter_cons, decide_True by exact Hw. by rewrite IH.
Qed.

(** X6.  When the lowercase query occurs verbatim in the lowercase text,
    every query word is counted as matched, so the two ways of counting
    matches agree and the candidate gets the full-coverage weighting; for
    a query of [n > 1] words its keyword score is then [(n + 0.5) / n] in
    exact arithmetic. *)
Theorem X6_phrase_match_means_full_match (self : HybridSearchEngine Q)
    (query_text document_text : string) :
  contains (lower query_text) (lower document_text) = true ->
  let query_words := split (lower query_text) in
  count_matched query_words (lower document_text) = length query_words /\
  (forall semantic_score keyword_score,
     calculate_hybrid_score self semantic_score keyword_score
       (count_matched query_words (lower document_text)) (length query_words)
     = ((6 # 10) * semantic_score + (4 # 10) * keyword_score)%Q) /\
  ((1 < length query_words)%nat ->
   (calculate_keyword_score self query_text document_text ==
    (inject_Z (Z.of_nat (length query_words)) + (5 # 10))
      / inject_Z (Z.of_nat (length query_words)))%Q).
Proof.
  intros Hphrase query_words.
  pose proof (phrase_implies_words _ _ Hphrase) as Hcount. fold query_words in Hcount.
  split; [exact Hcount|]. split.
  - intros s k. unfold calculate_hybrid_score. rewrite Hcount, Nat.eqb_refl.
    reflexivity.
  - intros Hlen.
    assert (query_words <> []) as Hne
      by (intros E; rewrite E in Hlen; cbn in Hlen; lia).
    destruct (keyword_score_Q self query_text document_text Hne)
      as (bonus & Hscore & Hcases).
    fold query_words in Hscore, Hcases. rewrite Hcount in Hscore.
    destruct Hcases as [(_ & _ & ->) | [(_ & Hc & _) | ([Hn | [Hc _]] & _)]];
      [exact Hscore | congruence | lia | congruence].
Qed.

End MoreHybridSearch.

Section MoreScoreBounds.
Import Notions HybridSearch.

(** The score as a quotient, with what is known about the bonus. *)
Lemma keyword_score_quotient (self : HybridSearchEngine Q) query_text document_text :
  split (lower query_text) <> [] ->
  exists m n bonus : Q,
    m = inject_Z (Z.of_nat (count_matched (split (lower query_text))
                              (lower document_text))) /\
    n = inject_Z (Z.of_nat (length (split (lower query_text)))) /\
    (calculate_keyword_score self query_text document_text == (m + bonus) / n)%Q /\
    (0 <= m <= n)%Q /\ (1 <= n)%Q /\
    ((bonus == 0)%Q \/
     (bonus == 3 # 10)%Q /\ (2 <= n)%Q \/
     (bonus == 5 # 10)%Q /\ (2 <= n)%Q /\ (m == n)%Q).
Proof.
  intros Hne.
  destruct (keyword_score_Q self query_text document_text Hne)
    as (bonus & Hscore & Hcases).
  pose proof (count_matched_le (split (lower query_text)) (lower document_text))
    as Hle.
  eexists _, _, bonus. split; [reflexivity|]. split; [reflexivity|].
  split; [exact Hscore|].
  split; [split; [apply (inject_nat_le 0); lia | by apply inject_nat_le]|].
  split.
  { apply (inject_nat_le 1). destruct (split (lower query_text)); [done | cbn; lia]. }
  destruct Hcases as [(Hlen & Hc & ->) | [(Hlen & _ & _ & ->) | (_ & ->)]].
  - right; right. split; [reflexivity|].
    split; [by apply (inject_nat_le 2)|].
    rewrite (phrase_implies_words _ _ Hc). reflexivity.
  - destruct (proximity_bonus_Q self (split (lower query_text)) (lower document_text))
      as [-> | ->].
    + right; left. split; [reflexivity | by apply (inject_nat_le 2)].
    + left; reflexivity.
  - left; reflexivity.
Qed.

(** The keyword score never exceeds 1.25. *)
Lemma keyword_score_le_five_quarters (self : HybridSearchEngine Q)
    query_text document_text :
  (calculate_keyword_score self query_text document_text <= 5 # 4)%Q.
Proof.
  destruct (split (lower query_text)) as [|w ws] eqn:Ew.
  { unfold calculate_keyword_score. rewrite Ew. cbn. discriminate. }
  destruct (keyword_score_quotient self query_text document_text)
    as (m & n & bonus & _ & _ & Hscore & Hm & Hn & Hbonus).
  { rewrite Ew. discriminate. }
  rewrite Hscore. apply Qle_shift_div_r; [lra|].
  destruct Hbonus as [Hb | [[Hb Hn2] | [Hb [Hn2 _]]]]; rewrite Hb; lra.
Qed.

(** X7.  In exact arithmetic the keyword score never exceeds 1.25, and
    1.25 is reached: a two-word query whose phrase occurs scores
    [(2 + 0.5) / 2]. *)
Theorem X7_keyword_score_at_most_five_quarters :
  (forall (self : HybridSearchEngine Q) query_text document_text,
     (calculate_keyword_score self query_text document_text <= 5 # 4)%Q) /\
  (calculate_keyword_score (F:=Q) hybrid_search_engine "alpha beta"
     "the Alpha Beta release" == 5 # 4)%Q.
Proof.
  split; [apply keyword_score_le_five_quarters | vm_compute; reflexivity].
Qed.

(** X8.  With the default weights and a semantic score between 0 and 1,
    the hybrid score that re-ranking computes for a candidate lies
    between 0 and 1.1, in exact arithmetic. *)
Theorem X8_hybrid_score_range (query_text document_text : string)
    (semantic_score : Q) :
  split (lower query_text) <> [] ->
  (0 <= semantic_score <= 1)%Q ->
  let query_words := split (lower query_text) in
  let hybrid_score :=
    calculate_hybrid_score hybrid_search_engine semantic_score
      (calculate_keyword_score hybrid_search_engine query_text document_text)
      (count_matched query_words (lower document_text)) (length query_words) in
  (0 <= hybrid_score <= 11 # 10)%Q.
Proof.
  intros Hne Hs query_words hybrid_score. subst hybrid_score query_words.
  destruct (keyword_score_quotient hybrid_search_engine query_text document_text Hne)
    as (m & n & bonus & Hm & Hn & Hscore & Hmn & Hn1 & Hbonus).
  assert (0 <= calculate_keyword_score hybrid_search_engine query_text document_text)%Q
    as Hk0.
  { rewrite Hscore. apply Qle_shift_div_l; [lra|].
    destruct Hbonus as [Hb | [[Hb _] | [Hb _]]]; rewrite Hb; lra. }
  unfold calculate_hybrid_score.
  destruct (Nat.eqb_spec
              (count_matched (split (lower query_text)) (lower document_text))
              (length (split (lower query_text)))) as [Heq|Hneq];
    cbn [fadd fmul f0_6 f0_4 semantic_weight keyword_weight hybrid_search_engine
         init f0_7 f0_3 Q_Num].
  - assert (calculate_keyword_score hybrid_search_engine query_text document_text
            <= 5 # 4)%Q as Hk
      by apply keyword_score_le_five_quarters.
    lra.
  - assert (calculate_keyword_score hybrid_search_engine query_text document_text
            <= 1)%Q as Hk.
    { assert (m + 1 <= n)%Q as Hlt.
      { subst m n. rewrite <- (inject_Z_plus _ 1), <- Zle_Qle.
        pose proof (count_matched_le (split (lower query_text))
                      (lower document_text)). lia. }
      rewrite Hscore. apply Qle_shift_div_r; [lra|].
      destruct Hbonus as [Hb | [[Hb _] | [Hb [_ Hmn']]]]; rewrite Hb; lra. }
    lra.
Qed.

(** X9.  [search] raises only if the semantic search function raises on
    the fallback call: when [semantic_search_func(query, limit, filter)]
    returns, so does [search], whatever happens during over-fetching and
    re-ranking. *)
Theorem X9_search_raises_only_with_the_fallback {F} `{Num F}
    (self : HybridSearchEngine F) (query_text : string)
    (semantic_search_func : semantic_search) (limit : Z)
    (filter_dict : option (gmap string (value F))) :
  is_Ok (semantic_search_func query_text limit filter_dict) = true ->
  is_Ok (search self query_text semantic_search_func limit filter_dict) = true.
Proof.
  intros Hok. unfold search.
  destruct (semantic_search_func query_text (Z.max (limit * 4) 20) filter_dict)
    as [[|r rs]|e]; cbn [mbind exc_bind try_except]; [reflexivity | | exact Hok].
  destruct (rerank_results self query_text (r :: rs)); cbn; [reflexivity | exact Hok].
Qed.

(** X10.  For a non-negative [limit], [search] returns at most [limit]
    results provided the semantic search function itself returns at most
    [limit] results when asked for [limit]. *)
Theorem X10_search_returns_at_most_limit {F} `{Num F}
    (self : HybridSearchEngine F) (query_text : string)
    (semantic_search_func : semantic_search) (limit : Z)
    (filter_dict : option (gmap string (value F)))
    (out : list (gmap string (value F))) :
  0 <= limit ->
  (forall results,
     semantic_search_func query_text limit filter_dict = Ok results ->
     Z.of_nat (length results) <= limit) ->
  search self query_text semantic_search_func limit filter_dict = Ok out ->
  Z.of_nat (length out) <= limit.
Proof.
  intros Hlimit Hf. unfold search.
  destruct (semantic_search_func query_text (Z.max (limit * 4) 20) filter_dict)
    as [[|r rs]|e]; cbn [mbind exc_bind try_except].
  - intros Heq. inversion Heq. cbn. lia.
  - destruct (rerank_results self query_text (r :: rs)) as [hs|e];
      cbn [mbind exc_bind try_except].
    + intros Heq. inversion Heq. by apply length_slice_to.
    + apply Hf.
  - apply Hf.
Qed.

End MoreScoreBounds.

(* ===================================================================== *)
(** * More about the gateway                                              *)
(* ===================================================================== *)

Section MoreGateway.
Import Notions App Models QdrantClient DocumentRouter GatewayNotions.
Context {F : Type} `{Num F}.

Lemma enumerate_from_length {A} (l : list A) n :
  length (HybridSearch.enumerate_from n l) = length l.
Proof.
  revert n. induction l as [|x r IH]; intros n; [reflexivity|].
  cbn. by rewrite IH.
Qed.

(** What the loop that builds the points does: it only draws uuids; it
    returns exactly when every entry is embeddable. *)
Lemma build_points_outcome (b : Backend F) docs : forall w,
  exists w' r,
    run (build_points b docs) w = (w', r) /\
    same_store w w' /\ qdrant_client w' = qdrant_client w /\
    collections w' = collections w /\
    (is_Ok r = true <-> Forall (fun d => embeddable b (snd d)) docs) /\
    forall points, r = Ok points ->
      Forall2 (fun d p => point_carries (fst d) (snd d) p) docs points.
Proof.
  induction docs as [|[i doc] rest IH]; intros w; cbn [build_points].
  - exists w, (Ok []). cbn. repeat split; try done.
    intros points Heq. inversion Heq. constructor.
  - cbn.
    destruct (get doc "text" (VStr "")) as [| | |text|] eqn:Et; cbn;
      try (eexists _, _; split; [reflexivity|]; repeat split; try done;
           intros Hall; inversion Hall as [|? ? (t & v & Ht & _) _]; subst;
           cbn in Ht; congruence).
    destruct (encode b text) as [embedding|e] eqn:Ee; cbn.
    2:{ eexists _, _; split; [reflexivity|]; repeat split; try done.
        intros Hall. inversion Hall as [|? ? (t & v & Ht & Hv) _]; subst.
        cbn in Ht. rewrite Et in Ht. inversion Ht; subst. congruence. }
    destruct (IH (with_uuids_drawn (S (uuids_drawn w)) w))
      as (w' & r & Hrun & (Hd & Hc & Hn & Hf) & Hq & Hcol & Hiff & Hpoints).
    rewrite run_bind, Hrun. destruct r as [points|e]; cbn.
    + eexists _, _. split; [reflexivity|]. split; [by repeat split|].
      split; [exact Hq|]. split; [exact Hcol|]. split.
      * split; [|done]. intros _. constructor; [|by apply Hiff].
        exists text, embedding. done.
      * intros points' Heq. inversion Heq; subst. constructor; [|by apply Hpoints].
        unfold point_carries. cbn [payload fst snd].
        rewrite lookup_insert_eq.
        do 4 (rewrite lookup_insert_ne by done). rewrite lookup_insert_eq.
        do 1 (rewrite lookup_insert_ne by done).
        do 2 (rewrite lookup_insert_ne by done). rewrite lookup_insert_eq.
        by rewrite Et.
    + eexists _, _. split; [reflexivity|]. split; [by repeat split|].
      split; [exact Hq|]. split; [exact Hcol|]. split; [|done].
      split; [done|]. intros Hall. inversion Hall as [|? ? _ Hrest]; subst.
      apply Hiff in Hrest. discriminate.
Qed.

(** The complete behaviour of [insert_documents]. *)
Lemma insert_documents_outcome (b : Backend F) documents (w : World F) :
  exists w' inserted,
    run (insert_documents b documents) w = (w', Ok inserted) /\
    same_store w w' /\ qdrant_client w' = qdrant_client w /\
    (inserted = true <->
       client (qdrant_client w) && embedding_model (qdrant_client w) = true /\
       Forall (embeddable b) documents /\
       is_Ok (upsert b) = true /\
       is_Some (collection_name (qdrant_client w))) /\
    (inserted = false -> collections w' = collections w) /\
    (inserted = true ->
       exists name points,
         collection_name (qdrant_client w) = Some name /\
         length points = length documents /\
         collections w' =
           <[name := default [] (collections w !! name) ++ points]> (collections w) /\
         Forall2 (fun d p => point_carries (fst d) (snd d) p)
                 (HybridSearch.enumerate documents) points).
Proof.
  assert (forall n (l : list (gmap string (value F))),
            Forall (fun d => embeddable b (snd d)) (HybridSearch.enumerate_from n l)
            <-> Forall (embeddable b) l) as Henum.
  { intros n l. revert n. induction l as [|x r IH]; intros n; cbn.
    - split; constructor.
    - split; intros Hall; inversion Hall; subst; constructor; try done;
        by apply (IH (S n)). }
  unfold insert_documents. cbn.
  destruct (client (qdrant_client w) && embedding_model (qdrant_client w)) eqn:Ei; cbn.
  2:{ eexists _, _; split; [reflexivity|]; split; [apply same_store_refl|].
      repeat split; try done. by intros (? & _). }
  destruct (build_points_outcome b (HybridSearch.enumerate documents) w)
    as (w1 & r1 & Hrun & Hstore & Hq & Hcol & Hiff & Hpoints).
  unfold HybridSearch.enumerate in Hiff. rewrite Henum in Hiff.
  rewrite run_bind, Hrun. destruct r1 as [points|e]; cbn.
  2:{ eexists _, _; split; [reflexivity|]; split; [exact Hstore|].
      repeat split; try done. intros (_ & Hall & _). apply Hiff in Hall. done. }
  assert (Forall (embeddable b) documents) as Hall by (by apply Hiff).
  destruct (upsert b) as [[]|e]; cbn.
  2:{ eexists _, _; split; [reflexivity|]; split; [exact Hstore|].
      repeat split; try done. by intros (_ & _ & ? & _). }
  destruct (collection_name (qdrant_client w)) as [name|] eqn:En; cbn.
  2:{ eexists _, _; split; [reflexivity|]; split; [exact Hstore|].
      repeat split; try done. intros (_ & _ & _ & [? ?]). done. }
  eexists _, _. split; [reflexivity|].
  destruct Hstore as (Hd & Hc & Hn & Hf).
  split; [by repeat split|]. split; [exact Hq|].
  split; [split; [intros _; repeat split; try done; by eexists | done]|].
  split; [done|]. intros _.
  exists name, points. split; [reflexivity|]. split.
  { specialize (Hpoints points eq_refl). apply Forall2_length in Hpoints.
    unfold HybridSearch.enumerate in Hpoints.
    by rewrite enumerate_from_length in Hpoints. }
  cbn. rewrite Hcol. split; [reflexivity|]. by apply Hpoints.
Qed.

(** X11.  [insert_documents] is all or nothing.  It never raises and never
    touches rows or files.  When it answers [False] the vector store is as
    it was; when it answers [True] exactly one point per document of the
    batch was appended, in order, to the configured collection, and no
    other collection changed. *)
Theorem X11_insert_documents_all_or_nothing (b : Backend F)
    (documents : list (gmap string (value F))) (w : World F) :
  exists w' inserted,
    run (insert_documents b documents) w = (w', Ok inserted) /\
    same_store w w' /\
    if inserted : bool then
      exists name points,
        collection_name (qdrant_client w) = Some name /\
        length points = length documents /\
        collections w' !! name = Some (default [] (collections w !! name) ++ points) /\
        (forall other, other <> name -> collections w' !! other = collections w !! other) /\
        Forall2 (fun d p => point_carries (fst d) (snd d) p)
                (HybridSearch.enumerate documents) points
    else collections w' = collections w.
Proof.
  destruct (insert_documents_outcome b documents w)
    as (w' & inserted & Hrun & Hstore & _ & _ & Hfalse & Htrue).
  exists w', inserted. split; [exact Hrun|]. split; [exact Hstore|].
  destruct inserted; [|by apply Hfalse].
  destruct (Htrue eq_refl) as (name & points & Hname & Hlen & Hcol & Hpoints).
  exists name, points. rewrite Hcol.
  split; [exact Hname|]. split; [exact Hlen|].
  split; [by rewrite lookup_insert_eq|].
  split; [intros other Hne; by rewrite lookup_insert_ne | exact Hpoints].
Qed.

(** X12.  [insert_documents] answers [True] exactly when the gateway has a
    client, an embedding model and a collection name, the text of every
    document of the batch is a [str] that the model embeds, and the upsert
    call returns.  One document that cannot be embedded rejects the whole
    batch. *)
Theorem X12_insert_documents_success_condition (b : Backend F)
    (documents : list (gmap string (value F))) (w : World F) :
  snd (run (insert_documents b documents) w) = Ok true <->
  client (qdrant_client w) && embedding_model (qdrant_client w) = true /\
  Forall (embeddable b) documents /\
  is_Ok (upsert b) = true /\
  is_Some (collection_name (qdrant_client w)).
Proof.
  destruct (insert_documents_outcome b documents w)
    as (w' & inserted & Hrun & _ & _ & Hiff & _).
  rewrite Hrun. cbn [snd]. rewrite <- Hiff.
  split; [by intros [= ->] | by intros ->].
Qed.

Lemma format_result_hit (p : ScoredPoint F) : hit_of_point p (format_result p).
Proof.
  unfold hit_of_point, format_result, get.
  split; [by repeat (rewrite lookup_insert_ne by done); rewrite lookup_insert_eq|].
  split; [by repeat (rewrite lookup_insert_ne by done); rewrite lookup_insert_eq|].
  split; [by repeat (rewrite lookup_insert_ne by done); rewrite lookup_insert_eq|].
  eexists. split; [by rewrite lookup_insert_eq|].
  intros key Hkey. repeat (apply elem_of_cons in Hkey as [-> | Hkey]).
  - by repeat (rewrite lookup_insert_ne by done); rewrite lookup_insert_eq.
  - by repeat (rewrite lookup_insert_ne by done); rewrite lookup_insert_eq.
  - by repeat (rewrite lookup_insert_ne by done); rewrite lookup_insert_eq.
  - by rewrite lookup_insert_eq.
  - by apply elem_of_nil in Hkey.
Qed.

(** X13.  The gateway's [search] never raises and changes nothing.  It
    returns either no hit (no client or model, or the embedding or the
    vector query raised) or one hit per scored point of the vector store's
    answer, in the same order; each hit has the keys [id], [score], [text]
    and [metadata], the score is the point's score, a missing payload text
    becomes [''] and missing metadata fields become [None]. *)
Theorem X13_gateway_search_hits (b : Backend F) (query_text : string) (limit : Z)
    (filter_dict : option (gmap string (value F))) (w : World F) :
  exists results,
    run (search b query_text limit filter_dict) w = (w, Ok results) /\
    (results = [] \/
     exists embedding points,
       encode b query_text = Ok embedding /\
       search_points b embedding (query_filter filter_dict) limit = Ok points /\
       Forall2 hit_of_point points results).
Proof.
  destruct (search_spec b query_text limit filter_dict w)
    as (results & Hrun & Hinit & Henc & Hquery & Hok).
  exists results. split; [exact Hrun|].
  destruct (client (qdrant_client w) && embedding_model (qdrant_client w)) eqn:Ei;
    [|left; by apply Hinit].
  destruct (encode b query_text) as [embedding|e] eqn:Ee; [|left; by apply Henc].
  destruct (search_points b embedding (query_filter filter_dict) limit)
    as [points|e] eqn:Es.
  - right. exists embedding, points. split; [reflexivity|]. split; [exact Es|].
    rewrite (Hok embedding points eq_refl eq_refl Es).
    clear. induction points as [|p rest IH]; cbn; constructor;
      [apply format_result_hit | exact IH].
  - left. apply (Hquery embedding eq_refl). by rewrite Es.
Qed.

(** X14.  The gateway's [hybrid_search] never raises and changes nothing,
    because its semantic search function, the gateway's own [search],
    never raises; without a client or an embedding model it returns no
    hit. *)
Theorem X14_gateway_hybrid_search_total (b : Backend F) (query_text : string)
    (limit : Z) (filter_dict : option (gmap string (value F))) (w : World F) :
  exists results,
    run (hybrid_search b query_text limit filter_dict) w = (w, Ok results) /\
    (client (qdrant_client w) && embedding_model (qdrant_client w) = false ->
     results = []).
Proof.
  unfold hybrid_search. cbn [run].
  set (f := fun q k fd => snd (run (search b q k fd) w)).
  assert (forall q k fd, exists rs,
            f q k fd = Ok rs /\
            (client (qdrant_client w) && embedding_model (qdrant_client w) = false ->
             rs = [])) as Hf.
  { intros q k fd. destruct (search_spec b q k fd w) as (rs & Hrun & Hinit & _).
    exists rs. subst f. cbv beta. rewrite Hrun. done. }
  unfold HybridSearch.search.
  destruct (Hf query_text (Z.max (limit * 4) 20) filter_dict) as (rs & Hrs & Hnil).
  destruct (Hf query_text limit filter_dict) as (rs' & Hrs' & Hnil').
  rewrite Hrs. cbn [mbind exc_bind]. destruct rs as [|r rs].
  - exists []. done.
  - destruct (HybridSearch.rerank_results HybridSearch.hybrid_search_engine
                query_text (r :: rs)) as [hs|e]; cbn [mbind exc_bind try_except].
    + eexists. split; [reflexivity|]. intros Hi. by specialize (Hnil Hi).
    + rewrite Hrs'. exists rs'. done.
Qed.

(** X15.  [initialize_qdrant] is idempotent: running it again in the world
    it produced, against the same backend, gives the same answer and the
    same world (an existing collection is not created a second time).  It
    never raises, never touches rows or files, and keeps the points of
    every collection. *)
Theorem X15_initialize_qdrant_idempotent (b : Backend F) (w : World F) :
  exists w1 ready,
    run (initialize_qdrant b) w = (w1, Ok ready) /\
    run (initialize_qdrant b) w1 = (w1, Ok ready) /\
    same_store w w1 /\
    forall name points,
      collections w !! name = Some points -> collections w1 !! name = Some points.
Proof.
  unfold initialize_qdrant, connect, initialize_collection, load_embedding_model.
  destruct (qdrant_connect b) eqn:E1; cbn; rewrite ?E1; cbn;
    [destruct (get_collections b) eqn:E2; cbn; rewrite ?E1, ?E2; cbn;
     [destruct (collections w !! env_collection_name b) eqn:E3; cbn;
      rewrite ?E1, ?E2, ?E3; cbn;
      [|destruct (create_collection b) eqn:E4; cbn; rewrite ?E1, ?E2, ?E3, ?E4; cbn];
      destruct (load_model b) eqn:E5; cbn; rewrite ?E1, ?E2, ?E3, ?E4, ?E5; cbn|]|].
  all: eexists _, _; (split; [reflexivity|]).
  all: split;
    [cbn; repeat (first [rewrite lookup_insert_eq
                        | match goal with E : _ = _ |- _ => rewrite E end]; cbn);
     reflexivity|].
  all: (split; [by repeat split|]); cbn; try done.
  all: intros name points Hname;
    destruct (decide (name = env_collection_name b)) as [->|Hne];
    [congruence | by rewrite lookup_insert_ne].
Qed.

End MoreGateway.

(* ===================================================================== *)
(** * Text extraction, cleaning and file names                            *)
(* ===================================================================== *)

Section MoreText.
Import Notions App PDFProcessor DocumentRouter.

Lemma all_chars_app p x y :
  all_chars p (x +:+ y) = all_chars p x && all_chars p y.
Proof.
  induction x as [|c r IH]; [reflexivity|].
  rewrite append_cons. cbn [all_chars]. by rewrite IH, andb_assoc.
Qed.

Lemma rev_append_str_spec s : forall acc,
  rev_append_str s acc = rev_str s +:+ acc.
Proof.
  unfold rev_str. induction s as [|c r IH]; intros acc; cbn [rev_append_str].
  - reflexivity.
  - rewrite (IH (String c acc)), (IH (String c "")), append_assoc.
    by rewrite append_cons, append_nil_l.
Qed.

Lemma rev_str_cons c r : rev_str (String c r) = rev_str r +:+ String c "".
Proof. unfold rev_str at 1. cbn [rev_append_str]. apply rev_append_str_spec. Qed.

Lemma rev_str_app x y : rev_str (x +:+ y) = rev_str y +:+ rev_str x.
Proof.
  induction x as [|c r IH].
  - by rewrite append_nil_l, append_nil_r.
  - by rewrite append_cons, !rev_str_cons, IH, append_assoc.
Qed.

Lemma rev_str_involutive s : rev_str (rev_str s) = s.
Proof.
  induction s as [|c r IH]; [reflexivity|].
  rewrite rev_str_cons, rev_str_app, IH. reflexivity.
Qed.

Lemma rev_str_nil s : rev_str s = "" -> s = "".
Proof. intros Heq. by rewrite <- (rev_str_involutive s), Heq. Qed.

Lemma all_chars_rev p s : all_chars p (rev_str s) = all_chars p s.
Proof.
  induction s as [|c r IH]; [reflexivity|].
  rewrite rev_str_cons, all_chars_app, IH. cbn [all_chars].
  by rewrite andb_true_r, andb_comm.
Qed.

Lemma lstrip_decompose s :
  exists ws, s = ws +:+ lstrip s /\ all_chars isspace ws = true.
Proof.
  induction s as [|c r (ws & Heq & Hws)]; [by exists ""|].
  cbn [lstrip]. destruct (isspace c) eqn:Ec.
  - exists (String c ws). rewrite append_cons, <- Heq. cbn [all_chars].
    by rewrite Ec, Hws.
  - by exists "".
Qed.

Lemma lstrip_head s c r : lstrip s = String c r -> isspace c = false.
Proof.
  induction s as [|a s IH]; [done|]. cbn [lstrip].
  destruct (isspace a) eqn:Ea; [exact IH|]. by intros [= <- _].
Qed.

Lemma lstrip_nil s : lstrip s = "" <-> all_chars isspace s = true.
Proof.
  induction s as [|c r IH]; [done|]. cbn [lstrip all_chars].
  destruct (isspace c); [exact IH | done].
Qed.

Lemma all_chars_lstrip p s : all_chars p s = true -> all_chars p (lstrip s) = true.
Proof.
  destruct (lstrip_decompose s) as (ws & Heq & _). intros Hall.
  rewrite Heq, all_chars_app in Hall. by apply andb_true_iff in Hall as [_ ?].
Qed.

Lemma all_chars_strip p s : all_chars p s = true -> all_chars p (strip s) = true.
Proof.
  intros Hall. unfold strip. rewrite all_chars_rev. apply all_chars_lstrip.
  rewrite all_chars_rev. by apply all_chars_lstrip.
Qed.

Lemma strip_nil s : strip s = "" <-> all_chars isspace s = true.
Proof.
  unfold strip. split.
  - intros Heq%rev_str_nil%lstrip_nil. rewrite all_chars_rev in Heq.
    destruct (lstrip_decompose s) as (ws & Hs & Hws).
    by rewrite Hs, all_chars_app, Hws, Heq.
  - intros Hall. apply all_chars_lstrip in Hall.
    rewrite <- all_chars_rev in Hall. apply lstrip_nil in Hall.
    by rewrite Hall.
Qed.

Lemma strip_stripped s : stripped (strip s).
Proof.
  unfold strip. split.
  - intros c r Heq.
    destruct (lstrip_decompose (rev_str (lstrip s))) as (ws & Hrev & _).
    apply (f_equal rev_str) in Hrev.
    rewrite rev_str_involutive, rev_str_app, Heq, append_cons in Hrev.
    by apply lstrip_head in Hrev.
  - intros p c Heq. apply (f_equal rev_str) in Heq.
    rewrite rev_str_involutive, rev_str_app in Heq.
    change (rev_str (String c "")) with (String c "") in Heq.
    rewrite append_cons, append_nil_l in Heq. by apply lstrip_head in Heq.
Qed.

Lemma all_chars_collapse s : forall in_run,
  all_chars plain_space (collapse_whitespace in_run s) = true.
Proof.
  induction s as [|c r IH]; intros in_run; [reflexivity|].
  cbn [collapse_whitespace]. destruct (isspace c) eqn:Ec.
  - destruct in_run; [apply IH|]. cbn [all_chars]. by rewrite IH.
  - cbn [all_chars]. unfold plain_space at 1. by rewrite Ec, IH.
Qed.

Lemma remove_hyphen_space_cons c c' r :
  remove_hyphen_space (String c (String c' r)) =
  if Ascii.eqb c "-" && Ascii.eqb c' " " then remove_hyphen_space r
  else String c (remove_hyphen_space (String c' r)).
Proof. reflexivity. Qed.

Lemma all_chars_remove_hyphen_space p s :
  all_chars p s = true -> all_chars p (remove_hyphen_space s) = true.
Proof.
  assert (forall n s, (String.length s <= n)%nat -> all_chars p s = true ->
                      all_chars p (remove_hyphen_space s) = true) as Hlen.
  { clear s. induction n as [|n IH]; intros s Hn Hall.
    - by destruct s; [|cbn in Hn; lia].
    - destruct s as [|c [|c' r']]; [done | done |].
      rewrite remove_hyphen_space_cons. cbn [all_chars] in Hall.
      apply andb_true_iff in Hall as [Hc Hr].
      cbn [String.length] in Hn.
      destruct (Ascii.eqb c "-" && Ascii.eqb c' " ").
      + apply IH; [lia|]. by apply andb_true_iff in Hr as [_ ?].
      + cbn [all_chars]. rewrite Hc. cbn [andb]. apply IH; [cbn; lia | exact Hr]. }
  by apply (Hlen (String.length s)).
Qed.

Lemma all_chars_space_case_boundaries s :
  all_chars plain_space s = true ->
  all_chars plain_space (space_case_boundaries s) = true.
Proof.
  induction s as [|c r IH]; [done|]. intros Hall.
  cbn [all_chars] in Hall. apply andb_true_iff in Hall as [Hc Hr].
  cbn [space_case_boundaries]. destruct r as [|c' r']; [by cbn; rewrite Hc|].
  specialize (IH Hr).
  destruct (is_lower c && is_upper c'); cbn [all_chars]; rewrite Hc; cbn [andb];
    [|exact IH].
  by rewrite IH.
Qed.

(** X16.  The text that [clean_text] returns is normalised: it neither
    starts nor ends with a whitespace character, and the only whitespace
    character left in it is the space (no tab, no line break). *)
Theorem X16_clean_text_normalised (text : string) :
  stripped (clean_text text) /\
  all_chars plain_space (clean_text text) = true.
Proof.
  unfold clean_text. split; [apply strip_stripped|].
  apply all_chars_strip, all_chars_space_case_boundaries,
    all_chars_remove_hyphen_space, all_chars_collapse.
Qed.

Lemma join_pages_nonspace pages : forall n text,
  all_chars isspace text = false ->
  all_chars isspace (join_pages n pages text) = false.
Proof.
  induction pages as [|page rest IH]; intros n text Htext; [exact Htext|].
  cbn [join_pages]. apply IH. destruct (truthy_str page); [|exact Htext].
  by rewrite all_chars_app, Htext.
Qed.

Lemma join_pages_some_text pages : forall n text,
  Exists (fun page_text => page_text <> "") pages ->
  all_chars isspace (join_pages n pages text) = false.
Proof.
  induction pages as [|page rest IH]; intros n text Hex; [by inversion Hex|].
  cbn [join_pages]. destruct page as [|c page].
  - cbn [truthy_str is_empty_str negb]. apply IH.
    by inversion Hex as [? ? Hp|]; subst.
  - cbn [truthy_str is_empty_str negb]. apply join_pages_nonspace.
    rewrite !all_chars_app. cbn [all_chars].
    replace (isspace "-") with false by reflexivity.
    by rewrite !andb_false_r, ?andb_false_l.
Qed.

(** X17.  [extract_text_from_pdf] returns exactly when the PDF reader
    returns and at least one page has a non-empty text; a page whose text
    is only whitespace counts, because its page header is text.  The text
    it returns is not empty and neither starts nor ends with whitespace.
    When it raises, the exception is the reader's or the fixed
    no-text exception. *)
Theorem X17_extract_text_outcomes {F} `{Num F} (b : Backend F)
    (pdf_content : list Byte.byte) :
  match extract_text_from_pdf b pdf_content with
  | Ok text =>
      text <> "" /\ stripped text /\
      exists pages, pdf_page_texts b pdf_content = Ok pages /\
                    Exists (fun page_text => page_text <> "") pages
  | Raise e =>
      pdf_page_texts b pdf_content = Raise e \/
      e = Exception "No text could be extracted from the PDF" /\
      exists pages, pdf_page_texts b pdf_content = Ok pages /\
                    Forall (fun page_text => page_text = "") pages
  end.
Proof.
  unfold extract_text_from_pdf.
  destruct (pdf_page_texts b pdf_content) as [pages|e]; cbn [mbind exc_bind];
    [|by left].
  destruct (decide (Exists (fun page_text : string => page_text <> "") pages))
    as [Hex|Hno].
  - pose proof (join_pages_some_text pages 0 "" Hex) as Hns.
    destruct (strip (join_pages 0 pages "")) as [|c r] eqn:Es.
    + apply strip_nil in Es. congruence.
    + cbn [truthy_str is_empty_str negb]. split; [done|].
      split; [rewrite <- Es; apply strip_stripped|]. by exists pages.
  - assert (Forall (fun page_text : string => page_text = "") pages) as Hall.
    { apply Forall_forall. intros page Hin.
      destruct (decide (page = "")) as [|Hne]; [done|].
      exfalso. apply Hno, Exists_exists. by exists page. }
    rewrite join_pages_blank by exact Hall.
    right. split; [reflexivity|]. by exists pages.
Qed.

Lemma all_chars_clean_filename name :
  all_chars allowed_in_filename (clean_filename name) = true.
Proof.
  induction name as [|c r IH]; [reflexivity|]. cbn [clean_filename].
  destruct (isalnum c || Ascii.eqb c "." || Ascii.eqb c "_" || Ascii.eqb c "-")
    eqn:Ec; [|exact IH].
  cbn [all_chars]. unfold allowed_in_filename at 1. by rewrite Ec, IH.
Qed.

(** X18.  [clean_filename] keeps only letters, digits, [.], [_] and [-]:
    the cleaned name contains no path separator (and no whitespace), so
    the blob is stored directly in the upload directory.  A name that
    consists of allowed characters only is kept as it is. *)
Theorem X18_clean_filename_safe (name : string) :
  all_chars allowed_in_filename (clean_filename name) = true /\
  (forall pre post, clean_filename name <> pre +:+ "/" +:+ post) /\
  (all_chars allowed_in_filename name = true -> clean_filename name = name).
Proof.
  split; [apply all_chars_clean_filename|]. split.
  - intros pre post Heq. pose proof (all_chars_clean_filename name) as Hall.
    rewrite Heq, !all_chars_app in Hall. cbn [all_chars] in Hall.
    replace (allowed_in_filename "/") with false in Hall by reflexivity.
    by rewrite andb_false_r in Hall.
  - induction name as [|c r IH]; [done|]. cbn [all_chars clean_filename].
    intros [Hc Hr]%andb_true_iff. unfold allowed_in_filename in Hc.
    rewrite Hc. by rewrite IH.
Qed.


End MoreText.

(* ===================================================================== *)
(** * More about the ingestion handlers                                   *)
(* ===================================================================== *)

Section MoreIngestion.
Import Notions App Models QdrantClient DocumentRouter.
Context {F : Type} `{Num F}.

(** The world after an accepted upload, in full. *)
Lemma upload_pdf_effects (b : Backend F) (file : UploadFile) (w : World F) :
  endswith (lower (file_filename file)) ".pdf" = true ->
  let doc_id := next_document_id w in
  let path := blob_path b w (file_filename file) in
  exists w' r,
    run (upload_pdf b file) w = (w', r) /\
    match r with
    | Raise e =>
        (exists detail, e = HTTPException 500 detail) /\
        documents w' = delete doc_id (documents w) /\
        files w' = delete path (files w) /\
        document_chunks w' =
          filter (fun kv => document_id (snd kv) ≠ doc_id) (document_chunks w)
    | Ok response =>
        exists db_document,
          response = response_of db_document /\
          id db_document = doc_id /\
          vectorization_status db_document = "completed" /\
          documents w' = <[doc_id := db_document]> (documents w) /\
          files w' = <[path := file_content file]> (files w) /\
          document_chunks w' = document_chunks w
    end.
Proof.
  intros Hpdf doc_id path. unfold upload_pdf. rewrite Hpdf. cbn [negb].
  cbn -[vectorize clean_filename path_join UPLOAD_DIR String.append
        PDFProcessor.process_pdf_to_chunks].
  match goal with
  | |- context [run (vectorize ?b' ?c ?n ?d) ?W] =>
      destruct (vectorize_spec b' c n d W)
        as (w1 & r1 & Hrun & (Hd & Hc & Hn & Hf) & Hfail & Hok); rewrite Hrun
  end.
  destruct r1 as [d|e]; cbn -[clean_filename path_join UPLOAD_DIR String.append].
  - eexists _, _. split; [reflexivity|].
    destruct (Hok d eq_refl) as (chunks & points & Hchunks & -> & Hcol & Hpoints).
    clear Hrun Hok Hfail Hcol Hpoints.
    eexists. split; [reflexivity|]. cbn in Hd, Hc, Hf |- *.
    split; [reflexivity|]. split; [reflexivity|].
    split; [rewrite Hd, insert_insert_eq; reflexivity|].
    split; [exact Hf | exact Hc].
  - clear Hrun Hok Hfail.
    eexists _, _. split; [reflexivity|]. split; [eauto|]. cbn in Hd, Hc, Hf |- *.
    split; [rewrite Hd, delete_insert_eq; reflexivity|].
    split; [rewrite Hf, delete_insert_eq, delete_delete_eq; reflexivity|].
    rewrite Hc. reflexivity.
Qed.


(** X20.  An upload touches nothing but its own document: whatever its
    outcome, the rows of the other documents, the files under other paths
    and the chunk rows of other documents are as they were. *)
Theorem X20_upload_pdf_frame (b : Backend F) (file : UploadFile) (w : World F) :
  let doc_id := next_document_id w in
  let path := blob_path b w (file_filename file) in
  exists w' r,
    run (upload_pdf b file) w = (w', r) /\
    (forall other, other <> doc_id -> documents w' !! other = documents w !! other) /\
    (forall other, other <> path -> files w' !! other = files w !! other) /\
    (forall k chunk,
       document_chunks w !! k = Some chunk -> document_id chunk <> doc_id ->
       document_chunks w' !! k = Some chunk).
Proof.
  intros doc_id path.
  destruct (endswith (lower (file_filename file)) ".pdf") eqn:Hpdf.
  - destruct (upload_pdf_effects b file w Hpdf) as (w' & r & Hrun & Hr).
    exists w', r. split; [exact Hrun|]. destruct r as [response|e].
    + destruct Hr as (d & _ & _ & _ & -> & -> & ->).
      split; [intros other Hne; by rewrite lookup_insert_ne|].
      split; [intros other Hne; by rewrite lookup_insert_ne | done].
    + destruct Hr as (_ & -> & -> & ->).
      split; [intros other Hne; by rewrite lookup_delete_ne|].
      split; [intros other Hne; by rewrite lookup_delete_ne|].
      intros k chunk Hk Hne. by apply map_lookup_filter_Some.
  - eexists _, _. unfold upload_pdf. rewrite Hpdf. split; [reflexivity|]. done.
Qed.

(** The world after a URL ingestion, in full. *)
Lemma url_to_pdf_effects (b : Backend F) (url_request : UrlToPdfRequest)
    (w : World F) :
  let doc_id := next_document_id w in
  let path := blob_path b w (generated_filename url_request) in
  exists w' r,
    run (url_to_pdf b url_request) w = (w', r) /\
    document_chunks w' = document_chunks w /\
    match render_page b (url url_request) (cookies url_request) with
    | Raise e0 =>
        r = Raise (HTTPException 500
                     ("Failed to process URL: " +:+ str_of_exception e0)) /\
        documents w' = documents w /\
        files w' = <[tmp_name b := []]> (files w)
    | Ok (success, text, rendered) =>
        let extracted_text := if success : bool then text else "" in
        exists db_document,
          r = Ok (response_of db_document) /\
          id db_document = doc_id /\
          documents w' = <[doc_id := db_document]> (documents w) /\
          if truthy_str extracted_text && (100 <? String.length extracted_text)%nat
          then
            files w' =
              delete (tmp_name b)
                (<[path := rendered]> (<[tmp_name b := rendered]> (files w))) /\
            (vectorization_status db_document = "completed" \/
             vectorization_status db_document = "failed" /\
             chunks_count db_document = 0)
          else
            files w' = <[path := rendered]> (<[tmp_name b := rendered]> (files w)) /\
            vectorization_status db_document = "failed" /\
            chunks_count db_document = 0
    end.
Proof.
  intros doc_id path. unfold url_to_pdf.
  destruct (render_page b (url url_request) (cookies url_request))
    as [[[success text] rendered]|e0] eqn:Hrender.
  2:{ cbn -[String.append]. rewrite ?Hrender. cbn -[String.append].
      eexists _, _. split; [reflexivity|]. done. }
  cbv zeta.
  destruct (truthy_str (if success then text else "") &&
            (100 <? String.length (if success then text else ""))%nat) eqn:Hlong.
  - cbn -[vectorize clean_filename path_join UPLOAD_DIR String.append truthy_str
          String.length Nat.ltb].
    rewrite ?Hrender.
    cbn -[vectorize clean_filename path_join UPLOAD_DIR String.append truthy_str
          String.length Nat.ltb].
    rewrite Hlong.
    cbn -[vectorize clean_filename path_join UPLOAD_DIR String.append].
    rewrite lookup_insert_eq.
    cbn -[vectorize clean_filename path_join UPLOAD_DIR String.append].
    match goal with
    | |- context [run (vectorize ?b' ?c ?n ?d) ?W] =>
        destruct (vectorize_spec b' c n d W)
          as (w1 & r1 & Hrun & (Hd & Hc & Hn & Hf) & Hfail & Hok); rewrite Hrun
    end.
    destruct r1 as [d|e]; cbn -[clean_filename path_join UPLOAD_DIR String.append].
    + destruct (Hok d eq_refl) as (chunks & points & Hchunks & -> & Hcol & Hpoints).
      clear Hrun Hok Hfail Hcol Hpoints.
      eexists _, _. split; [reflexivity|]. cbn in Hd, Hc, Hf |- *.
      split; [exact Hc|]. eexists. split; [reflexivity|]. cbn.
      split; [reflexivity|].
      split; [rewrite Hd, insert_insert_eq; reflexivity|].
      split; [|by left].
      rewrite Hf, insert_insert_eq. reflexivity.
    + clear Hrun Hok Hfail.
      eexists _, _. split; [reflexivity|]. cbn in Hd, Hc, Hf |- *.
      split; [exact Hc|]. eexists. split; [reflexivity|]. cbn.
      split; [reflexivity|].
      split; [rewrite Hd, insert_insert_eq; reflexivity|].
      split; [|by right].
      rewrite Hf, insert_insert_eq. reflexivity.
  - unfold create_pdf_document_without_vectorization.
    cbn -[clean_filename path_join UPLOAD_DIR String.append truthy_str
          String.length Nat.ltb].
    rewrite ?Hrender.
    cbn -[clean_filename path_join UPLOAD_DIR String.append truthy_str
          String.length Nat.ltb].
    rewrite Hlong.
    cbn -[clean_filename path_join UPLOAD_DIR String.append].
    rewrite lookup_insert_eq.
    cbn -[clean_filename path_join UPLOAD_DIR String.append].
    eexists _, _. split; [reflexivity|]. cbn.
    split; [reflexivity|]. eexists. split; [reflexivity|]. cbn.
    split; [reflexivity|]. split; [reflexivity|].
    split; [|done]. rewrite insert_insert_eq. reflexivity.
Qed.

(** X21.  What a URL ingestion can do, given a working file system and
    database.  It raises only when rendering the page raised; the
    exception is then HTTP 500 with the text of the rendering exception,
    and no row is written.  Otherwise it returns the response of the row
    it stored for the new document, and that row is [completed], or
    [failed] with a chunk count of 0: never [pending]. *)
Theorem X21_url_to_pdf_outcomes (b : Backend F) (url_request : UrlToPdfRequest)
    (w : World F) :
  exists w' r,
    run (url_to_pdf b url_request) w = (w', r) /\
    match r with
    | Raise e =>
        (exists e0,
           render_page b (url url_request) (cookies url_request) = Raise e0 /\
           e = HTTPException 500
                 ("Failed to process URL: " +:+ str_of_exception e0)) /\
        documents w' = documents w
    | Ok response =>
        is_Ok (render_page b (url url_request) (cookies url_request)) = true /\
        exists db_document,
          response = response_of db_document /\
          documents w' !! next_document_id w = Some db_document /\
          (vectorization_status db_document = "completed" \/
           vectorization_status db_document = "failed" /\
           chunks_count db_document = 0)
    end.
Proof.
  destruct (url_to_pdf_effects b url_request w) as (w' & r & Hrun & _ & Hr).
  exists w', r. split; [exact Hrun|].
  destruct (render_page b (url url_request) (cookies url_request))
    as [[[success text] rendered]|e0].
  - destruct Hr as (d & -> & _ & Hdocs & Hrest). split; [reflexivity|].
    exists d. split; [reflexivity|]. rewrite Hdocs, lookup_insert_eq.
    split; [reflexivity|].
    destruct (truthy_str _ && _); [by destruct Hrest as [_ ?] | right];
      by destruct Hrest as (_ & ? & ?).
  - destruct Hr as (-> & Hdocs & _). split; [by exists e0 | exact Hdocs].
Qed.

(** X22.  What becomes of the temporary file of a URL ingestion, given a
    working file system and database.  When the page has substantial
    text the temporary file is removed before the handler returns,
    whether vectorization worked or not.  When the
    text is not substantial the handler returns from inside the [with]
    block and the rendered PDF stays behind under the temporary name;
    when rendering raised, the empty temporary file stays behind. *)
Theorem X22_url_to_pdf_temporary_file (b : Backend F)
    (url_request : UrlToPdfRequest) (w : World F) :
  exists w' r,
    run (url_to_pdf b url_request) w = (w', r) /\
    files w' !! tmp_name b =
      match render_page b (url url_request) (cookies url_request) with
      | Raise _ => Some []
      | Ok (success, text, rendered) =>
          let extracted_text := if success : bool then text else "" in
          if truthy_str extracted_text && (100 <? String.length extracted_text)%nat
          then None
          else Some rendered
      end.
Proof.
  destruct (url_to_pdf_effects b url_request w) as (w' & r & Hrun & _ & Hr).
  exists w', r. split; [exact Hrun|].
  destruct (render_page b (url url_request) (cookies url_request))
    as [[[success text] rendered]|e0].
  - destruct Hr as (d & _ & _ & _ & Hrest). cbv zeta.
    destruct (truthy_str _ && _); destruct Hrest as (-> & _).
    + by rewrite lookup_delete_eq.
    + destruct (decide (blob_path b w (generated_filename url_request) = tmp_name b))
        as [->|Hne].
      * by rewrite lookup_insert_eq.
      * by rewrite lookup_insert_ne, lookup_insert_eq.
  - destruct Hr as (_ & _ & ->). by rewrite lookup_insert_eq.
Qed.

(** X23.  [create_pdf_document_without_vectorization] raises HTTP 500 and
    changes nothing when there is no file at [pdf_path].  Otherwise it
    copies the file to a new blob and stores a row for it that is
    [failed], carries [error_reason] and counts 0 chunks; the file at
    [pdf_path] is not removed, and the vector store is not touched. *)
Theorem X23_document_without_vectorization (b : Backend F)
    (pdf_path original_filename error_reason : string) (w : World F) :
  let path := blob_path b w original_filename in
  exists w' r,
    run (create_pdf_document_without_vectorization b pdf_path original_filename
           error_reason) w = (w', r) /\
    collections w' = collections w /\
    match files w !! pdf_path with
    | None => (exists detail, r = Raise (HTTPException 500 detail)) /\ w' = w
    | Some pdf_content =>
        exists db_document,
          r = Ok (response_of db_document) /\
          documents w' = <[next_document_id w := db_document]> (documents w) /\
          vectorization_status db_document = "failed" /\
          vectorization_error db_document = Some error_reason /\
          chunks_count db_document = 0 /\
          file_size db_document = Z.of_nat (length pdf_content) /\
          file_path db_document = path /\
          files w' = <[path := pdf_content]> (files w)
    end.
Proof.
  intros path. unfold create_pdf_document_without_vectorization.
  cbn -[clean_filename path_join UPLOAD_DIR String.append].
  destruct (files w !! pdf_path) as [pdf_content|];
    cbn -[clean_filename path_join UPLOAD_DIR String.append].
  - eexists _, _. split; [reflexivity|]. split; [reflexivity|].
    eexists. split; [reflexivity|]. done.
  - eexists _, _. split; [reflexivity|]. split; [reflexivity|].
    split; [by eexists | reflexivity].
Qed.

End MoreIngestion.

(* ===================================================================== *)
(** * Listing and searching documents                                     *)
(* ===================================================================== *)

Section MoreRouter.
Import Notions App Models QdrantClient DocumentRouter DocumentListing.
Context {F : Type} `{Num F}.

(** [list_pdfs] never raises, changes nothing and answers with one entry
    per row. *)
Lemma list_pdfs_run (w : World F) :
  run list_pdfs w = (w, Ok (list_entry <$> (snd <$> map_to_list (documents w)))).
Proof. reflexivity. Qed.

Lemma list_pdfs_lookup (w : World F) doc_id doc :
  documents w !! doc_id = Some doc ->
  list_entry doc ∈ list_entry <$> (snd <$> map_to_list (documents w)).
Proof.
  intros Hdoc. apply list_elem_of_fmap. exists doc. split; [reflexivity|].
  apply list_elem_of_fmap. exists (doc_id, doc). split; [reflexivity|].
  by apply elem_of_map_to_list.
Qed.

Lemma list_entry_response doc :
  vectorization_status doc <> "" -> list_entry doc = response_of doc.
Proof.
  intros Hstatus. unfold list_entry, response_of.
  destruct (vectorization_status doc); [done | reflexivity].
Qed.


(** X25.  A document that an upload returned is listed: the response of
    a successful [upload_pdf] is an entry of the answer that [list_pdfs]
    gives next. *)
Theorem X25_uploaded_document_is_listed (b : Backend F) (file : UploadFile)
    (w w' : World F) (response : DocumentResponse) :
  run (upload_pdf b file) w = (w', Ok response) ->
  exists entries, run list_pdfs w' = (w', Ok entries) /\ response ∈ entries.
Proof.
  intros Hrun. eexists. split; [apply list_pdfs_run|].
  destruct (endswith (lower (file_filename file)) ".pdf") eqn:Hpdf.
  - destruct (upload_pdf_effects b file w Hpdf) as (w1 & r & Hrun' & Hr).
    rewrite Hrun in Hrun'. injection Hrun' as <- <-.
    destruct Hr as (d & -> & _ & Hstatus & Hdocs & _).
    rewrite <- list_entry_response by (by rewrite Hstatus).
    apply (list_pdfs_lookup _ (next_document_id w)).
    by rewrite Hdocs, lookup_insert_eq.
  - unfold upload_pdf in Hrun. rewrite Hpdf in Hrun. discriminate.
Qed.


(** The loop body of [search_documents] never raises and changes nothing;
    a hit it keeps was made from the search hit and passes the threshold. *)
Lemma format_hit_outcome (b : Backend F) (min_confidence : option F)
    (result : gmap string (value F)) (w : World F) :
  exists formatted,
    run (format_hit b min_confidence result) w = (w, Ok formatted) /\
    forall hit, formatted = Some hit ->
      formatted_from b w result hit /\ passes min_confidence result.
Proof.
  assert (forall below : stexc F bool,
    (exists r, run below w = (w, r) /\
               (r = Ok false -> passes min_confidence result)) ->
    exists formatted,
      run (try_
        (below ← below;
         if below : bool then mret None else
         metadata ←
           match get result "metadata" (VDict ∅) with
           | VDict m => mret m
           | _ => raise (AttributeError "object has no attribute 'get'")
           end;
         let doc_id := get metadata "document_id" VNone in
         if negb (truthy doc_id) then mret None else
         document ← db_first_by_id b doc_id;
         match document with
         | Some document =>
             mret (Some
               (<["created_at" := VStr (created_at document)]>
                (<["confidence" := get result "score" (VFloat f0_0)]>
                 (<["text" := get result "text" (VStr "")]>
                  (<["chunk_index" := get metadata "chunk_index" (VInt 0)]>
                   (<["filename" := VStr (original_filename document)]>
                    (<["document_id" := doc_id]>
                       (∅ : gmap string (value F)))))))))
         | None => mret None
         end)
        (fun _ => mret None)) w = (w, Ok formatted) /\
      forall hit, formatted = Some hit ->
        formatted_from b w result hit /\ passes min_confidence result) as Hbody.
  { intros below (r & Hbelow & Hpass). rewrite run_try, run_bind, Hbelow.
    destruct r as [[]|e]; cbn [run mret stexc_ret];
      try (eexists; split; [reflexivity|]; done).
    specialize (Hpass eq_refl).
    destruct (get result "metadata" (VDict ∅)) as [| | | |metadata] eqn:Em;
      rewrite run_bind; cbn [run mret stexc_ret raise];
      try (eexists; split; [reflexivity|]; done).
    cbv zeta.
    destruct (truthy (get metadata "document_id" VNone)) eqn:Et;
      cbn [negb run mret stexc_ret];
      [|eexists; split; [reflexivity|]; done].
    unfold db_first_by_id. rewrite !run_bind. cbn [run lift].
    destruct (matching_id b (get metadata "document_id" VNone))
      as [[key|]|e] eqn:Ek; cbn [run mret stexc_ret db_get read];
      try (eexists; split; [reflexivity|]; done).
    destruct (documents w !! key) as [document|] eqn:Edoc;
      cbn [run mret stexc_ret];
      [|eexists; split; [reflexivity|]; done].
    eexists. split; [reflexivity|]. intros hit [= <-]. split; [|exact Hpass].
    exists metadata, (get metadata "document_id" VNone), key, document.
    split; [exact Em|]. split; [reflexivity|]. split; [exact Et|].
    split; [exact Ek|]. split; [exact Edoc|].
    split; [by repeat (rewrite lookup_insert_ne by done); rewrite lookup_insert_eq|].
    split; [by repeat (rewrite lookup_insert_ne by done); rewrite lookup_insert_eq|].
    split; [by rewrite lookup_insert_eq|].
    split; [by repeat (rewrite lookup_insert_ne by done); rewrite lookup_insert_eq|].
    split; [by repeat (rewrite lookup_insert_ne by done); rewrite lookup_insert_eq|].
    by repeat (rewrite lookup_insert_ne by done); rewrite lookup_insert_eq. }
  unfold format_hit. apply Hbody.
  destruct min_confidence as [mc|]; [|by eexists].
  destruct (feqb mc f0_0) eqn:Ezero.
  - eexists. split; [reflexivity|]. intros _. by left.
  - rewrite run_bind. cbn [run lift].
    destruct (float_operand (get result "score" (VInt 0))) as [score|e] eqn:Es;
      cbn [run mret stexc_ret]; [|by eexists].
    eexists. split; [reflexivity|]. intros [= Hlt]. right. by exists score.
Qed.

Lemma format_hits_outcome (b : Backend F) (min_confidence : option F)
    (results : list (gmap string (value F))) (w : World F) :
  exists hits,
    run (format_hits b min_confidence results) w = (w, Ok hits) /\
    (length hits <= length results)%nat /\
    Forall (fun hit => exists result,
              result ∈ results /\ formatted_from b w result hit /\
              passes min_confidence result) hits.
Proof.
  induction results as [|result rest (hits & Hrun & Hlen & Hall)];
    cbn [format_hits].
  - exists []. by repeat split.
  - destruct (format_hit_outcome b min_confidence result w)
      as (formatted & Hhit & Hf).
    rewrite run_bind, Hhit, run_bind, Hrun. cbn [run mret stexc_ret].
    eexists. split; [reflexivity|].
    assert (Forall (fun hit => exists result0,
              result0 ∈ result :: rest /\ formatted_from b w result0 hit /\
              passes min_confidence result0) hits) as Hall'.
    { eapply Forall_impl; [exact Hall|]. intros hit (r & Hin & Hr).
      exists r. split; [by right | exact Hr]. }
    destruct formatted as [hit|]; cbn [length].
    + split; [lia|]. constructor; [|exact Hall'].
      exists result. split; [by left | by apply Hf].
    + split; [lia | exact Hall'].
Qed.

(** The complete behaviour of [search_documents]. *)
Lemma search_documents_outcome (b : Backend F) (query : string) (limit : Z)
    (min_confidence : option F) (w : World F) :
  exists w' r,
    run (search_documents b query limit min_confidence) w = (w', r) /\
    same_store w w' /\
    if backend_ready b w then
      exists response results,
        r = Ok response /\
        run (QdrantClient.search b query limit None) w' = (w', Ok results) /\
        s_query response = query /\
        s_total_results response = Z.of_nat (length (s_results response)) /\
        (length (s_results response) <= length results)%nat /\
        (results = [] -> response = no_results_found query) /\
        (results <> [] ->
         s_message response = None /\
         s_search_params response = Some (limit, min_confidence)) /\
        Forall (fun hit => exists result,
                  result ∈ results /\ formatted_from b w result hit /\
                  passes min_confidence result) (s_results response)
    else r = Raise (HTTPException 500 "Vector search service unavailable").
Proof.
  unfold search_documents. rewrite run_try, run_bind.
  destruct (initialize_qdrant_spec b w) as (w1 & Hinit & Hstore & _).
  rewrite Hinit. destruct (backend_ready b w); cbn [run raise mret stexc_ret].
  2:{ eexists _, _. split; [reflexivity|]. by split. }
  rewrite !run_bind. cbn [run mret stexc_ret]. rewrite run_bind.
  destruct (search_spec b query limit None w1) as (results & Hsearch & _).
  rewrite Hsearch. destruct results as [|result rest]; cbn [run mret stexc_ret].
  - eexists _, _. split; [reflexivity|]. split; [exact Hstore|].
    eexists _, []. split; [reflexivity|]. split; [exact Hsearch|].
    cbn. repeat split; done.
  - destruct (format_hits_outcome b min_confidence (result :: rest) w1)
      as (hits & Hrun & Hlen & Hall).
    rewrite run_bind, Hrun. cbn [run mret stexc_ret].
    eexists _, _. split; [reflexivity|]. split; [exact Hstore|].
    eexists _, (result :: rest). split; [reflexivity|]. split; [exact Hsearch|].
    cbn [s_query s_results s_total_results].
    split; [reflexivity|]. split; [reflexivity|]. split; [exact Hlen|].
    split; [done|]. split; [done|].
    eapply Forall_impl; [exact Hall|]. intros hit (r & Hin & Hfrom & Hpass).
    exists r. split; [exact Hin|]. split; [|exact Hpass].
    destruct Hstore as (Hd & _). unfold formatted_from in *.
    by rewrite <- Hd.
Qed.

(** X27.  What [search_documents] can do.  It never changes rows or
    files.  It raises exactly when the vector store cannot be made ready,
    and then the exception is HTTP 500 "Vector search service
    unavailable".  Otherwise it returns: the answer repeats the query and
    [total_results] is the number of results.  The message "No results
    found" is given exactly when the vector search itself found nothing;
    when every hit was dropped afterwards the answer has no results but
    no message. *)
Theorem X27_search_documents_outcomes (b : Backend F) (query : string)
    (limit : Z) (min_confidence : option F) (w : World F) :
  exists w' r,
    run (search_documents b query limit min_confidence) w = (w', r) /\
    same_store w w' /\
    (backend_ready b w = false /\
     r = Raise (HTTPException 500 "Vector search service unavailable")
     \/
     backend_ready b w = true /\
     exists response results,
       r = Ok response /\
       run (QdrantClient.search b query limit None) w' = (w', Ok results) /\
       s_query response = query /\
       s_total_results response = Z.of_nat (length (s_results response)) /\
       (length (s_results response) <= length results)%nat /\
       (s_message response = Some "No results found" <-> results = [])).
Proof.
  destruct (search_documents_outcome b query limit min_confidence w)
    as (w' & r & Hrun & Hstore & Hr).
  exists w', r. split; [exact Hrun|]. split; [exact Hstore|].
  destruct (backend_ready b w); [right | by left]. split; [reflexivity|].
  destruct Hr as (response & results & -> & Hsearch & Hq & Ht & Hlen & Hnil & Hcons & _).
  exists response, results. split; [reflexivity|]. split; [exact Hsearch|].
  split; [exact Hq|]. split; [exact Ht|]. split; [exact Hlen|]. split.
  - intros Hmsg. destruct results as [|result rest]; [reflexivity|].
    destruct Hcons as [Hnone _]; [done|]. congruence.
  - intros Hres. by rewrite (Hnil Hres).
Qed.

(** X28.  Every result that [search_documents] returns belongs to a
    stored document: it was made from a hit of the vector search whose
    metadata name a document id that is truthy and that the database
    compares equal to the id of a row (an [int] is compared as it is, for
    a value of another type the database decides), and it carries that
    document id, the row's original file name and creation time together
    with the text, chunk index and score of the hit.  Hits whose document
    id is falsy or finds no row are dropped. *)
Theorem X28_search_results_have_documents (b : Backend F) (query : string)
    (limit : Z) (min_confidence : option F) (w w' : World F)
    (response : SearchResponse) :
  run (search_documents b query limit min_confidence) w = (w', Ok response) ->
  exists results,
    run (QdrantClient.search b query limit None) w' = (w', Ok results) /\
    Forall (fun hit => exists result,
              result ∈ results /\ formatted_from b w result hit)
           (s_results response).
Proof.
  intros Hrun.
  destruct (search_documents_outcome b query limit min_confidence w)
    as (w1 & r & Hrun' & _ & Hr).
  rewrite Hrun in Hrun'. injection Hrun' as <- <-.
  destruct (backend_ready b w); [|discriminate].
  destruct Hr as (response' & results & [= <-] & Hsearch & _ & _ & _ & _ & _ & Hall).
  exists results. split; [exact Hsearch|].
  eapply Forall_impl; [exact Hall|]. intros hit (result & Hin & Hfrom & _).
  by exists result.
Qed.

Lemma gateway_search_scores (b : Backend F) query limit filter_dict (w : World F)
    results :
  run (QdrantClient.search b query limit filter_dict) w = (w, Ok results) ->
  Forall (fun result => exists score, result !! "score" = Some (VFloat score)) results.
Proof.
  intros Hrun.
  destruct (search_spec b query limit filter_dict w)
    as (results' & Hrun' & Hinit & Henc & Hquery & Hok).
  rewrite Hrun in Hrun'. injection Hrun' as <-.
  destruct (client (qdrant_client w) && embedding_model (qdrant_client w)) eqn:Ei;
    [|by rewrite Hinit].
  destruct (encode b query) as [embedding|e] eqn:Ee; [|by rewrite Henc].
  destruct (search_points b embedding (query_filter filter_dict) limit)
    as [points|e] eqn:Es.
  - rewrite (Hok embedding points eq_refl eq_refl Es).
    apply Forall_forall. intros result (p & -> & _)%list_elem_of_fmap.
    exists (sp_score p). unfold format_result.
    by repeat (rewrite lookup_insert_ne by done); rewrite lookup_insert_eq.
  - rewrite (Hquery embedding eq_refl); [done | by rewrite Es].
Qed.

(** X29.  With a threshold other than zero, no result of
    [search_documents] is below it: the confidence of every result is the
    float score of its hit, and [score < min_confidence] is false. *)
Theorem X29_results_pass_the_threshold (b : Backend F) (query : string)
    (limit : Z) (min_confidence : F) (w w' : World F)
    (response : SearchResponse) :
  feqb min_confidence f0_0 = false ->
  run (search_documents b query limit (Some min_confidence)) w = (w', Ok response) ->
  Forall (fun hit => exists score,
            hit !! "confidence" = Some (VFloat score) /\
            fltb score min_confidence = false)
         (s_results response).
Proof.
  intros Hzero Hrun.
  destruct (search_documents_outcome b query limit (Some min_confidence) w)
    as (w1 & r & Hrun' & _ & Hr).
  rewrite Hrun in Hrun'. injection Hrun' as <- <-.
  destruct (backend_ready b w); [|discriminate].
  destruct Hr as (response' & results & [= <-] & Hsearch & _ & _ & _ & _ & _ & Hall).
  pose proof (gateway_search_scores _ _ _ _ _ _ Hsearch) as Hscores.
  eapply Forall_impl; [exact Hall|]. intros hit (result & Hin & Hfrom & Hpass).
  rewrite Forall_forall in Hscores. destruct (Hscores result Hin) as (score & Hscore).
  destruct Hfrom as (? & ? & ? & ? & _ & _ & _ & _ & _ & _ & _ & _ & _ & _ & Hconf).
  exists score. unfold get in Hconf, Hpass. rewrite Hscore in Hconf.
  split; [exact Hconf|].
  destruct Hpass as [Hz | (score' & Hop & Hlt)]; [congruence|].
  unfold get in Hop. rewrite Hscore in Hop. cbn in Hop. by injection Hop as <-.
Qed.

Lemma format_hits_zero_threshold (b : Backend F) (min_confidence : F) results :
  feqb min_confidence f0_0 = true ->
  format_hits b (Some min_confidence) results = format_hits b None results.
Proof.
  intros Hzero. induction results as [|result rest IH]; [reflexivity|].
  cbn [format_hits]. rewrite IH. unfold format_hit. by rewrite Hzero.
Qed.

(** X30.  A threshold of zero is no threshold: [min_confidence = 0.0] is
    falsy, so the search returns the same results as without a
    threshold, also the hits whose score is negative. *)
Theorem X30_zero_threshold_is_no_threshold (b : Backend F) (query : string)
    (limit : Z) (min_confidence : F) (w w' : World F)
    (response : SearchResponse) :
  feqb min_confidence f0_0 = true ->
  run (search_documents b query limit (Some min_confidence)) w = (w', Ok response) ->
  exists response',
    run (search_documents b query limit None) w = (w', Ok response') /\
    s_results response' = s_results response /\
    s_total_results response' = s_total_results response /\
    s_message response' = s_message response.
Proof.
  intros Hzero. unfold search_documents. rewrite !run_try, !run_bind.
  destruct (run (initialize_qdrant b) w) as [w1 [[]|e]];
    cbn [run raise mret stexc_ret]; try discriminate;
    [|destruct e; discriminate].
  rewrite !run_bind. cbn [run mret stexc_ret]. rewrite !run_bind.
  destruct (run (QdrantClient.search b query limit None) w1)
    as [w2 [[|result rest]|e]]; cbn [run raise mret stexc_ret].
  - intros [= <- <-]. by eexists.
  - rewrite !run_bind, format_hits_zero_threshold by exact Hzero.
    destruct (run (format_hits b None (result :: rest)) w2) as [w3 [hits|e]];
      cbn [run raise mret stexc_ret].
    + intros [= <- <-]. by eexists.
    + destruct e; discriminate.
  - destruct e; discriminate.
Qed.

End MoreRouter.

(* ===================================================================== *)
(** * Further instances                                                   *)
(* ===================================================================== *)

Section MoreInstances.
Import Notions HybridSearch App Models QdrantClient DocumentRouter DocumentListing.
Import Samples MoreSamples.

(** The query "alpha alpha" against a text with one "alpha". *)
Lemma X2_witness_alpha_twice :
  contains "alpha" "one alpha" = true /\
  0 <= proximity_distance (hybrid_search_engine (F:=Q)) /\
  _calculate_proximity_bonus (hybrid_search_engine (F:=Q)) ["alpha"; "alpha"]
    "one alpha" = (3 # 10)%Q.
Proof.
  split; [reflexivity|]. split; [vm_compute; discriminate|].
  refine (X2_repeated_word_gets_proximity_bonus (hybrid_search_engine (F:=Q))
            "alpha" "one alpha" _ _); [reflexivity | vm_compute; discriminate].
Defined.

(** A query of two spaces. *)
Lemma X4_witness_two_spaces :
  all_chars isspace "  " = true /\
  forall document_text,
    calculate_keyword_score (hybrid_search_engine (F:=Q)) "  " document_text = 0%Q.
Proof.
  split; [reflexivity|].
  exact (proj1 (X4_whitespace_query_is_a_no_op "  " eq_refl Q _
                  hybrid_search_engine)).
Defined.

(** The query "Alpha" against a text that has the word. *)
Lemma X5_witness_alpha :
  split (lower "Alpha") = ["alpha"] /\
  (calculate_keyword_score (hybrid_search_engine (F:=Q)) "Alpha" "An alpha release"
   == 1)%Q.
Proof.
  split; [reflexivity|].
  apply (X5_single_word_score hybrid_search_engine "Alpha" "An alpha release"
           "alpha" eq_refl).
Defined.

(** The query "alpha beta" against a text that has the phrase. *)
Lemma X6_witness_phrase :
  contains (lower "alpha beta") (lower "the Alpha Beta release") = true /\
  count_matched (split (lower "alpha beta")) (lower "the Alpha Beta release")
  = length (split (lower "alpha beta")).
Proof.
  split; [reflexivity|].
  exact (proj1 (X6_phrase_match_means_full_match (hybrid_search_engine (F:=Q))
                  "alpha beta" "the Alpha Beta release" eq_refl)).
Defined.

(** The same query and text with a semantic score of 0.5. *)
Lemma X8_witness_phrase :
  split (lower "alpha beta") <> [] /\
  (0 <= 1 # 2 <= 1)%Q /\
  (0 <= calculate_hybrid_score hybrid_search_engine (1 # 2)
          (calculate_keyword_score hybrid_search_engine "alpha beta"
             "the Alpha Beta release")
          (count_matched (split (lower "alpha beta"))
             (lower "the Alpha Beta release"))
          (length (split (lower "alpha beta")))
     <= 11 # 10)%Q.
Proof.
  split; [vm_compute; discriminate|].
  split; [split; vm_compute; discriminate|].
  apply (X8_hybrid_score_range "alpha beta" "the Alpha Beta release" (1 # 2));
    [vm_compute; discriminate | split; vm_compute; discriminate].
Defined.

(** Re-ranking raises on the hit without text, the fallback call returns. *)
Lemma X9_witness_fallback_returns :
  is_Ok (top_k "alpha" 1 None) = true /\
  is_Ok (HybridSearch.search hybrid_search_engine "alpha" top_k 1 None) = true.
Proof.
  split; [reflexivity|].
  apply (X9_search_raises_only_with_the_fallback hybrid_search_engine "alpha"
           top_k 1 None).
  reflexivity.
Defined.

(** The over-fetched candidates are three, the limit is 2. *)
Lemma X10_witness_limit_two :
  0 <= 2 /\
  HybridSearch.search hybrid_search_engine "alpha" limited_answer 2 None
  = Ok (slice_to reranked_three_hits 2) /\
  Z.of_nat (length (slice_to reranked_three_hits 2)) <= 2.
Proof.
  assert (HybridSearch.search hybrid_search_engine "alpha" limited_answer 2 None
          = Ok (slice_to reranked_three_hits 2)) as Hsearch
    by (vm_cast_no_check
          (eq_refl (Ok (A:=list (gmap string (value Q)))
                      (slice_to reranked_three_hits 2)))).
  split; [lia|]. split; [exact Hsearch|].
  apply (X10_search_returns_at_most_limit hybrid_search_engine "alpha"
           limited_answer 2 None).
  - lia.
  - intros results [= <-]. vm_compute. discriminate.
  - exact Hsearch.
Defined.

(** The uploaded report is listed. *)
Lemma X25_witness_report_listed :
  exists entries,
    run list_pdfs world_after_upload = (world_after_upload, Ok entries) /\
    response_of_upload ∈ entries.
Proof.
  apply (X25_uploaded_document_is_listed backend_up report_pdf empty_world).
  vm_cast_no_check (eq_refl (world_after_upload, Ok (A:=DocumentResponse)
                                                  response_of_upload)).
Defined.


(** The point whose payload holds the document id as the text "1" is
    returned with the file name of document 1. *)
Lemma X28_witness_text_id :
  length (s_results response_of_search_text_id) = 1%nat /\
  exists results,
    run (QdrantClient.search backend_text_id "chunk" 5 None)
        world_after_search_text_id
    = (world_after_search_text_id, Ok results) /\
    Forall (fun hit => exists result,
              result ∈ results /\
              formatted_from backend_text_id world_after_upload result hit)
           (s_results response_of_search_text_id).
Proof.
  split; [reflexivity|].
  apply (X28_search_results_have_documents backend_text_id "chunk" 5 None
           world_after_upload).
  vm_cast_no_check
    (eq_refl (world_after_search_text_id,
              Ok (A:=SearchResponse) response_of_search_text_id)).
Defined.

(** With the threshold 0.5 only the point with score 0.9 is returned. *)
Lemma X29_witness_threshold_half :
  feqb (1 # 2)%Q f0_0 = false /\
  length (s_results response_of_search_half) = 1%nat /\
  Forall (fun hit => exists score,
            hit !! "confidence" = Some (VFloat score) /\
            fltb score (1 # 2)%Q = false)
         (s_results response_of_search_half).
Proof.
  split; [reflexivity|]. split; [reflexivity|].
  apply (X29_results_pass_the_threshold backend_two_hits "chunk" 5 (1 # 2)%Q
           world_after_upload world_after_search_half); [reflexivity|].
  vm_cast_no_check
    (eq_refl (world_after_search_half,
              Ok (A:=SearchResponse) response_of_search_half)).
Defined.

(** With the threshold 0 the point with score -0.5 is returned as well. *)
Lemma X30_witness_threshold_zero :
  feqb 0%Q f0_0 = true /\
  length (s_results response_of_search_zero) = 2%nat /\
  exists response',
    run (search_documents backend_two_hits "chunk" 5 None) world_after_upload
    = (world_after_search_zero, Ok response') /\
    s_results response' = s_results response_of_search_zero /\
    s_total_results response' = s_total_results response_of_search_zero /\
    s_message response' = s_message response_of_search_zero.
Proof.
  split; [reflexivity|]. split; [reflexivity|].
  apply (X30_zero_threshold_is_no_threshold backend_two_hits "chunk" 5 0%Q
           world_after_upload world_after_search_zero); [reflexivity|].
  vm_cast_no_check
    (eq_refl (world_after_search_zero,
              Ok (A:=SearchResponse) response_of_search_zero)).
Defined.

End MoreInstances.
